(** * youtubesnapshots: the caching subsystem

    A shallow embedding of the cache layer of the screenshot service:

    - [FastCache] (src/app.py): the in-process tier, a dict of image blobs
      with a deque recording the access order, and a dict of metadata;
    - [StreamCache] (src/app.py): the cache of resolved stream URLs;
    - [LocalCache] (src/localcache.py) and [GCSCache] (src/gcscache.py): the
      two durable backends;
    - [check_cache_parallel] (src/app.py): the coherence check.

    Python values are modelled as follows.  An [int] is a [Z]; [bytes] is a
    list of bytes; a [str] is a [string] (code points below 256); a dict whose
    iteration order is observed is an association list in insertion order,
    a dict that is only looked up is a [gmap]; a [deque] is a list with its
    left end at the head.  A call that can raise returns an [outcome]
    together with the state it leaves behind.  Instants and durations are
    integers counting microseconds, the resolution of [datetime]. *)

From stdpp Require Import gmap strings list pretty.
From Stdlib Require Import ZArith Lia Ascii.

Local Open Scope Z_scope.
Set Warnings "-register-all".
Set Default Proof Using "Type".
Set Default Goal Selector "!".

(** ** Python preliminaries *)

Abbreviation bytes := (list Byte.byte).

Inductive exn := IndexError | ValueError | BackendError.

Inductive outcome (A : Type) :=
  | Returns (a : A)
  | Raises (e : exn).
Arguments Returns {A} a.
Arguments Raises {A} e.

(** [if x:] on an [Optional[bytes]] or an [Optional[list]]: [None] and the
    empty sequence are both false. *)
Definition truthy {A : Type} (x : option (list A)) : bool :=
  match x with
  | Some (_ :: _) => true
  | _ => false
  end.

(** [x is not None] *)
Definition is_not_None {A : Type} (x : option A) : bool :=
  match x with
  | Some _ => true
  | None => false
  end.

(** ** Insertion-ordered dicts

    [d[k] = v] keeps the position of a key that is already present and
    appends a new key at the end; [del d[k]] removes the entry;
    [next(iter(d))] is the first key. *)
Module PyDict.
Section Dict.
Context {V : Type}.

Fixpoint get (k : string) (d : list (string * V)) : option V :=
  match d with
  | [] => None
  | (k', v) :: d' => if decide (k = k') then Some v else get k d'
  end.

Definition contains (k : string) (d : list (string * V)) : bool :=
  is_not_None (get k d).

Fixpoint set (k : string) (v : V) (d : list (string * V)) : list (string * V) :=
  match d with
  | [] => [(k, v)]
  | (k', v') :: d' =>
      if decide (k = k') then (k, v) :: d' else (k', v') :: set k v d'
  end.

Fixpoint del (k : string) (d : list (string * V)) : list (string * V) :=
  match d with
  | [] => []
  | (k', v') :: d' => if decide (k = k') then d' else (k', v') :: del k d'
  end.

Definition keys (d : list (string * V)) : list string := d.*1.

Definition first_key (d : list (string * V)) : option string := head (keys d).
End Dict.
End PyDict.

(** ** JSON values and [json.dumps]

    A float is carried by the text the encoder prints for it: its [repr],
    or [NaN], [Infinity], [-Infinity]. *)
Inductive json :=
  | JNull
  | JBool (b : bool)
  | JInt (n : Z)
  | JFloat (repr : string)
  | JStr (s : string)
  | JList (items : list json)
  | JDict (members : list (string * json)).

(** One descriptor per generated screenshot (quality, filename, size_kb,
    download_url, name, source_height); the metadata of a (video, timestamp)
    pair is the list of its descriptors. *)
Abbreviation Descriptor := (list (string * json)).
Abbreviation Metadata := (list (list (string * json))).

Definition metadata_to_json (metadata : Metadata) : json :=
  JList (JDict <$> metadata).

Module Json.

Definition quote : ascii := "034"%char.
Definition newline : ascii := "010"%char.

Definition hex_digit (n : nat) : ascii :=
  match n with
  | 0 => "0" | 1 => "1" | 2 => "2" | 3 => "3" | 4 => "4" | 5 => "5"
  | 6 => "6" | 7 => "7" | 8 => "8" | 9 => "9" | 10 => "a" | 11 => "b"
  | 12 => "c" | 13 => "d" | 14 => "e" | _ => "f"
  end%nat%char.

(** The replacement of one character by [py_encode_basestring_ascii]:
    the quote, the backslash and everything outside [' '..'~'] are
    escaped. *)
Definition escape_char (c : ascii) : string :=
  let n := nat_of_ascii c in
  if decide (n = 34)%nat then String "\" (String quote "")
  else if decide (n = 92)%nat then "\\"
  else if decide (n = 10)%nat then "\n"
  else if decide (n = 13)%nat then "\r"
  else if decide (n = 9)%nat then "\t"
  else if decide (n = 12)%nat then "\f"
  else if decide (n = 8)%nat then "\b"
  else if bool_decide (32 ≤ n ≤ 126)%nat then String c ""
  else "\u00" +:+ String (hex_digit (n / 16)) (String (hex_digit (n mod 16)) "").

Fixpoint escape (s : string) : string :=
  match s with
  | EmptyString => ""
  | String c s' => escape_char c +:+ escape s'
  end.

Definition encode_basestring_ascii (s : string) : string :=
  String quote (escape s +:+ String quote "").

Fixpoint spaces (n : nat) : string :=
  match n with
  | O => ""
  | S n' => String " " (spaces n')
  end.

(** [newline_indent]: a line break followed by [indent * level] spaces
    when an indent is given, nothing otherwise. *)
Definition newline_indent (indent : option nat) (level : nat) : string :=
  match indent with
  | None => ""
  | Some n => String newline (spaces (n * level))
  end.

(** The item separator is [", "] by default and [","] with an indent. *)
Definition item_separator (indent : option nat) : string :=
  match indent with
  | None => ", "
  | Some _ => ","
  end.

Definition key_separator : string := ": ".

Fixpoint iterencode (indent : option nat) (level : nat) (o : json) : string :=
  match o with
  | JNull => "null"
  | JBool true => "true"
  | JBool false => "false"
  | JInt n => pretty n
  | JFloat r => r
  | JStr s => encode_basestring_ascii s
  | JList [] => "[]"
  | JList (x :: xs) =>
      "[" +:+ newline_indent indent (S level)
        +:+ iterencode indent (S level) x
        +:+ (fix rest (l : list json) : string :=
               match l with
               | [] => ""
               | y :: l' =>
                   item_separator indent +:+ newline_indent indent (S level)
                     +:+ iterencode indent (S level) y +:+ rest l'
               end) xs
        +:+ newline_indent indent level +:+ "]"
  | JDict [] => "{}"
  | JDict ((k, v) :: kvs) =>
      "{" +:+ newline_indent indent (S level)
        +:+ encode_basestring_ascii k +:+ key_separator
        +:+ iterencode indent (S level) v
        +:+ (fix rest (l : list (string * json)) : string :=
               match l with
               | [] => ""
               | (k', v') :: l' =>
                   item_separator indent +:+ newline_indent indent (S level)
                     +:+ encode_basestring_ascii k' +:+ key_separator
                     +:+ iterencode indent (S level) v' +:+ rest l'
               end) kvs
        +:+ newline_indent indent level +:+ "}"
  end.

(** [json.dumps(o)] and [json.dump(o, f, indent=2)] *)
Definition dumps (o : json) : string := iterencode None 0 o.
Definition dump_indent (n : nat) (o : json) : string := iterencode (Some n) 0 o.

End Json.

(** ** The durable tier as the in-process cache sees it

    [FastCache] holds a handle on the durable backend and calls two of its
    methods; both catch every exception, so a call yields a value or [None]. *)
Record DurableTier := {
  cached_screenshot : string → Z → string → option bytes;
  cached_metadata : string → Z → option Metadata
}.

(** ** FastCache (src/app.py) *)

Record CacheStats := {
  hits : Z;
  misses : Z;
  memory_hits : Z;
  gcs_hits : Z
}.

Record FastCache := {
  memory_cache : gmap string bytes;
  metadata_cache : list (string * Metadata);
  cache_stats : CacheStats;
  access_order : list string
}.

Definition max_memory_items : nat := 100.
Definition max_metadata_items : nat := 50.

Module FastCache.

(** [FastCache.__init__] *)
Definition init : FastCache :=
  {| memory_cache := ∅;
     metadata_cache := [];
     cache_stats := {| hits := 0; misses := 0; memory_hits := 0; gcs_hits := 0 |};
     access_order := [] |}.

Definition screenshot_key (video_id : string) (timestamp : Z) (quality : string) : string :=
  video_id +:+ "_" +:+ pretty timestamp +:+ "_" +:+ quality.

Definition metadata_key (video_id : string) (timestamp : Z) : string :=
  video_id +:+ "_" +:+ pretty timestamp +:+ "_metadata".

Definition with_memory (mc : gmap string bytes) (ao : list string) (c : FastCache) : FastCache :=
  {| memory_cache := mc; metadata_cache := metadata_cache c;
     cache_stats := cache_stats c; access_order := ao |}.

Definition with_metadata (md : list (string * Metadata)) (c : FastCache) : FastCache :=
  {| memory_cache := memory_cache c; metadata_cache := md;
     cache_stats := cache_stats c; access_order := access_order c |}.

Definition with_stats (st : CacheStats) (c : FastCache) : FastCache :=
  {| memory_cache := memory_cache c; metadata_cache := metadata_cache c;
     cache_stats := st; access_order := access_order c |}.

Definition count_memory_hit (st : CacheStats) : CacheStats :=
  {| hits := hits st + 1; misses := misses st;
     memory_hits := memory_hits st + 1; gcs_hits := gcs_hits st |}.

Definition count_gcs_hit (st : CacheStats) : CacheStats :=
  {| hits := hits st + 1; misses := misses st;
     memory_hits := memory_hits st; gcs_hits := gcs_hits st + 1 |}.

Definition count_miss (st : CacheStats) : CacheStats :=
  {| hits := hits st; misses := misses st + 1;
     memory_hits := memory_hits st; gcs_hits := gcs_hits st |}.

(** [deque.remove(x)]: drops the first occurrence, [ValueError] if there
    is none. *)
Fixpoint deque_remove (x : string) (d : list string) : outcome (list string) :=
  match d with
  | [] => Raises ValueError
  | y :: d' =>
      if decide (x = y) then Returns d'
      else match deque_remove x d' with
           | Returns r => Returns (y :: r)
           | Raises e => Raises e
           end
  end.

(** The [while] loop of [_store_in_memory]; every iteration pops the left
    end of the deque, and [popleft] on an empty deque raises. *)
Fixpoint evict (mc : gmap string bytes) (ao : list string)
    : outcome unit * (gmap string bytes * list string) :=
  if bool_decide (max_memory_items ≤ size mc)%nat then
    match ao with
    | [] => (Raises IndexError, (mc, ao))
    | oldest_key :: ao' =>
        if bool_decide (oldest_key ∈ dom mc)
        then evict (delete oldest_key mc) ao'
        else evict mc ao'
    end
  else (Returns (), (mc, ao)).

Definition _store_in_memory (cache_key : string) (image_data : bytes) (c : FastCache)
    : outcome unit * FastCache :=
  match evict (memory_cache c) (access_order c) with
  | (Raises e, (mc, ao)) => (Raises e, with_memory mc ao c)
  | (Returns _, (mc, ao)) =>
      (Returns (), with_memory (<[cache_key := image_data]> mc) (ao ++ [cache_key]) c)
  end.

(** [store_screenshot]: the memory insert is awaited; the write to the
    durable tier is a task of its own that does not touch the cache. *)
Definition store_screenshot (video_id : string) (timestamp : Z) (quality : string)
    (image_data : bytes) (c : FastCache) : outcome unit * FastCache :=
  _store_in_memory (screenshot_key video_id timestamp quality) image_data c.

(** [get_screenshot] up to its only suspension point, the call of the
    durable tier in the executor: [Some] when level 1 answers, [None]
    when the coroutine waits for the backend. *)
Definition get_screenshot_memory (cache_key : string) (c : FastCache)
    : option (outcome (option bytes) * FastCache) :=
  match memory_cache c !! cache_key with
  | Some data =>
      let c1 := with_stats (count_memory_hit (cache_stats c)) c in
      Some match deque_remove cache_key (access_order c1) with
           | Raises e => (Raises e, c1)
           | Returns ao =>
               (Returns (Some data), with_memory (memory_cache c1) (ao ++ [cache_key]) c1)
           end
  | None => None
  end.

(** [get_screenshot] from the answer of the durable tier on. *)
Definition get_screenshot_gcs (cache_key : string) (image_data : option bytes) (c : FastCache)
    : outcome (option bytes) * FastCache :=
  match image_data with
  | Some (b :: data) =>
      match _store_in_memory cache_key (b :: data) c with
      | (Raises e, c') => (Raises e, c')
      | (Returns _, c') =>
          (Returns (Some (b :: data)), with_stats (count_gcs_hit (cache_stats c')) c')
      end
  | _ => (Returns None, with_stats (count_miss (cache_stats c)) c)
  end.

Definition get_screenshot (gcs_cache : DurableTier)
    (video_id : string) (timestamp : Z) (quality : string) (c : FastCache)
    : outcome (option bytes) * FastCache :=
  let cache_key := screenshot_key video_id timestamp quality in
  match get_screenshot_memory cache_key c with
  | Some r => r
  | None =>
      get_screenshot_gcs cache_key
        (cached_screenshot gcs_cache video_id timestamp quality) c
  end.

(** [get_cached_metadata]: the over-capacity check follows the insert and
    removes the first key of the dict. *)
Definition get_cached_metadata (gcs_cache : DurableTier)
    (video_id : string) (timestamp : Z) (c : FastCache)
    : option Metadata * FastCache :=
  let key := metadata_key video_id timestamp in
  match PyDict.get key (metadata_cache c) with
  | Some metadata => (Some metadata, c)
  | None =>
      let metadata := cached_metadata gcs_cache video_id timestamp in
      if truthy metadata then
        let md := PyDict.set key (default [] metadata) (metadata_cache c) in
        let md' :=
          if bool_decide (max_metadata_items < length md)%nat
          then match PyDict.first_key md with
               | Some oldest_key => PyDict.del oldest_key md
               | None => md
               end
          else md in
        (metadata, with_metadata md' c)
      else (metadata, c)
  end.

(** [store_metadata] *)
Definition store_metadata (video_id : string) (timestamp : Z) (metadata : Metadata)
    (c : FastCache) : FastCache :=
  with_metadata (PyDict.set (metadata_key video_id timestamp) metadata (metadata_cache c)) c.

End FastCache.

(** ** Sequences of calls on the in-process cache

    A call of the server's handlers on the shared [fast_cache]; a lookup
    carries the durable tier as it stands when the call is made.  The
    server answers an exception with an error response and keeps running,
    so a sequence goes on from the state an exception leaves behind. *)
Inductive call :=
  | StoreScreenshot (video_id : string) (timestamp : Z) (quality : string) (image_data : bytes)
  | GetScreenshot (gcs_cache : DurableTier) (video_id : string) (timestamp : Z) (quality : string)
  | StoreMetadata (video_id : string) (timestamp : Z) (metadata : Metadata)
  | GetCachedMetadata (gcs_cache : DurableTier) (video_id : string) (timestamp : Z).

Definition exec (op : call) (c : FastCache) : outcome unit * FastCache :=
  match op with
  | StoreScreenshot v t q data => FastCache.store_screenshot v t q data c
  | GetScreenshot gcs v t q =>
      match FastCache.get_screenshot gcs v t q c with
      | (Returns _, c') => (Returns (), c')
      | (Raises e, c') => (Raises e, c')
      end
  | StoreMetadata v t md => (Returns (), FastCache.store_metadata v t md c)
  | GetCachedMetadata gcs v t => (Returns (), (FastCache.get_cached_metadata gcs v t c).2)
  end.

Definition run (ops : list call) (c : FastCache) : FastCache :=
  foldl (λ c op, (exec op c).2) c ops.

Definition reachable (c : FastCache) : Prop :=
  ∃ ops, c = run ops FastCache.init.

(** What the blob tier keeps true: the dict is within its capacity and each
    of its keys occurs in the deque. *)
Definition tracked (mc : gmap string bytes) (ao : list string) : Prop :=
  ∀ k, k ∈ dom mc → k ∈ ao.

Definition memory_ok (c : FastCache) : Prop :=
  (size (memory_cache c) ≤ max_memory_items)%nat
  ∧ tracked (memory_cache c) (access_order c).

(** The access order lists exactly the keys of the dict, each once. *)
Definition access_order_exact (c : FastCache) : Prop :=
  access_order c ≡ₚ elements (dom (memory_cache c)).

(** A durable tier that holds nothing. *)
Definition empty_tier : DurableTier :=
  {| cached_screenshot := λ _ _ _, None; cached_metadata := λ _ _, None |}.

(** ** The blob tier: eviction, capacity, read-your-write *)
Section MemoryTier.
Import FastCache.

Lemma evict_nil mc :
  evict mc [] =
    if bool_decide (max_memory_items ≤ size mc)%nat
    then (Raises IndexError, (mc, [])) else (Returns (), (mc, [])).
Proof. reflexivity. Qed.

Lemma evict_cons mc k ao :
  evict mc (k :: ao) =
    if bool_decide (max_memory_items ≤ size mc)%nat
    then (if bool_decide (k ∈ dom mc) then evict (delete k mc) ao else evict mc ao)
    else (Returns (), (mc, k :: ao)).
Proof. reflexivity. Qed.

Lemma tracked_nil_empty mc : tracked mc [] → size mc = 0%nat.
Proof.
  intros Htr. apply map_size_empty_iff, map_empty. intros k.
  apply not_elem_of_dom. intros Hk. specialize (Htr k Hk).
  by apply elem_of_nil in Htr.
Qed.

(** The loop ends without an exception, below capacity, and drops nothing
    it has not popped. *)
Lemma evict_tracked ao : ∀ mc,
  tracked mc ao →
  ∃ mc' ao',
    evict mc ao = (Returns (), (mc', ao'))
    ∧ (size mc' < max_memory_items)%nat
    ∧ tracked mc' ao'
    ∧ mc' ⊆ mc.
Proof.
  induction ao as [|k ao IH]; intros mc Htr.
  - rewrite evict_nil. rewrite (tracked_nil_empty mc Htr) in *.
    rewrite bool_decide_eq_false_2 by (unfold max_memory_items; lia).
    exists mc, []. rewrite (tracked_nil_empty mc Htr).
    split_and!; [done | unfold max_memory_items; lia | done | done].
  - rewrite evict_cons. case_bool_decide as Hfull.
    + assert (tracked (delete k mc) ao) as Htr'.
      { intros k' Hk'. rewrite dom_delete_L in Hk'.
        apply elem_of_difference in Hk' as [Hk' Hne].
        specialize (Htr k' Hk'). apply elem_of_cons in Htr as [->|]; [|done].
        exfalso. apply Hne. by apply elem_of_singleton. }
      case_bool_decide as Hin.
      * destruct (IH _ Htr') as (mc' & ao' & He & Hsz & Ht & Hsub).
        exists mc', ao'. split_and!; [done | done | done |].
        etrans; [exact Hsub | apply delete_subseteq].
      * apply not_elem_of_dom in Hin. rewrite delete_id in Htr' by done.
        destruct (IH _ Htr') as (mc' & ao' & He & Hsz & Ht & Hsub).
        exists mc', ao'. by split_and!.
    + exists mc, (k :: ao). split_and!; [done | lia | done | done].
Qed.

Lemma store_in_memory_ok cache_key image_data c :
  tracked (memory_cache c) (access_order c) →
  ∃ c',
    _store_in_memory cache_key image_data c = (Returns (), c')
    ∧ memory_ok c'
    ∧ memory_cache c' !! cache_key = Some image_data
    ∧ metadata_cache c' = metadata_cache c
    ∧ cache_stats c' = cache_stats c.
Proof.
  intros Htr. unfold _store_in_memory.
  destruct (evict_tracked _ _ Htr) as (mc' & ao' & -> & Hsz & Ht & _).
  eexists. split; [reflexivity|]. simpl. split_and!; try done.
  - split; simpl.
    + pose proof (map_size_insert cache_key image_data mc') as Hs.
      destruct (mc' !! cache_key); simpl in Hs; unfold id in Hs; lia.
    + intros k Hk. rewrite dom_insert_L in Hk.
      apply elem_of_app. apply elem_of_union in Hk as [Hk|Hk].
      * right. apply elem_of_singleton in Hk as ->. apply list_elem_of_singleton. done.
      * left. by apply Ht.
  - apply lookup_insert_eq.
Qed.

Lemma deque_remove_ok x d :
  x ∈ d →
  ∃ d', deque_remove x d = Returns d' ∧ (∀ y, y ∈ d → y ∈ d' ++ [x]).
Proof.
  induction d as [|y d IH]; intros Hx.
  - by apply elem_of_nil in Hx.
  - simpl. destruct (decide (x = y)) as [->|Hne].
    + exists d. split; [done|]. intros z Hz. apply elem_of_app.
      apply elem_of_cons in Hz as [->|Hz]; [right; apply list_elem_of_singleton; done | by left].
    + apply elem_of_cons in Hx as [Hx|Hx]; [done|].
      destruct (IH Hx) as (d' & -> & Hd'). exists (y :: d'). split; [done|].
      intros z Hz. apply elem_of_app. apply elem_of_cons in Hz as [->|Hz].
      * left. apply elem_of_cons. by left.
      * specialize (Hd' z Hz). apply elem_of_app in Hd' as [Hd'|Hd'].
        -- left. apply elem_of_cons. by right.
        -- by right.
Qed.

Lemma get_screenshot_ok gcs v t q c :
  memory_ok c →
  ∃ r c',
    get_screenshot gcs v t q c = (Returns r, c') ∧ memory_ok c'.
Proof.
  intros [Hsz Htr]. unfold get_screenshot, get_screenshot_memory.
  destruct (memory_cache c !! screenshot_key v t q) as [data|] eqn:Hlk.
  - assert (screenshot_key v t q ∈ access_order c) as Hin.
    { apply Htr, elem_of_dom. eauto. }
    simpl. destruct (deque_remove_ok _ _ Hin) as (d' & -> & Hd').
    eexists _, _. split; [reflexivity|]. split; simpl; [done|].
    intros k Hk. apply Hd'. by apply Htr.
  - unfold get_screenshot_gcs.
    destruct (cached_screenshot gcs v t q) as [[|b data]|].
    + eexists _, _. split; [reflexivity|]. by split.
    + destruct (store_in_memory_ok (screenshot_key v t q) (b :: data) c Htr)
        as (c' & -> & [Hsz' Htr'] & _).
      eexists _, _. split; [reflexivity|]. by split.
    + eexists _, _. split; [reflexivity|]. by split.
Qed.

Lemma exec_memory_ok op c :
  memory_ok c → ∃ c', exec op c = (Returns (), c') ∧ memory_ok c'.
Proof.
  intros Hok. destruct op as [v t q data|gcs v t q|v t md|gcs v t]; simpl.
  - destruct (store_in_memory_ok (screenshot_key v t q) data c (proj2 Hok))
      as (c' & He & Hok' & _).
    exists c'. by split.
  - destruct (get_screenshot_ok gcs v t q c Hok) as (r & c' & -> & Hok').
    exists c'. by split.
  - eexists. split; [reflexivity|]. exact Hok.
  - eexists. split; [reflexivity|].
    unfold get_cached_metadata.
    destruct (PyDict.get _ _); [exact Hok|].
    destruct (truthy _); exact Hok.
Qed.

Lemma init_memory_ok : memory_ok init.
Proof.
  split; simpl.
  - rewrite map_size_empty. lia.
  - intros k Hk. rewrite dom_empty_L in Hk. by apply elem_of_empty in Hk.
Qed.

Lemma run_app ops1 ops2 c : run (ops1 ++ ops2) c = run ops2 (run ops1 c).
Proof. apply foldl_app. Qed.

Lemma run_memory_ok ops c : memory_ok c → memory_ok (run ops c).
Proof.
  revert c. induction ops as [|op ops IH]; intros c Hok; [done|].
  simpl. destruct (exec_memory_ok op c Hok) as (c' & He & Hok').
  apply IH. by rewrite He.
Qed.

(** Every state the server can reach keeps the blob dict within its
    capacity, with each key recorded in the access order. *)
Lemma reachable_memory_ok c : reachable c → memory_ok c.
Proof. intros [ops ->]. apply run_memory_ok, init_memory_ok. Qed.

(** No call raises in a reachable state. *)
Lemma reachable_no_exception op c :
  reachable c → ∃ c', exec op c = (Returns (), c') ∧ reachable c'.
Proof.
  intros Hr. destruct (exec_memory_ok op c (reachable_memory_ok c Hr)) as (c' & He & _).
  exists c'. split; [done|]. destruct Hr as [ops ->].
  exists (ops ++ [op]). rewrite run_app. simpl. by rewrite He.
Qed.

End MemoryTier.

(** ** Claims about the blob tier *)
Section BlobTierClaims.
Import FastCache.

(** The first bytes of a PNG file, used as a sample blob. *)
Definition png_magic : bytes := [Byte.x89; Byte.x50; Byte.x4e; Byte.x47].

(** The same blob stored twice under one key, as happens when a request
    regenerates a screenshot that is still in memory. *)
Definition store_twice : list call :=
  [ StoreScreenshot "abc12345678" 90 "high" png_magic;
    StoreScreenshot "abc12345678" 90 "high" png_magic ].

(** The capacity half of the invariant holds on every run: the blob dict
    never exceeds [max_memory_items], and its keys all occur in the access
    order. *)
Lemma memory_cache_within_capacity ops :
  (size (memory_cache (run ops init)) ≤ 100)%nat
  ∧ ∀ k, k ∈ dom (memory_cache (run ops init)) → k ∈ access_order (run ops init).
Proof. exact (run_memory_ok ops init init_memory_ok). Qed.

(** C1 (fails in the code): storing a blob under a key that is already
    cached appends the key to the access order a second time, so after two
    identical [store_screenshot] calls the dict holds one key and the
    access order holds it twice; the access order is then not a permutation
    of the keys of the dict. *)
Theorem access_order_repeats_restored_key :
  let c := run store_twice init in
  reachable c
  ∧ size (memory_cache c) = 1%nat
  ∧ access_order c = ["abc12345678_90_high"; "abc12345678_90_high"]
  ∧ ¬ access_order_exact c.
Proof.
  intros c. split_and!.
  - by exists store_twice.
  - by vm_compute.
  - by vm_compute.
  - unfold access_order_exact. intros Hperm.
    apply Permutation_length in Hperm. revert Hperm. by vm_compute.
Qed.

(** The access order is not bounded by the capacity either: [n] stores of
    one key leave one entry in the dict and [n] entries in the access
    order. *)
Lemma access_order_grows_without_bound n :
  let c := run (replicate (S n) (StoreScreenshot "abc12345678" 90 "high" png_magic)) init in
  memory_cache c = {[ "abc12345678_90_high" := png_magic ]}
  ∧ access_order c = replicate (S n) "abc12345678_90_high".
Proof.
  cbv zeta. induction n as [|n [Hmc Hao]].
  - split; reflexivity.
  - rewrite replicate_S_end, run_app.
    set (c := run _ init) in *.
    cbn [run foldl exec]. unfold store_screenshot, _store_in_memory.
    change (screenshot_key "abc12345678" 90 "high") with "abc12345678_90_high".
    rewrite Hmc, Hao. cbn [replicate]. rewrite evict_cons.
    rewrite map_size_singleton.
    rewrite bool_decide_eq_false_2 by (unfold max_memory_items; lia).
    cbn [snd with_memory memory_cache access_order].
    split.
    + apply insert_singleton_eq.
    + change ("abc12345678_90_high" :: replicate n "abc12345678_90_high")
        with (replicate (S n) "abc12345678_90_high").
      by rewrite <- replicate_S_end.
Qed.

(** C8: a blob stored with [store_screenshot] is what the next
    [get_screenshot] of the same key returns, whatever the durable tier
    answers or holds: the lookup is served from the memory dict, which the
    store has filled before it returns. *)
Theorem store_then_get_screenshot c gcs_cache video_id timestamp quality image_data :
  reachable c →
  ∃ c1 c2,
    store_screenshot video_id timestamp quality image_data c = (Returns (), c1)
    ∧ get_screenshot gcs_cache video_id timestamp quality c1
      = (Returns (Some image_data), c2).
Proof.
  intros Hr. apply reachable_memory_ok in Hr as [_ Htr].
  unfold store_screenshot.
  destruct (store_in_memory_ok (screenshot_key video_id timestamp quality) image_data c Htr)
    as (c1 & He & [_ Htr1] & Hlk & _).
  exists c1. rewrite He.
  unfold get_screenshot, get_screenshot_memory. rewrite Hlk. simpl.
  assert (screenshot_key video_id timestamp quality ∈ access_order c1) as Hin.
  { apply Htr1, elem_of_dom. eauto. }
  destruct (deque_remove_ok _ _ Hin) as (d' & -> & _).
  eexists. split; reflexivity.
Qed.

Lemma store_then_get_screenshot_witness :
  reachable init
  ∧ ∃ c1 c2,
      store_screenshot "abc12345678" 90 "high" png_magic init = (Returns (), c1)
      ∧ get_screenshot empty_tier "abc12345678" 90 "high" c1
        = (Returns (Some png_magic), c2).
Proof.
  split.
  - by exists [].
  - apply (store_then_get_screenshot init empty_tier "abc12345678" 90 "high" png_magic).
    by exists [].
Defined.

(** C10: when the key is not in memory and the durable tier answers with
    an empty byte string, [get_screenshot] returns [None], counts one miss
    and leaves the memory dict and the access order as they were. *)
Theorem empty_blob_is_a_miss gcs_cache video_id timestamp quality c :
  memory_cache c !! screenshot_key video_id timestamp quality = None →
  cached_screenshot gcs_cache video_id timestamp quality = Some [] →
  ∃ c',
    get_screenshot gcs_cache video_id timestamp quality c = (Returns None, c')
    ∧ misses (cache_stats c') = misses (cache_stats c) + 1
    ∧ hits (cache_stats c') = hits (cache_stats c)
    ∧ memory_hits (cache_stats c') = memory_hits (cache_stats c)
    ∧ gcs_hits (cache_stats c') = gcs_hits (cache_stats c)
    ∧ memory_cache c' = memory_cache c
    ∧ access_order c' = access_order c.
Proof.
  intros Hmiss Hgcs. unfold get_screenshot, get_screenshot_memory.
  rewrite Hmiss, Hgcs. simpl. eexists. split; [reflexivity|]. by split_and!.
Qed.

(** A durable tier that answers every blob lookup with [b'']. *)
Definition empty_blob_tier : DurableTier :=
  {| cached_screenshot := λ _ _ _, Some []; cached_metadata := λ _ _, None |}.

Lemma empty_blob_is_a_miss_witness :
  ∃ c',
    get_screenshot empty_blob_tier "abc12345678" 90 "high" init = (Returns None, c')
    ∧ misses (cache_stats c') = 1
    ∧ memory_cache c' = ∅
    ∧ access_order c' = [].
Proof.
  destruct (empty_blob_is_a_miss empty_blob_tier "abc12345678" 90 "high" init)
    as (c' & He & Hm & _ & _ & _ & Hmc & Hao); [reflexivity | reflexivity |].
  exists c'. split_and!; [exact He | exact Hm | exact Hmc | exact Hao].
Defined.

End BlobTierClaims.

(** ** Facts about insertion-ordered dicts *)
Section PyDictFacts.
Context {V : Type}.
Implicit Types (d : list (string * V)) (k : string) (v : V).

Lemma pydict_get_None_keys k d : PyDict.get k d = None ↔ k ∉ PyDict.keys d.
Proof.
  unfold PyDict.keys. induction d as [|[k' v'] d IH]; simpl.
  - split; [intros _; apply not_elem_of_nil | done].
  - rewrite not_elem_of_cons. destruct (decide (k = k')) as [->|Hne].
    + split; [done | intros [? _]; done].
    + rewrite IH. tauto.
Qed.

Lemma pydict_get_set_eq k v d : PyDict.get k (PyDict.set k v d) = Some v.
Proof.
  induction d as [|[k' v'] d IH]; simpl.
  - by rewrite decide_True.
  - destruct (decide (k = k')) as [->|Hne]; simpl.
    + by rewrite decide_True.
    + by rewrite decide_False.
Qed.

Lemma pydict_get_set_ne k k' v d :
  k ≠ k' → PyDict.get k' (PyDict.set k v d) = PyDict.get k' d.
Proof.
  intros Hne. induction d as [|[k0 v0] d IH]; simpl.
  - by rewrite decide_False.
  - destruct (decide (k = k0)) as [->|Hne0]; simpl.
    + by rewrite !decide_False.
    + destruct (decide (k' = k0)); [done | exact IH].
Qed.

(** A new key is appended at the end. *)
Lemma pydict_set_fresh k v d :
  PyDict.get k d = None → PyDict.set k v d = d ++ [(k, v)].
Proof.
  induction d as [|[k' v'] d IH]; simpl; [done|].
  destruct (decide (k = k')); [done|]. intros Hg. by rewrite IH.
Qed.

Lemma pydict_set_length k v d :
  length (PyDict.set k v d)
  = if PyDict.contains k d then length d else S (length d).
Proof.
  unfold PyDict.contains. induction d as [|[k' v'] d IH]; simpl; [done|].
  destruct (decide (k = k')); simpl; [done|].
  rewrite IH. by destruct (PyDict.get k d).
Qed.

Lemma pydict_del_length k d :
  length (PyDict.del k d)
  = if PyDict.contains k d then pred (length d) else length d.
Proof.
  unfold PyDict.contains. induction d as [|[k' v'] d IH]; simpl; [done|].
  destruct (decide (k = k')); simpl; [done|].
  rewrite IH. destruct (PyDict.get k d) eqn:Hg; simpl; [|done].
  destruct d; [done | simpl; lia].
Qed.

Lemma pydict_keys_set_fresh k v d :
  PyDict.get k d = None → PyDict.keys (PyDict.set k v d) = PyDict.keys d ++ [k].
Proof.
  intros Hg. rewrite pydict_set_fresh by done. unfold PyDict.keys.
  by rewrite fmap_app.
Qed.

Lemma pydict_get_del_ne k k' d :
  k ≠ k' → PyDict.get k' (PyDict.del k d) = PyDict.get k' d.
Proof.
  intros Hne. induction d as [|[k0 v0] d IH]; simpl; [done|].
  destruct (decide (k = k0)) as [->|Hne0]; simpl.
  - by rewrite decide_False.
  - destruct (decide (k' = k0)); [done | exact IH].
Qed.

Lemma pydict_get_del_eq k d :
  NoDup (PyDict.keys d) → PyDict.get k (PyDict.del k d) = None.
Proof.
  unfold PyDict.keys. induction d as [|[k0 v0] d IH]; simpl; [done|].
  intros Hnd. apply NoDup_cons in Hnd as [Hnotin Hnd].
  destruct (decide (k = k0)) as [->|Hne0]; simpl.
  - by apply pydict_get_None_keys.
  - rewrite decide_False by done. by apply IH.
Qed.

Lemma pydict_get_Some_elem k v d : PyDict.get k d = Some v → (k, v) ∈ d.
Proof.
  induction d as [|[k' v'] d IH]; simpl; [done|].
  destruct (decide (k = k')) as [->|Hne].
  - intros [= ->]. apply elem_of_cons. by left.
  - intros Hg. apply elem_of_cons. right. by apply IH.
Qed.

Lemma pydict_elem_get k v d :
  NoDup (PyDict.keys d) → (k, v) ∈ d → PyDict.get k d = Some v.
Proof.
  unfold PyDict.keys. induction d as [|[k' v'] d IH]; simpl.
  - intros _ Hin. by apply elem_of_nil in Hin.
  - intros Hnd Hin. apply NoDup_cons in Hnd as [Hnotin Hnd].
    apply elem_of_cons in Hin as [[= -> ->]|Hin].
    + by rewrite decide_True.
    + rewrite decide_False; [by apply IH|].
      intros ->. apply Hnotin. apply list_elem_of_fmap. by exists (k', v).
Qed.

End PyDictFacts.

(** ** Claims about the metadata tier *)
Section MetadataTierClaims.
Import FastCache.

(** An 11-character video id for each [i < 100]. *)
Definition sample_video_id (i : nat) : string :=
  "video_000" +:+ (if bool_decide (i < 10)%nat then "0" else "") +:+ pretty i.

Definition sample_metadata : Metadata :=
  [ [("quality", JStr "high"); ("filename", JStr "screenshot_high.png");
     ("size_kb", JFloat "12.3"); ("source_height", JInt 720)] ].

(** 51 screenshot requests for 51 different videos, each ending in
    [store_metadata]. *)
Definition fifty_one_store_metadata : list call :=
  (λ i, StoreMetadata (sample_video_id i) 0 sample_metadata) <$> seq 0 51.

(** [store_metadata] has no capacity check: a key that is not cached yet
    makes the dict one entry longer, however long it is. *)
Lemma store_metadata_never_evicts video_id timestamp metadata c :
  PyDict.get (metadata_key video_id timestamp) (metadata_cache c) = None →
  length (metadata_cache (store_metadata video_id timestamp metadata c))
  = S (length (metadata_cache c)).
Proof.
  intros Hg. unfold store_metadata. simpl.
  rewrite pydict_set_length. unfold PyDict.contains. by rewrite Hg.
Qed.

(** The sibling path, [get_cached_metadata], does check: a dict within
    the capacity stays within it. *)
Lemma get_cached_metadata_within_capacity gcs_cache video_id timestamp c :
  (length (metadata_cache c) ≤ max_metadata_items)%nat →
  (length (metadata_cache (get_cached_metadata gcs_cache video_id timestamp c).2)
     ≤ max_metadata_items)%nat.
Proof.
  intros Hlen. unfold get_cached_metadata.
  destruct (PyDict.get _ (metadata_cache c)) eqn:Hg; [done|].
  destruct (truthy _); [|done]. simpl.
  set (md := PyDict.set _ _ _).
  assert (length md = S (length (metadata_cache c))) as Hmd.
  { unfold md. rewrite pydict_set_length. unfold PyDict.contains. by rewrite Hg. }
  case_bool_decide as Hover; [|lia].
  destruct md as [|[k0 v0] md'] eqn:Emd; [simpl in Hmd; lia|].
  simpl. rewrite decide_True by done. simpl in Hmd. lia.
Qed.

(** C3 (fails in the code): [store_metadata] inserts without any eviction,
    so 51 stores under 51 different keys leave 51 entries in the metadata
    dict, one more than the capacity of 50. *)
Theorem store_metadata_exceeds_capacity :
  let c := run fifty_one_store_metadata init in
  reachable c
  ∧ length (metadata_cache c) = 51%nat
  ∧ (max_metadata_items < length (metadata_cache c))%nat
  ∧ NoDup (PyDict.keys (metadata_cache c)).
Proof.
  intros c. split_and!.
  - by exists fifty_one_store_metadata.
  - by vm_compute.
  - apply (bool_decide_unpack _). by vm_compute.
  - apply (bool_decide_unpack _). by vm_compute.
Qed.

End MetadataTierClaims.

(** ** StreamCache (src/app.py) *)

(** The resolved streams of a video: quality key to stream descriptor. *)
Abbreviation Streams := (list (string * list (string * json))).

(** The value kept per video id: [{'streams': ..., 'timestamp': ...}]. *)
Record StreamEntry := {
  streams : Streams;
  timestamp : Z
}.

(** [min(iterable, key=...)]: the first element whose key is smallest;
    [ValueError] on an empty iterable. *)
Fixpoint py_min_from {A : Type} (key : A → Z) (best : A) (l : list A) : A :=
  match l with
  | [] => best
  | x :: l' =>
      if bool_decide (key x < key best)
      then py_min_from key x l' else py_min_from key best l'
  end.

Definition py_min {A : Type} (key : A → Z) (l : list A) : outcome A :=
  match l with
  | [] => Raises ValueError
  | x :: l' => Returns (py_min_from key x l')
  end.

Module StreamCache.

(** [timedelta(minutes=30)] *)
Definition cache_duration : Z := 30 * 60 * 1000000.
Definition max_items : nat := 50.

(** [self.cache[k]['timestamp']] *)
Definition timestamp_of (cache : list (string * StreamEntry)) (k : string) : Z :=
  match PyDict.get k cache with
  | Some e => timestamp e
  | None => 0
  end.

Definition get_streams (video_id : string) (now : Z) (cache : list (string * StreamEntry))
    : option Streams * list (string * StreamEntry) :=
  match PyDict.get video_id cache with
  | Some cached_data =>
      if bool_decide (now - timestamp cached_data < cache_duration)
      then (Some (streams cached_data), cache)
      else (None, PyDict.del video_id cache)
  | None => (None, cache)
  end.

Definition cache_streams (video_id : string) (new_streams : Streams) (now : Z)
    (cache : list (string * StreamEntry))
    : outcome unit * list (string * StreamEntry) :=
  let entry := {| streams := new_streams; timestamp := now |} in
  if bool_decide (max_items ≤ length cache)%nat then
    match py_min (timestamp_of cache) (PyDict.keys cache) with
    | Returns oldest_key =>
        (Returns (), PyDict.set video_id entry (PyDict.del oldest_key cache))
    | Raises e => (Raises e, cache)
    end
  else (Returns (), PyDict.set video_id entry cache).

(** A run of [cache_streams] calls, each with the clock reading of its
    [datetime.now()]; it stops at the first exception. *)
Fixpoint cache_all (inserts : list (string * Streams * Z))
    (cache : list (string * StreamEntry)) : outcome (list (string * StreamEntry)) :=
  match inserts with
  | [] => Returns cache
  | (video_id, new_streams, now) :: rest =>
      match cache_streams video_id new_streams now cache with
      | (Returns _, cache') => cache_all rest cache'
      | (Raises e, _) => Raises e
      end
  end.

Definition entry_of (x : string * Streams * Z) : string * StreamEntry :=
  (x.1.1, {| streams := x.1.2; timestamp := x.2 |}).

End StreamCache.

Section StreamCacheClaims.
Import StreamCache.

Lemma py_min_from_spec {A : Type} (key : A → Z) (l : list A) : ∀ best,
  py_min_from key best l ∈ best :: l
  ∧ ∀ y, y ∈ best :: l → key (py_min_from key best l) ≤ key y.
Proof.
  induction l as [|x l IH]; intros best; simpl.
  - split; [apply elem_of_cons; by left|].
    intros y Hy. apply elem_of_cons in Hy as [->|Hy]; [lia|].
    by apply elem_of_nil in Hy.
  - case_bool_decide as Hlt.
    + destruct (IH x) as [Hin Hmin]. split.
      * apply elem_of_cons. by right.
      * intros y Hy. apply elem_of_cons in Hy as [->|Hy]; [|by apply Hmin].
        etrans; [apply Hmin; apply elem_of_cons; by left | lia].
    + destruct (IH best) as [Hin Hmin]. split.
      * apply elem_of_cons in Hin as [Hin|Hin]; apply elem_of_cons; [by left|].
        right. apply elem_of_cons. by right.
      * intros y Hy. apply elem_of_cons in Hy as [->|Hy].
        { apply Hmin. apply elem_of_cons. by left. }
        apply elem_of_cons in Hy as [->|Hy].
        { etrans; [apply Hmin; apply elem_of_cons; by left | lia]. }
        apply Hmin. apply elem_of_cons. by right.
Qed.

Lemma pydict_get_Some_keys {V : Type} (k : string) (v : V) (d : list (string * V)) :
  PyDict.get k d = Some v → k ∈ PyDict.keys d.
Proof.
  intros Hg. destruct (decide (k ∈ PyDict.keys d)) as [|Hn]; [done|].
  apply pydict_get_None_keys in Hn. congruence.
Qed.

Lemma pydict_keys_get_Some {V : Type} (k : string) (d : list (string * V)) :
  k ∈ PyDict.keys d → ∃ v, PyDict.get k d = Some v.
Proof.
  intros Hk. destruct (PyDict.get k d) as [v|] eqn:Hg; [by exists v|].
  apply pydict_get_None_keys in Hg. done.
Qed.

(** An insertion into a full cache: the evicted key is one of the cache
    and no entry of the cache is older. *)
Lemma cache_streams_at_capacity video_id new_streams now cache :
  (max_items ≤ length cache)%nat →
  ∃ oldest_key oldest,
    PyDict.get oldest_key cache = Some oldest
    ∧ (∀ k e, PyDict.get k cache = Some e → timestamp oldest ≤ timestamp e)
    ∧ cache_streams video_id new_streams now cache
      = (Returns (),
         PyDict.set video_id {| streams := new_streams; timestamp := now |}
           (PyDict.del oldest_key cache)).
Proof.
  intros Hfull. unfold cache_streams.
  rewrite bool_decide_eq_true_2 by done.
  destruct cache as [|[k0 e0] cache'] eqn:Ec.
  { simpl in Hfull. unfold max_items in Hfull. lia. }
  rewrite <- Ec in *.
  assert (PyDict.keys cache = k0 :: PyDict.keys cache') as Hkeys by (by rewrite Ec).
  rewrite Hkeys. cbn [py_min].
  destruct (py_min_from_spec (timestamp_of cache) (PyDict.keys cache') k0) as [Hin Hmin].
  set (oldest_key := py_min_from _ _ _) in *.
  rewrite <- Hkeys in Hin, Hmin.
  destruct (pydict_keys_get_Some _ _ Hin) as [oldest Hold].
  exists oldest_key, oldest. split_and!; [done| |done].
  intros k e Hk. specialize (Hmin k (pydict_get_Some_keys _ _ _ Hk)).
  unfold timestamp_of in Hmin. by rewrite Hold, Hk in Hmin.
Qed.

End StreamCacheClaims.

Section StreamCacheCapacity.
Import StreamCache.

Lemma keys_entry_of (l : list (string * Streams * Z)) :
  PyDict.keys (entry_of <$> l) = l.*1.*1.
Proof.
  unfold PyDict.keys. induction l as [|x l IH]; [done|].
  rewrite !fmap_cons. f_equal. exact IH.
Qed.

(** Below the capacity nothing is evicted: distinct ids are appended in
    the order of their insertion. *)
Lemma cache_all_below_capacity pre : ∀ cache rest,
  NoDup (PyDict.keys cache ++ pre.*1.*1) →
  (length cache + length pre ≤ max_items)%nat →
  cache_all (pre ++ rest) cache = cache_all rest (cache ++ (entry_of <$> pre)).
Proof.
  induction pre as [|[[vid s] t] pre IH]; intros cache rest Hnd Hlen.
  - simpl. by rewrite app_nil_r.
  - simpl in Hlen. cbn [app cache_all]. unfold cache_streams.
    rewrite bool_decide_eq_false_2 by lia.
    assert (PyDict.get vid cache = None) as Hfresh.
    { apply pydict_get_None_keys. intros Hin.
      apply NoDup_app in Hnd as (_ & Hdisj & _).
      apply (Hdisj vid Hin). simpl. apply elem_of_cons. by left. }
    rewrite pydict_set_fresh by done.
    rewrite IH.
    + by rewrite <- app_assoc.
    + unfold PyDict.keys in *. rewrite fmap_app, <- app_assoc. exact Hnd.
    + rewrite length_app. simpl. lia.
Qed.

Lemma entry_of_elem (x : string * Streams * Z) (l : list (string * Streams * Z)) :
  NoDup (l.*1.*1) → x ∈ l →
  PyDict.get x.1.1 (entry_of <$> l) = Some (entry_of x).2.
Proof.
  intros Hnd Hx. apply pydict_elem_get.
  - by rewrite keys_entry_of.
  - apply list_elem_of_fmap. exists x. split; [|done].
    by destruct x as [[??]?].
Qed.

(** 51 distinct ids into an empty cache: 50 entries remain, the missing
    one was among the first fifty and none of those was older. *)
Lemma cache_fifty_one (first_fifty : list (string * Streams * Z))
    (last : string * Streams * Z) :
  length first_fifty = 50%nat →
  NoDup ((first_fifty ++ [last]).*1.*1) →
  ∃ final evicted,
    cache_all (first_fifty ++ [last]) [] = Returns final
    ∧ length final = 50%nat
    ∧ evicted ∈ first_fifty
    ∧ (∀ x, x ∈ first_fifty → evicted.2 ≤ x.2)
    ∧ PyDict.get evicted.1.1 final = None
    ∧ (∀ x, x ∈ first_fifty ++ [last] → x ≠ evicted →
         PyDict.get x.1.1 final = Some (entry_of x).2)
    ∧ (evicted.2 ≤ last.2 → ∀ x, x ∈ first_fifty ++ [last] → evicted.2 ≤ x.2).
Proof.
  intros Hlen Hnd.
  rewrite !fmap_app in Hnd. apply NoDup_app in Hnd as (Hnd & Hdisj & _).
  assert (last.1.1 ∉ first_fifty.*1.*1) as Hlast.
  { intros Hin. apply (Hdisj _ Hin). simpl. apply elem_of_cons. by left. }
  rewrite cache_all_below_capacity; [|done|simpl; unfold max_items; lia].
  simpl. set (cache := entry_of <$> first_fifty).
  assert (NoDup (PyDict.keys cache)) as Hndc by (unfold cache; by rewrite keys_entry_of).
  assert (length cache = 50%nat) as Hlenc by (unfold cache; by rewrite length_fmap).
  destruct last as [[vid s] t]. simpl in Hlast. cbn [cache_all].
  destruct (cache_streams_at_capacity vid s t cache)
    as (oldest_key & oldest & Hold & Hmin & ->); [unfold max_items; lia|].
  apply pydict_get_Some_elem in Hold as Hin.
  apply list_elem_of_fmap in Hin as (evicted & Hev & Hevin).
  assert (oldest_key = evicted.1.1) as Hk by (by inversion Hev).
  assert (timestamp oldest = evicted.2) as Ht by (by inversion Hev).
  assert (vid ≠ oldest_key) as Hne.
  { intros ->. apply Hlast. rewrite Hk.
    apply list_elem_of_fmap. exists evicted.1. split; [done|].
    apply list_elem_of_fmap. by exists evicted. }
  assert (PyDict.get vid cache = None) as Hfresh.
  { apply pydict_get_None_keys. unfold cache. by rewrite keys_entry_of. }
  eexists _, evicted. split; [reflexivity|]. split_and!.
  - rewrite pydict_set_length. unfold PyDict.contains.
    rewrite pydict_get_del_ne by done. rewrite Hfresh. simpl.
    rewrite pydict_del_length. unfold PyDict.contains. rewrite Hold. simpl. lia.
  - done.
  - intros x Hx. rewrite <- Ht.
    apply (Hmin x.1.1 (entry_of x).2). by apply entry_of_elem.
  - rewrite <- Hk. rewrite pydict_get_set_ne by done.
    by apply pydict_get_del_eq.
  - intros x Hx Hxe. apply elem_of_app in Hx as [Hx|Hx].
    + assert (x.1.1 ≠ vid) as Hxv.
      { intros Heq. apply Hlast. rewrite <- Heq.
        apply list_elem_of_fmap. exists x.1. split; [done|].
        apply list_elem_of_fmap. by exists x. }
      assert (x.1.1 ≠ oldest_key) as Hxo.
      { intros Heq. apply Hxe.
        pose proof (entry_of_elem x first_fifty Hnd Hx) as Hgx.
        fold cache in Hgx. rewrite Heq, Hold in Hgx.
        destruct x as [[xv xs] xt], evicted as [[ev es] et].
        simpl in *. inversion Hgx; subst. by inversion Hev. }
      rewrite pydict_get_set_ne by done.
      rewrite pydict_get_del_ne by done.
      by apply entry_of_elem.
    + apply list_elem_of_singleton in Hx as ->. simpl.
      apply pydict_get_set_eq.
  - intros Hclock x Hx. apply elem_of_app in Hx as [Hx|Hx].
    + rewrite <- Ht. apply (Hmin x.1.1 (entry_of x).2). by apply entry_of_elem.
    + by apply list_elem_of_singleton in Hx as ->.
Qed.

(** C7 (amended): an insertion into a cache that holds [max_items] entries
    or more first deletes the key found by the scan for the smallest
    timestamp (no cached entry is older), then writes the new entry with
    the current time; and 51 distinct video ids inserted into an empty cache
    leave exactly 50 entries, the missing one being one of the first fifty,
    with the smallest timestamp among these, the entries the cache held
    when the 51st was inserted.  It has the smallest timestamp of all 51
    when the time of the 51st insertion is not before it, that is, when the
    clock did not step back behind the oldest entry. *)
Theorem stream_cache_capacity :
  (∀ video_id new_streams now cache,
     (max_items ≤ length cache)%nat →
     ∃ oldest_key oldest,
       PyDict.get oldest_key cache = Some oldest
       ∧ (∀ k e, PyDict.get k cache = Some e → timestamp oldest ≤ timestamp e)
       ∧ cache_streams video_id new_streams now cache
         = (Returns (),
            PyDict.set video_id {| streams := new_streams; timestamp := now |}
              (PyDict.del oldest_key cache)))
  ∧ (∀ (first_fifty : list (string * Streams * Z)) (last : string * Streams * Z),
       length first_fifty = 50%nat →
       NoDup ((first_fifty ++ [last]).*1.*1) →
       ∃ final evicted,
         cache_all (first_fifty ++ [last]) [] = Returns final
         ∧ length final = 50%nat
         ∧ evicted ∈ first_fifty
         ∧ (∀ x, x ∈ first_fifty → evicted.2 ≤ x.2)
         ∧ PyDict.get evicted.1.1 final = None
         ∧ (∀ x, x ∈ first_fifty ++ [last] → x ≠ evicted →
              PyDict.get x.1.1 final = Some (entry_of x).2)
         ∧ (evicted.2 ≤ last.2 → ∀ x, x ∈ first_fifty ++ [last] → evicted.2 ≤ x.2)).
Proof.
  split.
  - intros. by apply cache_streams_at_capacity.
  - intros. by apply cache_fifty_one.
Qed.

Definition sample_streams : Streams :=
  [ ("high", [("url", JStr "https://example.invalid/v.mp4"); ("height", JInt 720);
              ("name", JStr "High (720p)"); ("format_id", JStr "22");
              ("filesize", JNull)]) ].

(** Fifty videos resolved one second apart, and a fifty-first. *)
Definition sample_inserts : list (string * Streams * Z) :=
  (λ i : nat, (sample_video_id i, sample_streams, 1000000 * Z.of_nat i)) <$> seq 0 50.

Definition sample_last : string * Streams * Z :=
  (sample_video_id 50, sample_streams, 50000000).

Lemma stream_cache_capacity_witness :
  (∃ oldest_key oldest,
     PyDict.get oldest_key (entry_of <$> sample_inserts) = Some oldest
     ∧ (∀ k e, PyDict.get k (entry_of <$> sample_inserts) = Some e
               → timestamp oldest ≤ timestamp e)
     ∧ cache_streams "video_00050" sample_streams 50000000 (entry_of <$> sample_inserts)
       = (Returns (),
          PyDict.set "video_00050" {| streams := sample_streams; timestamp := 50000000 |}
            (PyDict.del oldest_key (entry_of <$> sample_inserts))))
  ∧ (∃ final evicted,
       cache_all (sample_inserts ++ [sample_last]) [] = Returns final
       ∧ length final = 50%nat
       ∧ evicted ∈ sample_inserts
       ∧ (∀ x, x ∈ sample_inserts → evicted.2 ≤ x.2)
       ∧ PyDict.get evicted.1.1 final = None
       ∧ (∀ x, x ∈ sample_inserts ++ [sample_last] → x ≠ evicted →
            PyDict.get x.1.1 final = Some (entry_of x).2)
       ∧ (evicted.2 ≤ sample_last.2 →
          ∀ x, x ∈ sample_inserts ++ [sample_last] → evicted.2 ≤ x.2)).
Proof.
  split.
  - apply (proj1 stream_cache_capacity "video_00050" sample_streams 50000000
             (entry_of <$> sample_inserts)).
    apply (bool_decide_unpack _). by vm_compute.
  - apply (proj2 stream_cache_capacity sample_inserts sample_last).
    + reflexivity.
    + apply (bool_decide_unpack _). by vm_compute.
Defined.

(** On that run the evicted id is the first one inserted. *)
Example sample_run_evicts_first :
  ∃ final,
    cache_all (sample_inserts ++ [sample_last]) [] = Returns final
    ∧ PyDict.keys final = (sample_video_id <$> seq 1 50).
Proof. eexists. split; by vm_compute. Qed.

(** C7 (fails in the code): the clock steps back before the 51st
    insertion.  The entry with the smallest creation timestamp of all 51 is
    then the one inserted last; it stays in the cache, and the entry that is
    missing is the oldest of the first fifty. *)
Lemma globally_smallest_entry_stays :
  let last : string * Streams * Z := (sample_video_id 50, sample_streams, -1) in
  NoDup ((sample_inserts ++ [last]).*1.*1)
  ∧ Forall (λ x, last.2 < x.2) sample_inserts
  ∧ ∃ final,
      cache_all (sample_inserts ++ [last]) [] = Returns final
      ∧ length final = 50%nat
      ∧ PyDict.get "video_00050" final
        = Some {| streams := sample_streams; timestamp := -1 |}
      ∧ PyDict.get "video_00000" final = None
      ∧ PyDict.keys final = (sample_video_id <$> seq 1 50).
Proof.
  cbv zeta. split_and!.
  - apply (bool_decide_unpack _). by vm_compute.
  - apply (bool_decide_unpack _). by vm_compute.
  - eexists. split_and!; by vm_compute.
Qed.

End StreamCacheCapacity.

(** ** The durable backends

    Both keep an entry for 24 hours.  Stored text is ASCII (the encoder
    escapes everything else), so its UTF-8 encoding is its list of bytes.
    [json.load]/[json.loads] is a parameter [json_loads] of the readers: it
    takes the stored bytes and yields the decoded metadata or raises. *)

(** [timedelta(hours=24)] *)
Definition cache_duration : Z := 24 * 3600 * 1000000.

Definition str_encode (s : string) : bytes := String.list_byte_of_string s.

(** *** LocalCache (src/localcache.py)

    The two cache directories hold regular files only, each with its
    content and modification time, keyed by file name.  The file system is
    taken to work: none of its calls raises, so the [except] branches, which
    log the error and answer [None] or [0], are not entered. *)
Record File := {
  content : bytes;
  mtime : Z
}.

Record LocalCache := {
  screenshots_dir : gmap string File;
  metadata_dir : gmap string File
}.

Module LocalCache.

(** The file name inside [screenshots_dir]. *)
Definition _get_cache_path (video_id : string) (timestamp : Z) (quality : string) : string :=
  video_id +:+ "_" +:+ pretty timestamp +:+ "_" +:+ quality +:+ ".png".

(** The file name inside [metadata_dir]. *)
Definition _get_metadata_path (video_id : string) (timestamp : Z) : string :=
  video_id +:+ "_" +:+ pretty timestamp +:+ ".json".

Definition _is_file_expired (now : Z) (dir : gmap string File) (filepath : string) : bool :=
  match dir !! filepath with
  | None => true
  | Some f =>
      let age := now - mtime f in
      bool_decide (cache_duration ≤ age)
  end.

Definition get_cached_screenshot (now : Z) (video_id : string) (timestamp : Z)
    (quality : string) (lc : LocalCache) : option bytes * LocalCache :=
  let cache_path := _get_cache_path video_id timestamp quality in
  match screenshots_dir lc !! cache_path with
  | None => (None, lc)
  | Some f =>
      if _is_file_expired now (screenshots_dir lc) cache_path
      then (None, {| screenshots_dir := delete cache_path (screenshots_dir lc);
                     metadata_dir := metadata_dir lc |})
      else (Some (content f), lc)
  end.

Definition cache_screenshot (now : Z) (video_id : string) (timestamp : Z)
    (quality : string) (image_data : bytes) (lc : LocalCache) : LocalCache :=
  let cache_path := _get_cache_path video_id timestamp quality in
  {| screenshots_dir :=
       <[cache_path := {| content := image_data; mtime := now |}]> (screenshots_dir lc);
     metadata_dir := metadata_dir lc |}.

Definition get_cached_metadata (json_loads : bytes → outcome Metadata)
    (now : Z) (video_id : string) (timestamp : Z) (lc : LocalCache)
    : option Metadata * LocalCache :=
  let metadata_path := _get_metadata_path video_id timestamp in
  match metadata_dir lc !! metadata_path with
  | None => (None, lc)
  | Some f =>
      if _is_file_expired now (metadata_dir lc) metadata_path
      then (None, {| screenshots_dir := screenshots_dir lc;
                     metadata_dir := delete metadata_path (metadata_dir lc) |})
      else match json_loads (content f) with
           | Returns data => (Some data, lc)
           | Raises _ => (None, lc)
           end
  end.

(** [json.dump(metadata, f, indent=2)] *)
Definition cache_metadata (now : Z) (video_id : string) (timestamp : Z)
    (metadata : Metadata) (lc : LocalCache) : LocalCache :=
  let metadata_path := _get_metadata_path video_id timestamp in
  {| screenshots_dir := screenshots_dir lc;
     metadata_dir :=
       <[metadata_path :=
           {| content := str_encode (Json.dump_indent 2 (metadata_to_json metadata));
              mtime := now |}]> (metadata_dir lc) |}.

(** One of the two loops of [cleanup_expired_cache]: over the listing of
    the directory, a file that is still there and older than the cutoff
    is removed and counted. *)
Definition cleanup_step (cutoff_time : Z) (acc : gmap string File * Z)
    (filename : string) : gmap string File * Z :=
  match acc.1 !! filename with
  | Some f =>
      if bool_decide (mtime f < cutoff_time)
      then (delete filename acc.1, acc.2 + 1)
      else acc
  | None => acc
  end.

Definition cleanup_dir (cutoff_time : Z) (dir : gmap string File) (deleted_count : Z)
    : gmap string File * Z :=
  foldl (cleanup_step cutoff_time) (dir, deleted_count) (map_to_list dir).*1.

Definition cleanup_expired_cache (now : Z) (lc : LocalCache) : Z * LocalCache :=
  let cutoff_time := now - cache_duration in
  let r1 := cleanup_dir cutoff_time (screenshots_dir lc) 0 in
  let r2 := cleanup_dir cutoff_time (metadata_dir lc) r1.2 in
  (r2.2, {| screenshots_dir := r1.1; metadata_dir := r2.1 |}).

End LocalCache.

(** *** GCSCache (src/gcscache.py)

    The bucket maps an object name to the stored bytes and the creation
    time the server keeps for them.  What the client library does during
    one call of the cache is described by a [Network]: which requests
    raise, and whether the properties it loads carry [time_created]. *)
Record Blob := {
  blob_data : bytes;
  time_created : Z
}.

Record Network := {
  exists_raises : bool;
  reload_raises : bool;
  time_created_unset : bool;
  (** the [n]-th download of the call raises *)
  download_raises : nat → bool;
  upload_raises : bool;
  list_raises : bool;
  delete_raises : string → bool
}.

(** A network on which every request succeeds. *)
Definition reliable : Network :=
  {| exists_raises := false; reload_raises := false; time_created_unset := false;
     download_raises := λ _, false; upload_raises := false; list_raises := false;
     delete_raises := λ _, false |}.

Module GCSCache.

Definition _get_cache_key (video_id : string) (timestamp : Z) (quality : string) : string :=
  "screenshots/" +:+ video_id +:+ "_" +:+ pretty timestamp +:+ "_" +:+ quality +:+ ".png".

Definition _get_metadata_key (video_id : string) (timestamp : Z) : string :=
  "metadata/" +:+ video_id +:+ "_" +:+ pretty timestamp +:+ ".json".

(** [blob.exists()] *)
Definition blob_exists (net : Network) (bucket : gmap string Blob) (name : string)
    : outcome bool :=
  if exists_raises net then Raises BackendError
  else Returns (bool_decide (is_Some (bucket !! name))).

(** [blob.reload()] followed by reading [blob.time_created]; a handle
    made by [bucket.blob(name)] has no properties before the reload. *)
Definition blob_reload (net : Network) (bucket : gmap string Blob) (name : string)
    : outcome (option Z) :=
  if reload_raises net then Raises BackendError
  else match bucket !! name with
       | Some b => Returns (if time_created_unset net then None else Some (time_created b))
       | None => Raises BackendError
       end.

(** [blob.download_as_bytes()], the [n]-th download of the call *)
Definition blob_download (net : Network) (bucket : gmap string Blob) (name : string)
    (n : nat) : outcome bytes :=
  if download_raises net n then Raises BackendError
  else match bucket !! name with
       | Some b => Returns (blob_data b)
       | None => Raises BackendError
       end.

(** The handler of the inner [try]: download anyway. *)
Definition fallback_download (net : Network) (bucket : gmap string Blob) (name : string)
    (n : nat) : option bytes :=
  match blob_download net bucket name n with
  | Returns data => Some data
  | Raises _ => None
  end.

Definition get_cached_screenshot (net : Network) (now : Z) (bucket : gmap string Blob)
    (video_id : string) (timestamp : Z) (quality : string) : option bytes :=
  let cache_key := _get_cache_key video_id timestamp quality in
  match blob_exists net bucket cache_key with
  | Raises _ => None
  | Returns false => None
  | Returns true =>
      match blob_reload net bucket cache_key with
      | Raises _ => fallback_download net bucket cache_key 0
      | Returns created =>
          let expired :=
            match created with
            | Some blob_time =>
                let age := now - blob_time in
                bool_decide (cache_duration ≤ age)
            | None => false
            end in
          if expired then None
          else match blob_download net bucket cache_key 0 with
               | Returns data => Some data
               | Raises _ => fallback_download net bucket cache_key 1
               end
      end
  end.

(** [blob.upload_from_string]: the object is replaced and the server
    stamps it with the current time; a failed upload is logged only. *)
Definition upload (net : Network) (now : Z) (name : string) (data : bytes)
    (bucket : gmap string Blob) : gmap string Blob :=
  if upload_raises net then bucket
  else <[name := {| blob_data := data; time_created := now |}]> bucket.

Definition cache_screenshot (net : Network) (now : Z) (video_id : string) (timestamp : Z)
    (quality : string) (image_data : bytes) (bucket : gmap string Blob)
    : gmap string Blob :=
  upload net now (_get_cache_key video_id timestamp quality) image_data bucket.

Definition get_cached_metadata (json_loads : bytes → outcome Metadata)
    (net : Network) (now : Z) (bucket : gmap string Blob)
    (video_id : string) (timestamp : Z) : option Metadata :=
  let metadata_key := _get_metadata_key video_id timestamp in
  match blob_exists net bucket metadata_key with
  | Raises _ => None
  | Returns false => None
  | Returns true =>
      match blob_reload net bucket metadata_key with
      | Raises _ => None
      | Returns created =>
          let expired :=
            match created with
            | Some blob_time =>
                let age := now - blob_time in
                bool_decide (cache_duration ≤ age)
            | None => false
            end in
          if expired then None
          else match blob_download net bucket metadata_key 0 with
               | Raises _ => None
               | Returns text =>
                   match json_loads text with
                   | Returns data => Some data
                   | Raises _ => None
                   end
               end
      end
  end.

(** [json.dumps(metadata)] *)
Definition cache_metadata (net : Network) (now : Z) (video_id : string) (timestamp : Z)
    (metadata : Metadata) (bucket : gmap string Blob) : gmap string Blob :=
  upload net now (_get_metadata_key video_id timestamp)
    (str_encode (Json.dumps (metadata_to_json metadata))) bucket.

(** [bucket.list_blobs(prefix=...)]: the names under the prefix, with the
    creation time the listing reports for each. *)
Definition list_blobs (net : Network) (bucket : gmap string Blob) (prefix : string)
    : list (string * option Z) :=
  (λ nb : string * Blob,
     (nb.1, if time_created_unset net then None else Some (time_created nb.2)))
    <$> filter (λ nb : string * Blob, String.prefix prefix nb.1 = true) (map_to_list bucket).

(** One of the two loops of [cleanup_expired_cache]; [blob.delete()] may
    raise, which ends the loop with what has been deleted so far. *)
Fixpoint cleanup_blobs (net : Network) (cutoff_time : Z)
    (blobs : list (string * option Z)) (bucket : gmap string Blob) (deleted_count : Z)
    : outcome Z * gmap string Blob :=
  match blobs with
  | [] => (Returns deleted_count, bucket)
  | (name, created) :: rest =>
      match created with
      | Some blob_time =>
          if bool_decide (blob_time < cutoff_time) then
            if delete_raises net name then (Raises BackendError, bucket)
            else cleanup_blobs net cutoff_time rest (delete name bucket) (deleted_count + 1)
          else cleanup_blobs net cutoff_time rest bucket deleted_count
      | None => cleanup_blobs net cutoff_time rest bucket deleted_count
      end
  end.

Definition cleanup_expired_cache (net : Network) (now : Z) (bucket : gmap string Blob)
    : Z * gmap string Blob :=
  let cutoff_time := now - cache_duration in
  if list_raises net then (0, bucket)
  else
    match cleanup_blobs net cutoff_time (list_blobs net bucket "screenshots/") bucket 0 with
    | (Raises _, bucket1) => (0, bucket1)
    | (Returns n1, bucket1) =>
        match cleanup_blobs net cutoff_time (list_blobs net bucket1 "metadata/") bucket1 n1 with
        | (Raises _, bucket2) => (0, bucket2)
        | (Returns n2, bucket2) => (n2, bucket2)
        end
    end.

(** The backend as [FastCache] calls it at one instant. *)
Definition tier (json_loads : bytes → outcome Metadata) (net : Network) (now : Z)
    (bucket : gmap string Blob) : DurableTier :=
  {| cached_screenshot := get_cached_screenshot net now bucket;
     cached_metadata := get_cached_metadata json_loads net now bucket |}.

End GCSCache.

(** ** Reads of the durable tier and the 24-hour limit *)

(** No entry, or an entry as old as the limit or older. *)
Definition absent_or_expired (now : Z) (created : option Z) : Prop :=
  match created with
  | None => True
  | Some t => cache_duration ≤ now - t
  end.

(** An entry younger than the limit. *)
Definition fresh (now : Z) (created : Z) : Prop :=
  now - created < cache_duration.

Section DurableReads.

Variable json_loads : bytes → outcome Metadata.

Lemma local_screenshot_absent_or_expired now v t q lc :
  absent_or_expired now
    (mtime <$> screenshots_dir lc !! LocalCache._get_cache_path v t q) →
  (LocalCache.get_cached_screenshot now v t q lc).1 = None.
Proof.
  unfold LocalCache.get_cached_screenshot, LocalCache._is_file_expired.
  destruct (screenshots_dir lc !! _) as [f|]; simpl; [|done].
  intros Hage. by rewrite bool_decide_eq_true_2.
Qed.

Lemma local_metadata_absent_or_expired now v t lc :
  absent_or_expired now
    (mtime <$> metadata_dir lc !! LocalCache._get_metadata_path v t) →
  (LocalCache.get_cached_metadata json_loads now v t lc).1 = None.
Proof.
  unfold LocalCache.get_cached_metadata, LocalCache._is_file_expired.
  destruct (metadata_dir lc !! _) as [f|]; simpl; [|done].
  intros Hage. by rewrite bool_decide_eq_true_2.
Qed.

Lemma gcs_screenshot_absent net now bucket v t q :
  bucket !! GCSCache._get_cache_key v t q = None →
  GCSCache.get_cached_screenshot net now bucket v t q = None.
Proof.
  intros Hnone. unfold GCSCache.get_cached_screenshot, GCSCache.blob_exists.
  destruct (exists_raises net); [done|].
  rewrite Hnone. rewrite bool_decide_eq_false_2; [done|].
  by intros [? ?].
Qed.

Lemma gcs_screenshot_expired net now bucket v t q b :
  bucket !! GCSCache._get_cache_key v t q = Some b →
  cache_duration ≤ now - time_created b →
  reload_raises net = false →
  time_created_unset net = false →
  GCSCache.get_cached_screenshot net now bucket v t q = None.
Proof.
  intros Hb Hage Hreload Hset.
  unfold GCSCache.get_cached_screenshot, GCSCache.blob_exists, GCSCache.blob_reload.
  destruct (exists_raises net); [done|].
  rewrite Hb, Hreload, Hset. rewrite bool_decide_eq_true_2 by eauto.
  by rewrite bool_decide_eq_true_2.
Qed.

Lemma gcs_metadata_absent net now bucket v t :
  bucket !! GCSCache._get_metadata_key v t = None →
  GCSCache.get_cached_metadata json_loads net now bucket v t = None.
Proof.
  intros Hnone. unfold GCSCache.get_cached_metadata, GCSCache.blob_exists.
  destruct (exists_raises net); [done|].
  rewrite Hnone. rewrite bool_decide_eq_false_2; [done|].
  by intros [? ?].
Qed.

Lemma gcs_metadata_expired net now bucket v t b :
  bucket !! GCSCache._get_metadata_key v t = Some b →
  cache_duration ≤ now - time_created b →
  time_created_unset net = false →
  GCSCache.get_cached_metadata json_loads net now bucket v t = None.
Proof.
  intros Hb Hage Hset.
  unfold GCSCache.get_cached_metadata, GCSCache.blob_exists, GCSCache.blob_reload.
  destruct (exists_raises net); [done|].
  rewrite Hb, Hset. rewrite bool_decide_eq_true_2 by eauto.
  destruct (reload_raises net); [done|].
  by rewrite bool_decide_eq_true_2.
Qed.

(** What a store writes is read back while it is younger than the limit. *)
Lemma local_screenshot_restore now now' v t q data lc :
  fresh now' now →
  (LocalCache.get_cached_screenshot now' v t q
     (LocalCache.cache_screenshot now v t q data lc)).1 = Some data.
Proof.
  intros Hfresh. unfold fresh in Hfresh.
  unfold LocalCache.get_cached_screenshot, LocalCache.cache_screenshot,
    LocalCache._is_file_expired.
  simpl. rewrite lookup_insert_eq. simpl.
  by rewrite bool_decide_eq_false_2 by lia.
Qed.

Lemma local_metadata_restore now now' v t metadata lc :
  fresh now' now →
  (LocalCache.get_cached_metadata json_loads now' v t
     (LocalCache.cache_metadata now v t metadata lc)).1
  = match json_loads (str_encode (Json.dump_indent 2 (metadata_to_json metadata))) with
    | Returns data => Some data
    | Raises _ => None
    end.
Proof.
  intros Hfresh. unfold fresh in Hfresh.
  unfold LocalCache.get_cached_metadata, LocalCache.cache_metadata,
    LocalCache._is_file_expired.
  simpl. rewrite lookup_insert_eq. simpl.
  rewrite bool_decide_eq_false_2 by lia. by destruct (json_loads _).
Qed.

Lemma gcs_screenshot_restore now now' v t q data bucket :
  fresh now' now →
  GCSCache.get_cached_screenshot reliable now'
    (GCSCache.cache_screenshot reliable now v t q data bucket) v t q = Some data.
Proof.
  intros Hfresh. unfold fresh in Hfresh.
  unfold GCSCache.get_cached_screenshot, GCSCache.cache_screenshot, GCSCache.upload,
    GCSCache.blob_exists, GCSCache.blob_reload, GCSCache.blob_download.
  simpl. rewrite lookup_insert_eq. simpl.
  by rewrite bool_decide_eq_false_2 by lia.
Qed.

Lemma gcs_metadata_restore now now' v t metadata bucket :
  fresh now' now →
  GCSCache.get_cached_metadata json_loads reliable now'
    (GCSCache.cache_metadata reliable now v t metadata bucket) v t
  = match json_loads (str_encode (Json.dumps (metadata_to_json metadata))) with
    | Returns data => Some data
    | Raises _ => None
    end.
Proof.
  intros Hfresh. unfold fresh in Hfresh.
  unfold GCSCache.get_cached_metadata, GCSCache.cache_metadata, GCSCache.upload,
    GCSCache.blob_exists, GCSCache.blob_reload, GCSCache.blob_download.
  simpl. rewrite lookup_insert_eq. simpl.
  by rewrite bool_decide_eq_false_2 by lia.
Qed.

End DurableReads.

(** ** A decoder for stored metadata

    The readers take the decoder as a parameter.  [JsonRead.loads] is a
    decoder for the texts of [Json.iterencode], with or without indentation;
    the examples and the instances of the theorems about metadata use it. *)
Module JsonRead.

Definition is_ws (c : ascii) : bool :=
  let n := nat_of_ascii c in
  bool_decide (n = 32 ∨ n = 10 ∨ n = 13 ∨ n = 9)%nat.

Fixpoint skip_ws (s : string) : string :=
  match s with
  | String c s' => if is_ws c then skip_ws s' else s
  | EmptyString => s
  end.

Definition hex_value (c : ascii) : option nat :=
  let n := nat_of_ascii c in
  if bool_decide (48 ≤ n ≤ 57)%nat then Some (n - 48)%nat
  else if bool_decide (97 ≤ n ≤ 102)%nat then Some (n - 87)%nat
  else if bool_decide (65 ≤ n ≤ 70)%nat then Some (n - 55)%nat
  else None.

(** The body of a string literal, after its opening quote. *)
Fixpoint scan_string (s : string) : option (string * string) :=
  let cons (c : ascii) (r : option (string * string)) :=
    match r with
    | Some (body, rest) => Some (String c body, rest)
    | None => None
    end in
  match s with
  | EmptyString => None
  | String c s' =>
      if Ascii.eqb c Json.quote then Some (EmptyString, s')
      else if Ascii.eqb c "\" then
        match s' with
        | String "n" s'' => cons "010"%char (scan_string s'')
        | String "r" s'' => cons "013"%char (scan_string s'')
        | String "t" s'' => cons "009"%char (scan_string s'')
        | String "b" s'' => cons "008"%char (scan_string s'')
        | String "f" s'' => cons "012"%char (scan_string s'')
        | String "/" s'' => cons "/"%char (scan_string s'')
        | String "\" s'' => cons "\"%char (scan_string s'')
        | String "u" (String h1 (String h2 (String h3 (String h4 s'')))) =>
            match hex_value h1, hex_value h2, hex_value h3, hex_value h4 with
            | Some 0%nat, Some 0%nat, Some a, Some b =>
                cons (ascii_of_nat (16 * a + b)) (scan_string s'')
            | _, _, _, _ => None
            end
        | String e s'' =>
            if Ascii.eqb e Json.quote then cons Json.quote (scan_string s'') else None
        | EmptyString => None
        end
      else cons c (scan_string s')
  end.

Definition is_digit (c : ascii) : bool :=
  bool_decide (48 ≤ nat_of_ascii c ≤ 57)%nat.

Definition is_number_char (c : ascii) : bool :=
  is_digit c
  || Ascii.eqb c "-" || Ascii.eqb c "+" || Ascii.eqb c "." || Ascii.eqb c "e"
  || Ascii.eqb c "E".

Fixpoint span_number (s : string) : string * string :=
  match s with
  | String c s' =>
      if is_number_char c
      then let r := span_number s' in (String c r.1, r.2)
      else (EmptyString, s)
  | EmptyString => (EmptyString, s)
  end.

Fixpoint digits_value (acc : Z) (s : string) : option Z :=
  match s with
  | EmptyString => Some acc
  | String c s' =>
      if is_digit c
      then digits_value (10 * acc + Z.of_nat (nat_of_ascii c - 48)) s'
      else None
  end.

Definition number (text : string) : option json :=
  match text with
  | EmptyString => None
  | String "-" (String c ds) =>
      match digits_value 0 (String c ds) with
      | Some n => Some (JInt (- n))
      | None => Some (JFloat text)
      end
  | _ =>
      match digits_value 0 text with
      | Some n => Some (JInt n)
      | None => Some (JFloat text)
      end
  end.

Fixpoint value (fuel : nat) (s : string) : option (json * string) :=
  match fuel with
  | O => None
  | S fuel' =>
      let items :=
        fix items (n : nat) (s : string) : option (list json * string) :=
          match n with
          | O => None
          | S n' =>
              match value fuel' s with
              | Some (x, rest) =>
                  match skip_ws rest with
                  | String "," rest' =>
                      match items n' rest' with
                      | Some (xs, r) => Some (x :: xs, r)
                      | None => None
                      end
                  | String "]" rest' => Some ([x], rest')
                  | _ => None
                  end
              | None => None
              end
          end in
      let members :=
        fix members (n : nat) (s : string) : option (list (string * json) * string) :=
          match n with
          | O => None
          | S n' =>
              match skip_ws s with
              | String q s1 =>
                  if Ascii.eqb q Json.quote then
                    match scan_string s1 with
                    | Some (k, s2) =>
                        match skip_ws s2 with
                        | String ":" s3 =>
                            match value fuel' s3 with
                            | Some (v, rest) =>
                                match skip_ws rest with
                                | String "," rest' =>
                                    match members n' rest' with
                                    | Some (kvs, r) => Some ((k, v) :: kvs, r)
                                    | None => None
                                    end
                                | String "}" rest' => Some ([(k, v)], rest')
                                | _ => None
                                end
                            | None => None
                            end
                        | _ => None
                        end
                    | None => None
                    end
                  else None
              | EmptyString => None
              end
          end in
      match skip_ws s with
      | String "n" (String "u" (String "l" (String "l" rest))) => Some (JNull, rest)
      | String "t" (String "r" (String "u" (String "e" rest))) => Some (JBool true, rest)
      | String "f" (String "a" (String "l" (String "s" (String "e" rest)))) =>
          Some (JBool false, rest)
      | String "N" (String "a" (String "N" rest)) => Some (JFloat "NaN", rest)
      | String "I" (String "n" (String "f" (String "i" (String "n"
          (String "i" (String "t" (String "y" rest))))))) => Some (JFloat "Infinity", rest)
      | String "-" (String "I" (String "n" (String "f" (String "i" (String "n"
          (String "i" (String "t" (String "y" rest)))))))) => Some (JFloat "-Infinity", rest)
      | String "[" rest =>
          match skip_ws rest with
          | String "]" rest' => Some (JList [], rest')
          | _ =>
              match items (String.length rest) rest with
              | Some (xs, r) => Some (JList xs, r)
              | None => None
              end
          end
      | String "{" rest =>
          match skip_ws rest with
          | String "}" rest' => Some (JDict [], rest')
          | _ =>
              match members (String.length rest) rest with
              | Some (kvs, r) =>
                  Some (JDict (foldl (λ d kv, PyDict.set kv.1 kv.2 d) [] kvs), r)
              | None => None
              end
          end
      | String c rest =>
          if Ascii.eqb c Json.quote then
            match scan_string rest with
            | Some (str, r) => Some (JStr str, r)
            | None => None
            end
          else
            let sp := span_number (String c rest) in
            match number sp.1 with
            | Some v => Some (v, sp.2)
            | None => None
            end
      | EmptyString => None
      end
  end.

(** The shape the readers declare: a list of dicts. *)
Fixpoint descriptors (l : list json) : option Metadata :=
  match l with
  | [] => Some []
  | JDict d :: l' =>
      match descriptors l' with
      | Some ds => Some (d :: ds)
      | None => None
      end
  | _ :: _ => None
  end.

Definition loads (stored : bytes) : outcome Metadata :=
  let s := String.string_of_list_byte stored in
  match value (S (String.length s)) s with
  | Some (JList l, rest) =>
      match skip_ws rest, descriptors l with
      | EmptyString, Some metadata => Returns metadata
      | _, _ => Raises ValueError
      end
  | _ => Raises ValueError
  end.

End JsonRead.

(** Both stored forms of the sample metadata decode to it. *)
Example loads_dumps_sample :
  JsonRead.loads (str_encode (Json.dumps (metadata_to_json sample_metadata)))
  = Returns sample_metadata
  ∧ JsonRead.loads (str_encode (Json.dump_indent 2 (metadata_to_json sample_metadata)))
    = Returns sample_metadata.
Proof. split; by vm_compute. Qed.

(** ** What the two backends store *)

Definition local_stored_screenshot (lc : LocalCache) (v : string) (t : Z) (q : string)
    : option bytes :=
  content <$> screenshots_dir lc !! LocalCache._get_cache_path v t q.

Definition local_stored_metadata (lc : LocalCache) (v : string) (t : Z) : option bytes :=
  content <$> metadata_dir lc !! LocalCache._get_metadata_path v t.

Definition gcs_stored_screenshot (bucket : gmap string Blob) (v : string) (t : Z) (q : string)
    : option bytes :=
  blob_data <$> bucket !! GCSCache._get_cache_key v t q.

Definition gcs_stored_metadata (bucket : gmap string Blob) (v : string) (t : Z)
    : option bytes :=
  blob_data <$> bucket !! GCSCache._get_metadata_key v t.

Definition empty_local : LocalCache := {| screenshots_dir := ∅; metadata_dir := ∅ |}.

Section StoredContent.

(** The object name of the cloud backend is the file name of the
    filesystem backend under the directory's prefix. *)
Lemma gcs_names_match_local v t q :
  GCSCache._get_cache_key v t q = "screenshots/" +:+ LocalCache._get_cache_path v t q
  ∧ GCSCache._get_metadata_key v t = "metadata/" +:+ LocalCache._get_metadata_path v t.
Proof. split; reflexivity. Qed.

(** The indented text of a non-empty list opens with a line break, the
    compact text with the first descriptor. *)
Lemma dumps_differ_nonempty (d : list (string * json)) (ds : Metadata) :
  str_encode (Json.dump_indent 2 (metadata_to_json (d :: ds)))
  ≠ str_encode (Json.dumps (metadata_to_json (d :: ds))).
Proof.
  unfold str_encode, Json.dump_indent, Json.dumps, metadata_to_json.
  rewrite fmap_cons. destruct d as [|[k v] kvs].
  - cbn [Json.iterencode Json.newline_indent String.append String.list_byte_of_string].
    intros [=].
  - cbn [Json.iterencode Json.newline_indent String.append String.list_byte_of_string].
    intros [=].
Qed.

(** C2 (fails in the code): for the sample metadata the filesystem backend
    stores the indented text and the cloud backend the compact text, and
    the two byte sequences differ. *)
Lemma metadata_bytes_differ :
  local_stored_metadata
    (LocalCache.cache_metadata 0 "abc12345678" 90 sample_metadata empty_local)
    "abc12345678" 90
  ≠ gcs_stored_metadata
      (GCSCache.cache_metadata reliable 0 "abc12345678" 90 sample_metadata ∅)
      "abc12345678" 90.
Proof. by vm_compute. Qed.

(** C2 (amended): both backends store the bytes of a blob as they are
    given.  For metadata the filesystem backend stores the text of
    [json.dump] with [indent=2] and the cloud backend the compact text of
    [json.dumps]; the two byte sequences are equal exactly when the list of
    records is empty. *)
Theorem backends_store_same_blob_bytes
    (now now' : Z) (v : string) (t : Z) (q : string) (image_data : bytes)
    (metadata : Metadata) (lc : LocalCache) (bucket : gmap string Blob) :
  local_stored_screenshot (LocalCache.cache_screenshot now v t q image_data lc) v t q
    = Some image_data
  ∧ gcs_stored_screenshot
      (GCSCache.cache_screenshot reliable now' v t q image_data bucket) v t q
    = Some image_data
  ∧ local_stored_metadata (LocalCache.cache_metadata now v t metadata lc) v t
    = Some (str_encode (Json.dump_indent 2 (metadata_to_json metadata)))
  ∧ gcs_stored_metadata (GCSCache.cache_metadata reliable now' v t metadata bucket) v t
    = Some (str_encode (Json.dumps (metadata_to_json metadata)))
  ∧ (local_stored_metadata (LocalCache.cache_metadata now v t metadata lc) v t
     = gcs_stored_metadata (GCSCache.cache_metadata reliable now' v t metadata bucket) v t
     ↔ metadata = []).
Proof.
  assert (local_stored_metadata (LocalCache.cache_metadata now v t metadata lc) v t
          = Some (str_encode (Json.dump_indent 2 (metadata_to_json metadata)))) as Hl.
  { unfold local_stored_metadata, LocalCache.cache_metadata. simpl.
    by rewrite lookup_insert_eq. }
  assert (gcs_stored_metadata (GCSCache.cache_metadata reliable now' v t metadata bucket) v t
          = Some (str_encode (Json.dumps (metadata_to_json metadata)))) as Hg.
  { unfold gcs_stored_metadata, GCSCache.cache_metadata, GCSCache.upload. simpl.
    by rewrite lookup_insert_eq. }
  split_and!; [| |exact Hl|exact Hg|].
  - unfold local_stored_screenshot, LocalCache.cache_screenshot. simpl.
    by rewrite lookup_insert_eq.
  - unfold gcs_stored_screenshot, GCSCache.cache_screenshot, GCSCache.upload. simpl.
    by rewrite lookup_insert_eq.
  - rewrite Hl, Hg. split.
    + intros [= Heq]. destruct metadata as [|d ds]; [done|].
      by apply dumps_differ_nonempty in Heq.
    + by intros ->.
Qed.

End StoredContent.

(** ** Expiry on read *)

(** A network on which reading the properties of an object fails. *)
Definition no_metadata : Network :=
  {| exists_raises := false; reload_raises := true; time_created_unset := false;
     download_raises := λ _, false; upload_raises := false; list_raises := false;
     delete_raises := λ _, false |}.

(** A network whose answers carry no creation time. *)
Definition no_timestamp : Network :=
  {| exists_raises := false; reload_raises := false; time_created_unset := true;
     download_raises := λ _, false; upload_raises := false; list_raises := false;
     delete_raises := λ _, false |}.

(** A bucket holding one screenshot and its metadata, written at time 0. *)
Definition day_old_bucket : gmap string Blob :=
  <[ "screenshots/abc12345678_90_high.png" := {| blob_data := png_magic; time_created := 0 |} ]>
  (<[ "metadata/abc12345678_90.json" :=
        {| blob_data := str_encode (Json.dumps (metadata_to_json sample_metadata));
           time_created := 0 |} ]> ∅).

(** The same entries on the filesystem backend. *)
Definition day_old_local : LocalCache :=
  {| screenshots_dir :=
       {[ "abc12345678_90_high.png" := {| content := png_magic; mtime := 0 |} ]};
     metadata_dir :=
       {[ "abc12345678_90.json" :=
            {| content := str_encode (Json.dump_indent 2 (metadata_to_json sample_metadata));
               mtime := 0 |} ]} |}.

Section ExpiryOnRead.

(** C9: when the blob exists and its creation time cannot be had, because
    the reload raises or because the reloaded properties carry none, the
    cloud backend returns the downloaded bytes at every instant: no age is
    compared, so a blob past the 24 hours is a hit. *)
Theorem gcs_hit_without_creation_time
    (net : Network) (now : Z) (bucket : gmap string Blob)
    (v : string) (t : Z) (q : string) (b : Blob) :
  bucket !! GCSCache._get_cache_key v t q = Some b →
  exists_raises net = false →
  reload_raises net = true ∨ time_created_unset net = true →
  download_raises net 0 = false →
  GCSCache.get_cached_screenshot net now bucket v t q = Some (blob_data b).
Proof.
  intros Hb Hex Hmeta Hdl.
  unfold GCSCache.get_cached_screenshot, GCSCache.blob_exists, GCSCache.blob_reload,
    GCSCache.fallback_download, GCSCache.blob_download.
  rewrite Hex, Hb, Hdl. rewrite bool_decide_eq_true_2 by eauto.
  destruct Hmeta as [-> | Hunset]; [done|].
  destruct (reload_raises net); [done|]. by rewrite Hunset.
Qed.

Lemma gcs_hit_without_creation_time_witness :
  cache_duration ≤ (cache_duration + 3600000000) - 0
  ∧ GCSCache.get_cached_screenshot no_metadata (cache_duration + 3600000000)
      day_old_bucket "abc12345678" 90 "high" = Some png_magic
  ∧ GCSCache.get_cached_screenshot no_timestamp (cache_duration + 3600000000)
      day_old_bucket "abc12345678" 90 "high" = Some png_magic.
Proof.
  split; [lia|]. split.
  - apply (gcs_hit_without_creation_time no_metadata (cache_duration + 3600000000)
             day_old_bucket "abc12345678" 90 "high"
             {| blob_data := png_magic; time_created := 0 |});
      [reflexivity | reflexivity | left; reflexivity | reflexivity].
  - apply (gcs_hit_without_creation_time no_timestamp (cache_duration + 3600000000)
             day_old_bucket "abc12345678" 90 "high"
             {| blob_data := png_magic; time_created := 0 |});
      [reflexivity | reflexivity | right; reflexivity | reflexivity].
Defined.

(** C5 (fails in the code): a blob created 24 hours and one second ago is
    returned by the cloud backend when the reload of its properties
    raises. *)
Lemma expired_blob_returned :
  let now := cache_duration + 1000000 in
  day_old_bucket !! GCSCache._get_cache_key "abc12345678" 90 "high"
    = Some {| blob_data := png_magic; time_created := 0 |}
  ∧ 0 = now - cache_duration - 1000000
  ∧ cache_duration ≤ now - 0
  ∧ GCSCache.get_cached_screenshot no_metadata now day_old_bucket "abc12345678" 90 "high"
    = Some png_magic
  ∧ GCSCache.get_cached_screenshot no_metadata now day_old_bucket "abc12345678" 90 "high"
    ≠ None.
Proof. cbv zeta. split_and!; by vm_compute. Qed.

(** C5 (amended): a read of the durable tier answers [None] when the entry
    does not exist, and when it exists with an age of 24 hours or more and
    the backend has its creation time: always on the filesystem backend;
    on the cloud backend for a blob when the reload of the properties
    succeeds and they carry [time_created], for metadata when they carry
    [time_created].  An entry stored again is read back, on a working
    backend, as long as it is younger than 24 hours: a blob as the bytes
    stored, metadata as what the decoder makes of the text stored. *)
Theorem durable_read_absent_or_expired (json_loads : bytes → outcome Metadata) :
  (∀ now v t q lc,
     absent_or_expired now
       (mtime <$> screenshots_dir lc !! LocalCache._get_cache_path v t q) →
     (LocalCache.get_cached_screenshot now v t q lc).1 = None)
  ∧ (∀ now v t lc,
       absent_or_expired now
         (mtime <$> metadata_dir lc !! LocalCache._get_metadata_path v t) →
       (LocalCache.get_cached_metadata json_loads now v t lc).1 = None)
  ∧ (∀ net now bucket v t q,
       absent_or_expired now
         (time_created <$> bucket !! GCSCache._get_cache_key v t q) →
       reload_raises net = false →
       time_created_unset net = false →
       GCSCache.get_cached_screenshot net now bucket v t q = None)
  ∧ (∀ net now bucket v t,
       absent_or_expired now
         (time_created <$> bucket !! GCSCache._get_metadata_key v t) →
       time_created_unset net = false →
       GCSCache.get_cached_metadata json_loads net now bucket v t = None)
  ∧ (∀ now now' v t q data lc,
       fresh now' now →
       (LocalCache.get_cached_screenshot now' v t q
          (LocalCache.cache_screenshot now v t q data lc)).1 = Some data)
  ∧ (∀ now now' v t q data bucket,
       fresh now' now →
       GCSCache.get_cached_screenshot reliable now'
         (GCSCache.cache_screenshot reliable now v t q data bucket) v t q = Some data)
  ∧ (∀ now now' v t metadata lc,
       fresh now' now →
       json_loads (str_encode (Json.dump_indent 2 (metadata_to_json metadata)))
         = Returns metadata →
       (LocalCache.get_cached_metadata json_loads now' v t
          (LocalCache.cache_metadata now v t metadata lc)).1 = Some metadata)
  ∧ (∀ now now' v t metadata bucket,
       fresh now' now →
       json_loads (str_encode (Json.dumps (metadata_to_json metadata)))
         = Returns metadata →
       GCSCache.get_cached_metadata json_loads reliable now'
         (GCSCache.cache_metadata reliable now v t metadata bucket) v t = Some metadata).
Proof.
  split_and!.
  - intros. by apply local_screenshot_absent_or_expired.
  - intros. by apply local_metadata_absent_or_expired.
  - intros net now bucket v t q Hage Hreload Hset.
    destruct (bucket !! GCSCache._get_cache_key v t q) as [b|] eqn:Hb.
    + by apply (gcs_screenshot_expired net now bucket v t q b).
    + by apply gcs_screenshot_absent.
  - intros net now bucket v t Hage Hset.
    destruct (bucket !! GCSCache._get_metadata_key v t) as [b|] eqn:Hb.
    + by apply (gcs_metadata_expired json_loads net now bucket v t b).
    + by apply gcs_metadata_absent.
  - intros. by apply local_screenshot_restore.
  - intros. by apply gcs_screenshot_restore.
  - intros now now' v t metadata lc Hfresh Hloads.
    rewrite local_metadata_restore by done. by rewrite Hloads.
  - intros now now' v t metadata bucket Hfresh Hloads.
    rewrite gcs_metadata_restore by done. by rewrite Hloads.
Qed.

(** The instance of the scenario: entries written at time 0 and read one
    second after their 24 hours are reported absent by both backends, and
    stored again at that instant they are read back. *)
Lemma durable_read_absent_or_expired_witness :
  let now := cache_duration + 1000000 in
  (LocalCache.get_cached_screenshot now "abc12345678" 90 "high" day_old_local).1 = None
  ∧ (LocalCache.get_cached_metadata JsonRead.loads now "abc12345678" 90 day_old_local).1
    = None
  ∧ GCSCache.get_cached_screenshot reliable now day_old_bucket "abc12345678" 90 "high"
    = None
  ∧ GCSCache.get_cached_metadata JsonRead.loads reliable now day_old_bucket
      "abc12345678" 90 = None
  ∧ (LocalCache.get_cached_screenshot now "abc12345678" 90 "high"
       (LocalCache.cache_screenshot now "abc12345678" 90 "high" png_magic day_old_local)).1
    = Some png_magic
  ∧ GCSCache.get_cached_screenshot reliable now
      (GCSCache.cache_screenshot reliable now "abc12345678" 90 "high" png_magic
         day_old_bucket) "abc12345678" 90 "high"
    = Some png_magic
  ∧ (LocalCache.get_cached_metadata JsonRead.loads now "abc12345678" 90
       (LocalCache.cache_metadata now "abc12345678" 90 sample_metadata day_old_local)).1
    = Some sample_metadata
  ∧ GCSCache.get_cached_metadata JsonRead.loads reliable now
      (GCSCache.cache_metadata reliable now "abc12345678" 90 sample_metadata
         day_old_bucket) "abc12345678" 90
    = Some sample_metadata.
Proof.
  cbv zeta.
  destruct (durable_read_absent_or_expired JsonRead.loads)
    as (H1 & H2 & H3 & H4 & H5 & H6 & H7 & H8).
  split_and!.
  - apply H1. by vm_compute.
  - apply H2. by vm_compute.
  - apply H3; [by vm_compute | reflexivity | reflexivity].
  - apply H4; [by vm_compute | reflexivity].
  - apply H5. by vm_compute.
  - apply H6. by vm_compute.
  - apply H7; by vm_compute.
  - apply H8; by vm_compute.
Defined.

End ExpiryOnRead.

(** ** Purging expired entries *)
Section Cleanup.

Variable cutoff_time : Z.

(** What the purge does to one file: gone when its modification time is
    before the cutoff, kept otherwise. *)
Definition survives (f : File) : option File :=
  if bool_decide (mtime f < cutoff_time) then None else Some f.

Lemma survives_idemp (o : option File) : (o ≫= survives) ≫= survives = o ≫= survives.
Proof.
  destruct o as [f|]; [|done]. simpl. unfold survives.
  case_bool_decide as Hlt; [done|]. simpl. by rewrite bool_decide_eq_false_2.
Qed.

Lemma cleanup_step_lookup (acc : gmap string File * Z) (filename k : string) :
  (LocalCache.cleanup_step cutoff_time acc filename).1 !! k
  = if decide (k = filename) then (acc.1 !! k) ≫= survives else acc.1 !! k.
Proof.
  unfold LocalCache.cleanup_step. destruct (decide (k = filename)) as [->|Hne].
  - destruct (acc.1 !! filename) as [f|] eqn:Hf; simpl; [|by rewrite Hf].
    unfold survives. case_bool_decide; simpl.
    + apply lookup_delete_eq.
    + done.
  - destruct (acc.1 !! filename) as [f|]; [|done].
    case_bool_decide; simpl; [|done]. by rewrite lookup_delete_ne.
Qed.

Lemma cleanup_fold_lookup (l : list string) : ∀ (acc : gmap string File * Z) (k : string),
  (foldl (LocalCache.cleanup_step cutoff_time) acc l).1 !! k
  = if decide (k ∈ l) then (acc.1 !! k) ≫= survives else acc.1 !! k.
Proof.
  induction l as [|k0 l IH]; intros acc k.
  - cbn [foldl]. rewrite decide_False; [done | apply not_elem_of_nil].
  - cbn [foldl]. rewrite IH, cleanup_step_lookup.
    destruct (decide (k = k0)) as [->|Hne].
    + rewrite (decide_True (P := k0 ∈ k0 :: l)) by (apply elem_of_cons; by left).
      destruct (decide (k0 ∈ l)); [apply survives_idemp | done].
    + destruct (decide (k ∈ l)) as [Hin|Hnin].
      * rewrite decide_True; [done | apply elem_of_cons; by right].
      * rewrite decide_False; [done|].
        intros Hin. apply elem_of_cons in Hin as [?|?]; done.
Qed.

Lemma cleanup_step_count (acc : gmap string File * Z) (filename : string) :
  (LocalCache.cleanup_step cutoff_time acc filename).2
    + Z.of_nat (size (LocalCache.cleanup_step cutoff_time acc filename).1)
  = acc.2 + Z.of_nat (size acc.1).
Proof.
  unfold LocalCache.cleanup_step.
  destruct (acc.1 !! filename) as [f|] eqn:Hf; [|done].
  case_bool_decide; [|done]. simpl.
  rewrite map_size_delete, Hf. simpl.
  assert (size acc.1 ≠ 0%nat) as Hne.
  { intros Hz. apply map_size_empty_iff in Hz. rewrite Hz in Hf.
    by rewrite lookup_empty in Hf. }
  lia.
Qed.

Lemma cleanup_fold_count (l : list string) : ∀ (acc : gmap string File * Z),
  (foldl (LocalCache.cleanup_step cutoff_time) acc l).2
    + Z.of_nat (size (foldl (LocalCache.cleanup_step cutoff_time) acc l).1)
  = acc.2 + Z.of_nat (size acc.1).
Proof.
  induction l as [|k0 l IH]; intros acc; [done|].
  simpl. by rewrite IH, cleanup_step_count.
Qed.

(** A pass over a directory removes the files older than the cutoff, no
    others, and adds their number to the count. *)
Lemma cleanup_dir_spec (dir : gmap string File) (deleted_count : Z) :
  (∀ k, (LocalCache.cleanup_dir cutoff_time dir deleted_count).1 !! k
        = (dir !! k) ≫= survives)
  ∧ (LocalCache.cleanup_dir cutoff_time dir deleted_count).2
    = deleted_count
      + (Z.of_nat (size dir)
         - Z.of_nat (size (LocalCache.cleanup_dir cutoff_time dir deleted_count).1)).
Proof.
  unfold LocalCache.cleanup_dir. split.
  - intros k. rewrite cleanup_fold_lookup. simpl.
    destruct (decide (k ∈ (map_to_list dir).*1)) as [|Hnin]; [done|].
    destruct (dir !! k) as [f|] eqn:Hf; [|done].
    exfalso. apply Hnin. apply list_elem_of_fmap. exists (k, f).
    split; [done|]. by apply elem_of_map_to_list.
  - pose proof (cleanup_fold_count (map_to_list dir).*1 (dir, deleted_count)) as Hc.
    simpl in Hc. lia.
Qed.

End Cleanup.

(** [cleanup_expired_cache] of the filesystem backend: a file goes exactly
    when its age exceeds the 24 hours, and the result counts the files
    gone. *)
Lemma local_cleanup_spec (now : Z) (lc : LocalCache) :
  let r := LocalCache.cleanup_expired_cache now lc in
  (∀ k, screenshots_dir r.2 !! k
        = (screenshots_dir lc !! k) ≫= survives (now - cache_duration))
  ∧ (∀ k, metadata_dir r.2 !! k
          = (metadata_dir lc !! k) ≫= survives (now - cache_duration))
  ∧ r.1 = Z.of_nat (size (screenshots_dir lc)) - Z.of_nat (size (screenshots_dir r.2))
          + (Z.of_nat (size (metadata_dir lc)) - Z.of_nat (size (metadata_dir r.2))).
Proof.
  cbv zeta. unfold LocalCache.cleanup_expired_cache. simpl.
  destruct (cleanup_dir_spec (now - cache_duration) (screenshots_dir lc) 0) as [Hl1 Hc1].
  destruct (cleanup_dir_spec (now - cache_duration) (metadata_dir lc)
              (LocalCache.cleanup_dir (now - cache_duration) (screenshots_dir lc) 0).2)
    as [Hl2 Hc2].
  split_and!; [done | done | lia].
Qed.

(** A file survives the purge exactly when its age is at most 24 hours. *)
Lemma survives_iff_age (now : Z) (f : File) :
  survives (now - cache_duration) f = Some f ↔ now - mtime f ≤ cache_duration.
Proof.
  unfold survives. case_bool_decide; split; intros; try done; lia.
Qed.

(** C6 (fails in the code): an entry whose age is exactly 24 hours is
    expired for the readers of both backends, which answer [None], but
    [cleanup_expired_cache] deletes only entries created before
    [now - 24h]: it leaves the entry in place and returns 0.  One
    microsecond later it removes the blob and the metadata and returns 2. *)
Theorem cleanup_keeps_entry_aged_exactly_ttl :
  let now := cache_duration in
  now - 0 = cache_duration
  ∧ LocalCache._is_file_expired now (screenshots_dir day_old_local)
      "abc12345678_90_high.png" = true
  ∧ (LocalCache.get_cached_screenshot now "abc12345678" 90 "high" day_old_local).1 = None
  ∧ LocalCache.cleanup_expired_cache now day_old_local = (0, day_old_local)
  ∧ GCSCache.get_cached_screenshot reliable now day_old_bucket "abc12345678" 90 "high"
    = None
  ∧ GCSCache.cleanup_expired_cache reliable now day_old_bucket = (0, day_old_bucket)
  ∧ LocalCache.cleanup_expired_cache (now + 1) day_old_local = (2, empty_local)
  ∧ GCSCache.cleanup_expired_cache reliable (now + 1) day_old_bucket = (2, ∅).
Proof. cbv zeta. split_and!; vm_compute; reflexivity. Qed.

(** ** The coherence check (src/app.py)

    [check_cache_parallel] awaits the metadata, then gathers one
    [get_screenshot] coroutine per quality.  The event loop starts the
    coroutines in list order and runs each up to its first suspension, the
    executor call of the durable tier; a coroutine whose key is in memory
    never suspends.  The suspended ones resume one at a time as their
    executor calls return, in an order the code does not control: [pick]
    chooses, among the coroutines still waiting, the one that resumes
    next. *)
Definition qualities : list string := ["ultra"; "high"; "medium"; "low"].

(** What the coroutines have returned or raised, in the order they ended. *)
Abbreviation task_results := (list (string * outcome (option bytes))).

Fixpoint start_all (video_id : string) (timestamp : Z) (qs : list string) (c : FastCache)
    : FastCache * task_results * list string :=
  match qs with
  | [] => (c, [], [])
  | quality :: qs' =>
      match FastCache.get_screenshot_memory
              (FastCache.screenshot_key video_id timestamp quality) c with
      | Some (r, c') =>
          let '(c'', finished, waiting) := start_all video_id timestamp qs' c' in
          (c'', (quality, r) :: finished, waiting)
      | None =>
          let '(c'', finished, waiting) := start_all video_id timestamp qs' c in
          (c'', finished, quality :: waiting)
      end
  end.

Fixpoint resume_all (gcs_cache : DurableTier) (pick : list string → nat)
    (video_id : string) (timestamp : Z) (n : nat) (waiting : list string) (c : FastCache)
    : FastCache * task_results :=
  match n with
  | O => (c, [])
  | S n' =>
      let i := (pick waiting mod length waiting)%nat in
      match waiting !! i with
      | None => (c, [])
      | Some quality =>
          let '(r, c') :=
            FastCache.get_screenshot_gcs
              (FastCache.screenshot_key video_id timestamp quality)
              (cached_screenshot gcs_cache video_id timestamp quality) c in
          let '(c'', finished) :=
            resume_all gcs_cache pick video_id timestamp n' (delete i waiting) c' in
          (c'', (quality, r) :: finished)
      end
  end.

Fixpoint first_exception (finished : task_results) : option exn :=
  match finished with
  | [] => None
  | (_, Raises e) :: _ => Some e
  | (_, Returns _) :: rest => first_exception rest
  end.

Definition result_of (finished : task_results) (quality : string) : option bytes :=
  match PyDict.get quality finished with
  | Some (Returns image) => image
  | _ => None
  end.

(** [await asyncio.gather] on the tasks: the first exception if a
    coroutine raised, the results in the order of the tasks otherwise. *)
Definition gather (gcs_cache : DurableTier) (pick : list string → nat)
    (video_id : string) (timestamp : Z) (qs : list string) (c : FastCache)
    : outcome (list (option bytes)) * FastCache :=
  let '(c1, finished1, waiting) := start_all video_id timestamp qs c in
  let '(c2, finished2) :=
    resume_all gcs_cache pick video_id timestamp (length waiting) waiting c1 in
  let finished := finished1 ++ finished2 in
  match first_exception finished with
  | Some e => (Raises e, c2)
  | None => (Returns (result_of finished <$> qs), c2)
  end.

Definition check_cache_parallel (gcs_cache : DurableTier) (pick : list string → nat)
    (video_id : string) (timestamp : Z) (c : FastCache)
    : outcome (option Metadata) * FastCache :=
  let '(cached_metadata, c0) :=
    FastCache.get_cached_metadata gcs_cache video_id timestamp c in
  if truthy cached_metadata then
    match gather gcs_cache pick video_id timestamp qualities c0 with
    | (Raises e, c') => (Raises e, c')
    | (Returns cached_images, c') =>
        if forallb is_not_None cached_images
        then (Returns cached_metadata, c')
        else (Returns None, c')
    end
  else (Returns None, c0).

(** The qualities a metadata list names, one per descriptor. *)
Definition listed_qualities (metadata : Metadata) : list string :=
  omap (λ d, match PyDict.get "quality" d with
             | Some (JStr q) => Some q
             | _ => None
             end) metadata.

(** What one lookup returns: the blob in memory, else a non-empty answer of
    the durable tier, else [None]. *)
Definition lookup_value (gcs_cache : DurableTier) (video_id : string) (timestamp : Z)
    (mc : gmap string bytes) (quality : string) : option bytes :=
  match mc !! FastCache.screenshot_key video_id timestamp quality with
  | Some data => Some data
  | None =>
      match cached_screenshot gcs_cache video_id timestamp quality with
      | Some (b :: data) => Some (b :: data)
      | _ => None
      end
  end.

Section CoherenceCheck.
Import FastCache.

Variable gcs_cache : DurableTier.
Variable video_id : string.
Variable timestamp : Z.

Local Abbreviation key q := (screenshot_key video_id timestamp q).

Lemma get_screenshot_memory_hit (quality : string) (data : bytes) (c : FastCache) :
  memory_ok c →
  memory_cache c !! key quality = Some data →
  ∃ c',
    get_screenshot_memory (key quality) c = Some (Returns (Some data), c')
    ∧ memory_ok c'
    ∧ memory_cache c' = memory_cache c.
Proof.
  intros [Hsz Htr] Hlk. unfold get_screenshot_memory. rewrite Hlk.
  assert (key quality ∈ access_order c) as Hin.
  { apply Htr, elem_of_dom. eauto. }
  simpl. destruct (deque_remove_ok _ _ Hin) as (d' & -> & Hd').
  eexists. split; [reflexivity|]. split; [|done].
  split; simpl; [done|]. intros k Hk. apply Hd'. by apply Htr.
Qed.

Lemma get_screenshot_gcs_value (quality : string) (c : FastCache) (mc : gmap string bytes) :
  memory_ok c →
  mc !! key quality = None →
  ∃ c',
    get_screenshot_gcs (key quality)
      (cached_screenshot gcs_cache video_id timestamp quality) c
    = (Returns (lookup_value gcs_cache video_id timestamp mc quality), c')
    ∧ memory_ok c'.
Proof.
  intros [Hsz Htr] Hmiss. unfold get_screenshot_gcs, lookup_value. rewrite Hmiss.
  destruct (cached_screenshot gcs_cache video_id timestamp quality) as [[|b data]|].
  - eexists. split; [reflexivity|]. by split.
  - destruct (store_in_memory_ok (key quality) (b :: data) c Htr)
      as (c' & -> & [Hsz' Htr'] & _).
    eexists. split; [reflexivity|]. by split.
  - eexists. split; [reflexivity|]. by split.
Qed.

(** A lookup on its own returns the blob in memory, else what the durable
    tier has. *)
Lemma get_screenshot_value (quality : string) (c : FastCache) :
  memory_ok c →
  (get_screenshot gcs_cache video_id timestamp quality c).1
  = Returns (lookup_value gcs_cache video_id timestamp (memory_cache c) quality).
Proof.
  intros Hok. unfold get_screenshot.
  destruct (memory_cache c !! key quality) as [data|] eqn:Hlk.
  - destruct (get_screenshot_memory_hit quality data c Hok Hlk) as (c' & -> & _).
    unfold lookup_value. by rewrite Hlk.
  - unfold get_screenshot_memory. rewrite Hlk.
    by destruct (get_screenshot_gcs_value quality c (memory_cache c) Hok Hlk) as (c' & -> & _).
Qed.

(** Every finished coroutine returned the value of its lookup. *)
Definition all_returned (mc : gmap string bytes) (finished : task_results) : Prop :=
  Forall (λ e, e.2 = Returns (lookup_value gcs_cache video_id timestamp mc e.1)) finished.

Lemma start_all_spec (qs : list string) : ∀ c,
  memory_ok c →
  ∃ c1 finished waiting,
    start_all video_id timestamp qs c = (c1, finished, waiting)
    ∧ memory_ok c1
    ∧ memory_cache c1 = memory_cache c
    ∧ all_returned (memory_cache c) finished
    ∧ Forall (λ q, memory_cache c !! key q = None) waiting
    ∧ ∀ q, q ∈ qs → q ∈ finished.*1 ∨ q ∈ waiting.
Proof.
  induction qs as [|q qs IH]; intros c Hok.
  - exists c, [], []. split_and!; try done.
    + by apply Forall_nil.
    + intros q Hq. by apply elem_of_nil in Hq.
  - cbn [start_all]. destruct (memory_cache c !! key q) as [data|] eqn:Hlk.
    + destruct (get_screenshot_memory_hit q data c Hok Hlk) as (c' & -> & Hok' & Hmc).
      destruct (IH c' Hok') as (c1 & fin & wait & -> & Hok1 & Hmc1 & Hfin & Hwait & Hall).
      rewrite Hmc in *.
      eexists _, _, _. split; [reflexivity|]. split_and!; try done.
      * apply Forall_cons. split; [|done]. simpl.
        unfold lookup_value. by rewrite Hlk.
      * intros q' Hq'. apply elem_of_cons in Hq' as [->|Hq'].
        -- left. simpl. apply elem_of_cons. by left.
        -- destruct (Hall q' Hq') as [?|?]; [left|by right].
           simpl. apply elem_of_cons. by right.
    + unfold get_screenshot_memory. rewrite Hlk.
      destruct (IH c Hok) as (c1 & fin & wait & -> & Hok1 & Hmc1 & Hfin & Hwait & Hall).
      eexists _, _, _. split; [reflexivity|]. split_and!; try done.
      * by apply Forall_cons.
      * intros q' Hq'. apply elem_of_cons in Hq' as [->|Hq'].
        -- right. apply elem_of_cons. by left.
        -- destruct (Hall q' Hq') as [?|?]; [by left|right].
           apply elem_of_cons. by right.
Qed.

Lemma elem_of_delete_or {A : Type} (l : list A) (i : nat) (x y : A) :
  l !! i = Some x → y ∈ l → y = x ∨ y ∈ delete i l.
Proof.
  intros Hi Hy. rewrite <- (take_drop_middle l i x Hi) in Hy.
  rewrite delete_take_drop.
  apply elem_of_app in Hy as [Hy|Hy].
  - right. apply elem_of_app. by left.
  - apply elem_of_cons in Hy as [->|Hy]; [by left|].
    right. apply elem_of_app. by right.
Qed.

Lemma elem_of_delete_elem {A : Type} (l : list A) : ∀ (i : nat) (y : A),
  y ∈ delete i l → y ∈ l.
Proof.
  induction l as [|x l IH]; intros i y Hy; [done|].
  destruct i as [|i]; simpl in Hy.
  - apply elem_of_cons. by right.
  - apply elem_of_cons in Hy as [->|Hy]; apply elem_of_cons; [by left|].
    right. by apply (IH i).
Qed.

Lemma resume_all_spec (pick : list string → nat) (mc : gmap string bytes) (n : nat) :
  ∀ waiting c,
    memory_ok c →
    n = length waiting →
    Forall (λ q, mc !! key q = None) waiting →
    ∃ c2 finished,
      resume_all gcs_cache pick video_id timestamp n waiting c = (c2, finished)
      ∧ memory_ok c2
      ∧ all_returned mc finished
      ∧ ∀ q, q ∈ waiting → q ∈ finished.*1.
Proof.
  induction n as [|n IH]; intros waiting c Hok Hlen Hmiss.
  - exists c, []. split_and!; try done.
    + by apply Forall_nil.
    + destruct waiting; [|done]. intros q Hq. by apply elem_of_nil in Hq.
  - cbn [resume_all].
    set (i := (pick waiting mod length waiting)%nat).
    assert (i < length waiting)%nat as Hi.
    { unfold i. apply Nat.mod_upper_bound. lia. }
    destruct (lookup_lt_is_Some_2 waiting i Hi) as [q Hq]. rewrite Hq.
    assert (mc !! key q = None) as Hqmiss.
    { rewrite Forall_forall in Hmiss. apply Hmiss. by eapply list_elem_of_lookup_2. }
    destruct (get_screenshot_gcs_value q c mc Hok Hqmiss) as (c' & -> & Hok').
    destruct (IH (delete i waiting) c' Hok') as (c2 & fin & -> & Hok2 & Hfin & Hall).
    { rewrite length_delete by eauto. lia. }
    { rewrite Forall_forall in Hmiss |- *. intros x Hx.
      apply Hmiss. by eapply elem_of_delete_elem. }
    eexists _, _. split; [reflexivity|]. split_and!; [done| |].
    + by apply Forall_cons.
    + intros q' Hq'. simpl. apply elem_of_cons.
      destruct (elem_of_delete_or waiting i q q' Hq Hq') as [->|Hin]; [by left|].
      right. by apply Hall.
Qed.

Lemma all_returned_no_exception (mc : gmap string bytes) (finished : task_results) :
  all_returned mc finished → first_exception finished = None.
Proof.
  induction 1 as [|[q o] fin Ho _ IH]; [done|].
  simpl in *. by rewrite Ho.
Qed.

Lemma all_returned_result_of (mc : gmap string bytes) (finished : task_results) (q : string) :
  all_returned mc finished →
  q ∈ finished.*1 →
  result_of finished q = lookup_value gcs_cache video_id timestamp mc q.
Proof.
  intros Hfin Hq. unfold result_of.
  destruct (pydict_keys_get_Some q finished Hq) as [o Ho]. rewrite Ho.
  apply pydict_get_Some_elem in Ho.
  unfold all_returned in Hfin. rewrite Forall_forall in Hfin.
  specialize (Hfin _ Ho). simpl in Hfin. by rewrite Hfin.
Qed.

(** Whatever the order in which the suspended coroutines resume, the
    gather returns, for each task, the value its lookup has on its own. *)
Lemma gather_spec (pick : list string → nat) (qs : list string) (c : FastCache) :
  memory_ok c →
  ∃ c2,
    gather gcs_cache pick video_id timestamp qs c
    = (Returns (lookup_value gcs_cache video_id timestamp (memory_cache c) <$> qs), c2)
    ∧ memory_ok c2.
Proof.
  intros Hok. unfold gather.
  destruct (start_all_spec qs c Hok)
    as (c1 & fin1 & waiting & -> & Hok1 & Hmc1 & Hfin1 & Hwait & Hall1).
  destruct (resume_all_spec pick (memory_cache c) (length waiting) waiting c1 Hok1 eq_refl Hwait)
    as (c2 & fin2 & -> & Hok2 & Hfin2 & Hall2).
  assert (all_returned (memory_cache c) (fin1 ++ fin2)) as Hfin by (by apply Forall_app).
  rewrite (all_returned_no_exception _ _ Hfin).
  exists c2. split; [|done]. f_equal. f_equal.
  apply Forall_fmap_ext_1, Forall_forall. intros q Hq.
  apply all_returned_result_of; [done|].
  rewrite fmap_app. apply elem_of_app.
  destruct (Hall1 q Hq) as [?|Hw]; [by left|right]. by apply Hall2.
Qed.

Local Abbreviation lookup_call := (GetScreenshot gcs_cache video_id timestamp).

Lemma key_inj (q q' : string) : key q = key q' → q = q'.
Proof.
  unfold screenshot_key. intros Heq.
  by do 4 apply (inj (String.app _)) in Heq.
Qed.

Lemma exec_lookup_memory (q : string) (c : FastCache) r c' :
  get_screenshot_memory (key q) c = Some (r, c') →
  (exec (lookup_call q) c).2 = c'.
Proof. intros Hm. simpl. unfold get_screenshot. rewrite Hm. by destruct r. Qed.

Lemma exec_lookup_suspended (q : string) (c : FastCache) :
  get_screenshot_memory (key q) c = None →
  (exec (lookup_call q) c).2
  = (get_screenshot_gcs (key q) (cached_screenshot gcs_cache video_id timestamp q) c).2.
Proof.
  intros Hm. simpl. unfold get_screenshot. rewrite Hm.
  by destruct (get_screenshot_gcs _ _ _) as [[?|?] ?].
Qed.

(** The coroutines that end without suspending leave the state that their
    lookups, made in list order, leave. *)
Lemma start_all_run (qs : list string) : ∀ c,
  (start_all video_id timestamp qs c).1.1
  = run (lookup_call <$> (start_all video_id timestamp qs c).1.2.*1) c
  ∧ (start_all video_id timestamp qs c).1.2.*1 ++ (start_all video_id timestamp qs c).2 ≡ₚ qs.
Proof.
  induction qs as [|q qs IH]; intros c; [done|].
  cbn [start_all].
  destruct (get_screenshot_memory (key q) c) as [[r c']|] eqn:Hm.
  - specialize (IH c').
    destruct (start_all video_id timestamp qs c') as [[c'' fin] waiting].
    cbn [fst snd] in *. destruct IH as [-> Hperm]. split.
    + rewrite !fmap_cons. cbn [fst run foldl].
      by rewrite (exec_lookup_memory q c r c' Hm).
    + rewrite fmap_cons. cbn [fst app]. by rewrite Hperm.
  - specialize (IH c).
    destruct (start_all video_id timestamp qs c) as [[c'' fin] waiting].
    cbn [fst snd] in *. destruct IH as [-> Hperm]. split; [done|].
    rewrite <- Hperm. symmetry. apply Permutation_middle.
Qed.

(** A durable answer stored for one key leaves the other absent keys
    absent. *)
Lemma get_screenshot_gcs_absent (cache_key k : string) (image_data : option bytes)
    (c : FastCache) :
  memory_ok c → k ≠ cache_key → memory_cache c !! k = None →
  memory_cache (get_screenshot_gcs cache_key image_data c).2 !! k = None.
Proof.
  intros [Hsz Htr] Hne Hk. unfold get_screenshot_gcs.
  destruct image_data as [[|b data]|]; [done| |done].
  unfold _store_in_memory.
  destruct (evict_tracked _ _ Htr) as (mc' & ao' & -> & _ & _ & Hsub).
  cbn [fst snd memory_cache with_memory with_stats].
  rewrite lookup_insert_ne by done. by eapply lookup_weaken_None.
Qed.

(** The suspended coroutines, resumed in whatever order, leave the state
    that their lookups, made in that order, leave. *)
Lemma resume_all_run (pick : list string → nat) (n : nat) : ∀ waiting c,
  memory_ok c → n = length waiting → NoDup waiting →
  Forall (λ q, memory_cache c !! key q = None) waiting →
  (resume_all gcs_cache pick video_id timestamp n waiting c).1
  = run (lookup_call <$> (resume_all gcs_cache pick video_id timestamp n waiting c).2.*1) c
  ∧ (resume_all gcs_cache pick video_id timestamp n waiting c).2.*1 ≡ₚ waiting.
Proof.
  induction n as [|n IH]; intros waiting c Hok Hlen Hnd Hmiss.
  - destruct waiting; [done|discriminate].
  - cbn [resume_all].
    set (i := (pick waiting mod length waiting)%nat).
    assert (i < length waiting)%nat as Hi.
    { unfold i. apply Nat.mod_upper_bound. lia. }
    destruct (lookup_lt_is_Some_2 waiting i Hi) as [q Hq]. rewrite Hq.
    assert (memory_cache c !! key q = None) as Hqmiss.
    { rewrite Forall_forall in Hmiss. apply Hmiss. by eapply list_elem_of_lookup_2. }
    pose proof (delete_Permutation waiting i q Hq) as Hperm.
    assert (NoDup (q :: delete i waiting)) as Hnd' by (by rewrite <- Hperm).
    apply NoDup_cons in Hnd' as [Hqnot Hnd'].
    destruct (get_screenshot_gcs_value q c (memory_cache c)
                Hok Hqmiss) as (c' & Hc' & Hok').
    assert (Forall (λ q', memory_cache c' !! key q' = None) (delete i waiting)) as Hmiss'.
    { rewrite Forall_forall. intros q' Hq'.
      replace c' with (get_screenshot_gcs (key q)
                         (cached_screenshot gcs_cache video_id timestamp q) c).2
        by (by rewrite Hc').
      apply get_screenshot_gcs_absent; [done| |].
      - intros Heq. apply key_inj in Heq as ->. done.
      - rewrite Forall_forall in Hmiss. apply Hmiss. by eapply elem_of_delete_elem. }
    specialize (IH (delete i waiting) c' Hok').
    rewrite Hc'.
    destruct (resume_all gcs_cache pick video_id timestamp n (delete i waiting) c')
      as [c'' fin].
    cbn [fst snd] in *.
    destruct IH as [-> Hperm']; [rewrite length_delete by eauto; lia | done | done |].
    split.
    + rewrite !fmap_cons. cbn [fst run foldl].
      rewrite exec_lookup_suspended; [by rewrite Hc'|].
      unfold get_screenshot_memory. by rewrite Hqmiss.
    + rewrite fmap_cons. cbn [fst]. rewrite Hperm'. by symmetry.
Qed.

(** Whatever the order in which the suspended coroutines resume, the
    gather leaves the state that the lookups of its tasks, made one after
    another in some order, leave. *)
Lemma gather_run (pick : list string → nat) (qs : list string) (c : FastCache) :
  memory_ok c → NoDup qs →
  ∃ order,
    order ≡ₚ qs
    ∧ (gather gcs_cache pick video_id timestamp qs c).2 = run (lookup_call <$> order) c.
Proof.
  intros Hok Hnd. unfold gather.
  destruct (start_all_spec qs c Hok)
    as (c1 & fin1 & waiting & Hs & Hok1 & Hmc1 & _ & Hwait & _).
  destruct (start_all_run qs c) as [Hrun1 Hperm1]. rewrite Hs in *. cbn [fst snd] in *.
  assert (NoDup waiting) as Hndw.
  { rewrite <- Hperm1 in Hnd. by apply NoDup_app in Hnd as (_ & _ & ?). }
  rewrite <- Hmc1 in Hwait.
  destruct (resume_all_run pick (length waiting) waiting c1 Hok1 eq_refl Hndw Hwait)
    as [Hrun2 Hperm2].
  destruct (resume_all gcs_cache pick video_id timestamp (length waiting) waiting c1)
    as [c2 fin2].
  cbn [fst snd] in *.
  exists (fin1.*1 ++ fin2.*1). split.
  - by rewrite Hperm2.
  - rewrite fmap_app, run_app, <- Hrun1, <- Hrun2.
    by destruct (first_exception _).
Qed.

(** Each lookup_call is counted once, as a hit or as a miss. *)
Lemma lookup_counted_once (q : string) (c : FastCache) :
  memory_ok c →
  memory_ok (exec (lookup_call q) c).2
  ∧ hits (cache_stats (exec (lookup_call q) c).2) + misses (cache_stats (exec (lookup_call q) c).2)
    = hits (cache_stats c) + misses (cache_stats c) + 1.
Proof.
  intros Hok. destruct (memory_cache c !! key q) as [data|] eqn:Hlk.
  - destruct (get_screenshot_memory_hit q data c Hok Hlk)
      as (c' & Hm & Hok' & _).
    rewrite (exec_lookup_memory q c _ c' Hm). split; [done|].
    unfold get_screenshot_memory in Hm. rewrite Hlk in Hm.
    destruct (deque_remove _ _); simplify_eq/=; lia.
  - rewrite exec_lookup_suspended by (unfold get_screenshot_memory; by rewrite Hlk).
    destruct (get_screenshot_gcs_value q c (memory_cache c)
                Hok Hlk) as (c' & Hc' & Hok').
    rewrite Hc'. split; [done|].
    unfold get_screenshot_gcs in Hc'.
    destruct (cached_screenshot gcs_cache video_id timestamp q) as [[|b data]|].
    + simplify_eq/=. lia.
    + destruct (store_in_memory_ok (key q) (b :: data) c (proj2 Hok))
        as (c'' & Hst & _ & _ & _ & Hstats).
      rewrite Hst in Hc'. simplify_eq/=. rewrite Hstats. lia.
    + simplify_eq/=. lia.
Qed.

Lemma run_lookups_counted (l : list string) : ∀ c,
  memory_ok c →
  hits (cache_stats (run (lookup_call <$> l) c)) + misses (cache_stats (run (lookup_call <$> l) c))
  = hits (cache_stats c) + misses (cache_stats c) + Z.of_nat (length l).
Proof.
  induction l as [|q l IH]; intros c Hok; [simpl; lia|].
  rewrite fmap_cons. cbn [run foldl].
  destruct (lookup_counted_once q c Hok) as [Hok' Hcount].
  fold (run (lookup_call <$> l) (exec (lookup_call q) c).2).
  rewrite IH by done. rewrite Hcount. simpl length. lia.
Qed.

End CoherenceCheck.

Section CoherenceClaims.
Import FastCache.

Lemma get_cached_metadata_memory gcs_cache video_id timestamp c :
  memory_cache (get_cached_metadata gcs_cache video_id timestamp c).2 = memory_cache c
  ∧ access_order (get_cached_metadata gcs_cache video_id timestamp c).2 = access_order c.
Proof.
  unfold get_cached_metadata. destruct (PyDict.get _ _); [done|].
  by destruct (truthy _).
Qed.

Lemma forallb_is_not_None {A B : Type} (f : A → option B) (l : list A) :
  forallb is_not_None (f <$> l) = true ↔ ∀ x, x ∈ l → ∃ y, f x = Some y.
Proof.
  induction l as [|a l IH]; simpl.
  - split; [|done]. intros _ x Hx. by apply elem_of_nil in Hx.
  - rewrite andb_true_iff, IH. split.
    + intros [Ha Hl] x Hx. apply elem_of_cons in Hx as [->|Hx]; [|by apply Hl].
      destruct (f a) as [y|]; [by exists y | done].
    + intros Hall. split.
      * destruct (Hall a) as [y ->]; [apply elem_of_cons; by left | done].
      * intros x Hx. apply Hall. apply elem_of_cons. by right.
Qed.

(** A video for which only the two upper qualities exist: its metadata
    holds two descriptors. *)
Definition two_quality_metadata : Metadata :=
  [ [("quality", JStr "ultra"); ("filename", JStr "screenshot_abc12345678_90_ultra.png");
     ("size_kb", JFloat "512.4"); ("source_height", JInt 1080)];
    [("quality", JStr "high"); ("filename", JStr "screenshot_abc12345678_90_high.png");
     ("size_kb", JFloat "231.0"); ("source_height", JInt 720)] ].

(** The request that generated them has stored both blobs and the
    metadata. *)
Definition both_listed_stored : list call :=
  [ StoreScreenshot "abc12345678" 90 "ultra" png_magic;
    StoreScreenshot "abc12345678" 90 "high" png_magic;
    StoreMetadata "abc12345678" 90 two_quality_metadata ].

(** Only the blob of [ultra] can be had. *)
Definition only_ultra_stored : list call :=
  [ StoreScreenshot "abc12345678" 90 "ultra" png_magic;
    StoreMetadata "abc12345678" 90 two_quality_metadata ].

(** C4 (fails in the code): the metadata lists ultra and high, the lookup of
    each of the two returns its blob, and the check still reports a miss,
    because it also looks up medium and low. *)
Lemma listed_blobs_present_yet_miss :
  let c := run both_listed_stored init in
  (get_cached_metadata empty_tier "abc12345678" 90 c).1 = Some two_quality_metadata
  ∧ listed_qualities two_quality_metadata = ["ultra"; "high"]
  ∧ (∀ q, q ∈ listed_qualities two_quality_metadata →
       (get_screenshot empty_tier "abc12345678" 90 q
          (get_cached_metadata empty_tier "abc12345678" 90 c).2).1
       = Returns (Some png_magic))
  ∧ (check_cache_parallel empty_tier (λ _, 0%nat) "abc12345678" 90 c).1 = Returns None.
Proof.
  cbv zeta. split_and!; [by vm_compute | by vm_compute | | by vm_compute].
  intros q Hq. change (listed_qualities two_quality_metadata) with ["ultra"; "high"] in Hq.
  apply elem_of_cons in Hq as [->|Hq]; [by vm_compute|].
  apply list_elem_of_singleton in Hq as ->. by vm_compute.
Qed.

Lemma get_cached_metadata_stats gcs_cache video_id timestamp c :
  cache_stats (get_cached_metadata gcs_cache video_id timestamp c).2 = cache_stats c.
Proof.
  unfold get_cached_metadata. destruct (PyDict.get _ _); [done|].
  by destruct (truthy _).
Qed.

Lemma qualities_NoDup : NoDup qualities.
Proof. apply (bool_decide_unpack _). by vm_compute. Qed.

(** C4 (amended): when the cached metadata is a non-empty list, the check
    looks up each of the four fixed qualities ultra, high, medium and low,
    whatever qualities the metadata lists, and returns the metadata exactly
    when all four lookups return a blob; otherwise, and when there is no
    metadata, it returns [None].  The order in which the lookups complete
    does not matter: the cache is left in the state that the four lookups,
    made one after another in some order, leave, with [hits + misses]
    advanced by four.  With no metadata or an empty list no lookup is made:
    the state is the one the metadata lookup left, with the counters, the
    blob dict and the access order untouched. *)
Theorem check_cache_parallel_all_four
    (gcs_cache : DurableTier) (pick : list string → nat)
    (video_id : string) (timestamp : Z) (c : FastCache) :
  reachable c →
  ∃ r c',
    check_cache_parallel gcs_cache pick video_id timestamp c = (Returns r, c')
    ∧ (∀ metadata,
         r = Some metadata ↔
         (get_cached_metadata gcs_cache video_id timestamp c).1 = Some metadata
         ∧ metadata ≠ []
         ∧ ∀ q, q ∈ qualities →
             ∃ data,
               (get_screenshot gcs_cache video_id timestamp q
                  (get_cached_metadata gcs_cache video_id timestamp c).2).1
               = Returns (Some data))
    ∧ (truthy (get_cached_metadata gcs_cache video_id timestamp c).1 = true →
       ∃ order,
         order ≡ₚ qualities
         ∧ c' = run (GetScreenshot gcs_cache video_id timestamp <$> order)
                  (get_cached_metadata gcs_cache video_id timestamp c).2
         ∧ hits (cache_stats c') + misses (cache_stats c')
           = hits (cache_stats c) + misses (cache_stats c) + 4)
    ∧ (truthy (get_cached_metadata gcs_cache video_id timestamp c).1 = false →
       r = None
       ∧ c' = (get_cached_metadata gcs_cache video_id timestamp c).2
       ∧ cache_stats c' = cache_stats c
       ∧ memory_cache c' = memory_cache c
       ∧ access_order c' = access_order c).
Proof.
  intros Hr. apply reachable_memory_ok in Hr as Hok.
  destruct (get_cached_metadata_memory gcs_cache video_id timestamp c) as [Hmc Hao].
  pose proof (get_cached_metadata_stats gcs_cache video_id timestamp c) as Hst.
  unfold check_cache_parallel.
  destruct (get_cached_metadata gcs_cache video_id timestamp c) as [md c0] eqn:Hmd.
  cbn [fst snd] in Hmc, Hao, Hst |- *.
  assert (memory_ok c0) as Hok0.
  { destruct Hok as [Hsz Htr]. split; [by rewrite Hmc|].
    unfold tracked. by rewrite Hmc, Hao. }
  destruct md as [[|d ds]|]; cbn [truthy].
  - eexists _, _. split; [reflexivity|]. split_and!; [|done|done].
    intros metadata. split; [done|]. by intros ([= <-] & Hne & _).
  - destruct (gather_spec gcs_cache video_id timestamp pick qualities c0 Hok0)
      as (c2 & Hg & _).
    destruct (gather_run gcs_cache video_id timestamp pick qualities c0 Hok0 qualities_NoDup)
      as (order & Hperm & Hrun).
    rewrite Hg in Hrun |- *. cbn [snd] in Hrun.
    assert (hits (cache_stats c2) + misses (cache_stats c2)
            = hits (cache_stats c) + misses (cache_stats c) + 4) as Hcount.
    { rewrite Hrun, run_lookups_counted by done.
      rewrite Hst, (Permutation_length Hperm). reflexivity. }
    destruct (forallb is_not_None _) eqn:Hall.
    + eexists _, _. split; [reflexivity|]. split_and!; [| |done].
      * intros metadata. split.
        -- intros [= <-]. split_and!; [done | done |].
           intros q Hq. rewrite get_screenshot_value by done.
           rewrite forallb_is_not_None in Hall.
           destruct (Hall q Hq) as [data ->]. by exists data.
        -- by intros ([= <-] & _).
      * intros _. by exists order.
    + eexists _, _. split; [reflexivity|]. split_and!; [| |done].
      * intros metadata. split; [done|].
        intros (_ & _ & Hq). exfalso.
        assert (forallb is_not_None
                  (lookup_value gcs_cache video_id timestamp (memory_cache c0) <$> qualities)
                = true) as Htrue; [|congruence].
        apply forallb_is_not_None. intros q Hin.
        destruct (Hq q Hin) as [data Hdata].
        rewrite get_screenshot_value in Hdata by done.
        exists data. congruence.
      * intros _. by exists order.
  - eexists _, _. split; [reflexivity|]. split_and!; [|done|done].
    intros metadata. split; [done|]. by intros ([=] & _).
Qed.

(** The metadata lists ultra and high and only the blob of ultra is
    there: the check reports a miss. *)
Lemma check_cache_parallel_all_four_witness :
  reachable (run only_ultra_stored init)
  ∧ (check_cache_parallel empty_tier (λ _, 0%nat) "abc12345678" 90
       (run only_ultra_stored init)).1 = Returns None
  ∧ ∃ r c',
      check_cache_parallel empty_tier (λ _, 0%nat) "abc12345678" 90
        (run only_ultra_stored init) = (Returns r, c')
      ∧ (∀ metadata,
           r = Some metadata ↔
           (get_cached_metadata empty_tier "abc12345678" 90 (run only_ultra_stored init)).1
             = Some metadata
           ∧ metadata ≠ []
           ∧ ∀ q, q ∈ qualities →
               ∃ data,
                 (get_screenshot empty_tier "abc12345678" 90 q
                    (get_cached_metadata empty_tier "abc12345678" 90
                       (run only_ultra_stored init)).2).1
                 = Returns (Some data))
      ∧ (truthy (get_cached_metadata empty_tier "abc12345678" 90
                   (run only_ultra_stored init)).1 = true →
         ∃ order,
           order ≡ₚ qualities
           ∧ c' = run (GetScreenshot empty_tier "abc12345678" 90 <$> order)
                    (get_cached_metadata empty_tier "abc12345678" 90
                       (run only_ultra_stored init)).2
           ∧ hits (cache_stats c') + misses (cache_stats c')
             = hits (cache_stats (run only_ultra_stored init))
               + misses (cache_stats (run only_ultra_stored init)) + 4)
      ∧ (truthy (get_cached_metadata empty_tier "abc12345678" 90
                   (run only_ultra_stored init)).1 = false →
         r = None
         ∧ c' = (get_cached_metadata empty_tier "abc12345678" 90
                   (run only_ultra_stored init)).2
         ∧ cache_stats c' = cache_stats (run only_ultra_stored init)
         ∧ memory_cache c' = memory_cache (run only_ultra_stored init)
         ∧ access_order c' = access_order (run only_ultra_stored init)).
Proof.
  split; [by exists only_ultra_stored|]. split; [by vm_compute|].
  apply (check_cache_parallel_all_four empty_tier (λ _, 0%nat) "abc12345678" 90
           (run only_ultra_stored init)).
  by exists only_ultra_stored.
Defined.

(** On that state the four lookups are made and counted: one memory hit
    for ultra, three misses. *)
Example four_lookups_counted :
  cache_stats (check_cache_parallel empty_tier (λ _, 0%nat) "abc12345678" 90
                 (run only_ultra_stored init)).2
  = {| hits := 1; misses := 3; memory_hits := 1; gcs_hits := 0 |}.
Proof. by vm_compute. Qed.

(** With the four blobs in memory the check returns the metadata, in
    whatever order the durable tier would have answered. *)
Example complete_hit :
  let c :=
    run (both_listed_stored
         ++ [ StoreScreenshot "abc12345678" 90 "medium" png_magic;
              StoreScreenshot "abc12345678" 90 "low" png_magic ]) init in
  (check_cache_parallel empty_tier (λ _, 0%nat) "abc12345678" 90 c).1
  = Returns (Some two_quality_metadata).
Proof. by vm_compute. Qed.

End CoherenceClaims.

(** ** Further runs of the model *)

(** Ninety-nine screenshots of one video are stored, the first of them is
    stored once more, and two new blobs arrive.  The second one finds the
    dict full; the eviction pops the left end of the access order, the stale
    first occurrence of the key that was stored again, and deletes that
    blob: a recently stored blob is gone, older ones stay, and the key is
    still in the access order. *)
Definition ninety_nine_stores : list call :=
  (λ i : nat, StoreScreenshot "abc12345678" (Z.of_nat i) "high" png_magic) <$> seq 0 99.

Example restored_key_evicted_first :
  let c :=
    run (ninety_nine_stores
         ++ [ StoreScreenshot "abc12345678" 0 "high" png_magic;
              StoreScreenshot "abc12345678" 99 "high" png_magic;
              StoreScreenshot "abc12345678" 100 "high" png_magic ]) FastCache.init in
  size (memory_cache c) = 100%nat
  ∧ memory_cache c !! "abc12345678_0_high" = None
  ∧ memory_cache c !! "abc12345678_1_high" = Some png_magic
  ∧ last (access_order c) = Some "abc12345678_100_high"
  ∧ "abc12345678_0_high" ∈ access_order c.
Proof.
  cbv zeta. split_and!; [by vm_compute | by vm_compute | by vm_compute | by vm_compute |].
  apply (bool_decide_unpack _). by vm_compute.
Qed.

(** The scenario of the two tiers: a blob that is only in the bucket is
    served through the durable tier and put in memory, and the next lookup
    is a memory hit. *)
Example durable_fallback_fills_memory :
  let gcs := GCSCache.tier JsonRead.loads reliable 3600000000 day_old_bucket in
  let r1 := FastCache.get_screenshot gcs "abc12345678" 90 "high" FastCache.init in
  let r2 := FastCache.get_screenshot empty_tier "abc12345678" 90 "high" r1.2 in
  r1.1 = Returns (Some png_magic)
  ∧ cache_stats r1.2 = {| hits := 1; misses := 0; memory_hits := 0; gcs_hits := 1 |}
  ∧ r2.1 = Returns (Some png_magic)
  ∧ cache_stats r2.2 = {| hits := 2; misses := 0; memory_hits := 1; gcs_hits := 1 |}.
Proof. cbv zeta. split_and!; by vm_compute. Qed.

(** A delete that raises in the second loop of the cloud purge: the blob
    removed by the first loop stays removed and the result is 0. *)
Example gcs_cleanup_failure_returns_zero :
  let net :=
    {| exists_raises := false; reload_raises := false; time_created_unset := false;
       download_raises := λ _, false; upload_raises := false; list_raises := false;
       delete_raises := λ name, bool_decide (name = "metadata/abc12345678_90.json") |} in
  let r := GCSCache.cleanup_expired_cache net (cache_duration + 1) day_old_bucket in
  r.1 = 0
  ∧ r.2 !! "screenshots/abc12345678_90_high.png" = None
  ∧ is_Some (r.2 !! "metadata/abc12345678_90.json").
Proof.
  cbv zeta. split_and!; [by vm_compute | by vm_compute |].
  apply (bool_decide_unpack _). by vm_compute.
Qed.

(** * Further properties of the code

    ** The blob tier as an LRU cache

    As long as no blob is stored under a key that is still in memory, the
    access order lists the keys of the dict, each once, oldest first. *)
Section LruOrder.
Import FastCache.

Lemma access_order_exact_iff (c : FastCache) :
  access_order_exact c ↔
  NoDup (access_order c) ∧ ∀ k, k ∈ access_order c ↔ k ∈ dom (memory_cache c).
Proof.
  unfold access_order_exact. split.
  - intros Hperm. split.
    + rewrite Hperm. apply NoDup_elements.
    + intros k. rewrite Hperm. apply elem_of_elements.
  - intros [Hnd Hin]. apply NoDup_Permutation; [done | apply NoDup_elements |].
    intros k. rewrite Hin. symmetry. apply elem_of_elements.
Qed.

Lemma evict_below_capacity (mc : gmap string bytes) (ao : list string) :
  (size mc < max_memory_items)%nat → evict mc ao = (Returns (), (mc, ao)).
Proof.
  intros Hlt. destruct ao as [|k ao].
  - rewrite evict_nil. by rewrite bool_decide_eq_false_2 by lia.
  - rewrite evict_cons. by rewrite bool_decide_eq_false_2 by lia.
Qed.

Lemma evict_at_capacity (mc : gmap string bytes) (oldest : string) (rest : list string) :
  size mc = max_memory_items →
  oldest ∈ dom mc →
  evict mc (oldest :: rest) = (Returns (), (delete oldest mc, rest)).
Proof.
  intros Hsz Hin. rewrite evict_cons.
  rewrite bool_decide_eq_true_2 by lia. rewrite bool_decide_eq_true_2 by done.
  apply evict_below_capacity.
  apply elem_of_dom in Hin as [d Hd].
  rewrite map_size_delete, Hd. simpl. unfold max_memory_items in *. lia.
Qed.

Lemma filter_all {A : Type} (P : A → Prop) `{!∀ x, Decision (P x)} (l : list A) :
  Forall P l → filter P l = l.
Proof.
  induction 1 as [|x l Hx _ IH]; [done|].
  rewrite filter_cons, decide_True by done. by rewrite IH.
Qed.

(** [deque.remove] on a deque without repetitions. *)
Lemma deque_remove_NoDup (x : string) (d : list string) :
  NoDup d → x ∈ d → deque_remove x d = Returns (filter (λ y, y ≠ x) d).
Proof.
  induction d as [|y d IH]; intros Hnd Hx.
  - by apply elem_of_nil in Hx.
  - apply NoDup_cons in Hnd as [Hy Hnd]. cbn [deque_remove].
    rewrite filter_cons. destruct (decide (x = y)) as [->|Hne].
    + rewrite decide_False by (intros Hne; by apply Hne).
      f_equal. symmetry. apply filter_all.
      rewrite Forall_forall. intros z Hz ->. done.
    + apply elem_of_cons in Hx as [?|Hx]; [done|].
      rewrite (IH Hnd Hx). by rewrite decide_True by (intros ->; by apply Hne).
Qed.

(** Storing under a key that is not in memory, below capacity: nothing is
    evicted. *)
Lemma store_new_key_below_capacity cache_key image_data c :
  (size (memory_cache c) < max_memory_items)%nat →
  _store_in_memory cache_key image_data c
  = (Returns (),
     with_memory (<[cache_key := image_data]> (memory_cache c))
       (access_order c ++ [cache_key]) c).
Proof.
  intros Hlt. unfold _store_in_memory. by rewrite evict_below_capacity.
Qed.

Lemma store_evicts_least_recently_used_aux cache_key image_data c :
  access_order_exact c →
  size (memory_cache c) = max_memory_items →
  memory_cache c !! cache_key = None →
  ∃ oldest rest c',
    access_order c = oldest :: rest
    ∧ _store_in_memory cache_key image_data c = (Returns (), c')
    ∧ memory_cache c' = <[cache_key := image_data]> (delete oldest (memory_cache c))
    ∧ access_order c' = rest ++ [cache_key]
    ∧ size (memory_cache c') = max_memory_items
    ∧ access_order_exact c'.
Proof.
  intros Hex Hsz Hnew. apply access_order_exact_iff in Hex as [Hnd Hin].
  destruct (access_order c) as [|oldest rest] eqn:Hao.
  { exfalso. assert (size (memory_cache c) = 0%nat) as Hz.
    { apply tracked_nil_empty. intros k Hk. by apply Hin. }
    unfold max_memory_items in Hsz. lia. }
  assert (oldest ∈ dom (memory_cache c)) as Hold.
  { apply Hin. apply elem_of_cons. by left. }
  exists oldest, rest. eexists. split; [done|]. split.
  { unfold _store_in_memory. rewrite Hao. rewrite evict_at_capacity by done.
    reflexivity. }
  apply NoDup_cons in Hnd as [Hnotin Hnd].
  assert (cache_key ≠ oldest) as Hne.
  { intros ->. apply elem_of_dom in Hold as [? ?]. congruence. }
  assert (cache_key ∉ rest) as Hkr.
  { intros Hk. assert (cache_key ∈ dom (memory_cache c)) as Hd.
    { apply Hin. apply elem_of_cons. by right. }
    apply elem_of_dom in Hd as [? ?]. congruence. }
  simpl. split_and!; [done | done | |].
  - rewrite map_size_insert_None by (rewrite lookup_delete_ne; done).
    apply elem_of_dom in Hold as [d Hd].
    rewrite map_size_delete, Hd. simpl. unfold max_memory_items in *. lia.
  - apply access_order_exact_iff. simpl. split.
    + apply NoDup_app. split_and!; [done | | apply NoDup_singleton].
      intros k Hk Hk'. apply list_elem_of_singleton in Hk' as ->. done.
    + intros k. rewrite dom_insert_L, dom_delete_L.
      rewrite elem_of_app, list_elem_of_singleton, elem_of_union, elem_of_singleton,
        elem_of_difference, elem_of_singleton.
      specialize (Hin k). rewrite elem_of_cons in Hin. split.
      * intros [Hk| ->]; [right|by left]. split; [apply Hin; by right|].
        intros ->. done.
      * intros [->|[Hk Hko]]; [by right|left].
        apply Hin in Hk as [?|?]; done.
Qed.

(** X2: a store into a full blob dict whose access order is exact evicts
    exactly the entry at the left end of the access order, the least
    recently used one; every other blob stays, and the new key becomes the
    most recently used. *)
Theorem store_evicts_least_recently_used cache_key image_data c :
  access_order_exact c →
  size (memory_cache c) = max_memory_items →
  memory_cache c !! cache_key = None →
  ∃ oldest rest c',
    access_order c = oldest :: rest
    ∧ _store_in_memory cache_key image_data c = (Returns (), c')
    ∧ memory_cache c' = <[cache_key := image_data]> (delete oldest (memory_cache c))
    ∧ access_order c' = rest ++ [cache_key]
    ∧ size (memory_cache c') = max_memory_items
    ∧ access_order_exact c'.
Proof. exact (store_evicts_least_recently_used_aux cache_key image_data c). Qed.

Lemma store_new_key_exact cache_key image_data c :
  access_order_exact c →
  (size (memory_cache c) ≤ max_memory_items)%nat →
  memory_cache c !! cache_key = None →
  ∃ c',
    _store_in_memory cache_key image_data c = (Returns (), c')
    ∧ access_order_exact c'
    ∧ (size (memory_cache c') ≤ max_memory_items)%nat
    ∧ memory_cache c' !! cache_key = Some image_data
    ∧ cache_stats c' = cache_stats c.
Proof.
  intros Hex Hsz Hnew.
  destruct (decide (size (memory_cache c) = max_memory_items)) as [Hfull|Hnf].
  - destruct (store_evicts_least_recently_used_aux cache_key image_data c Hex Hfull Hnew)
      as (oldest & rest & c' & Hao & He & Hmc & Hao' & Hsz' & Hex').
    exists c'. split_and!; [done | done | lia | |].
    + rewrite Hmc. apply lookup_insert_eq.
    + destruct (store_in_memory_ok cache_key image_data c) as (c'' & He' & _ & _ & _ & Hst).
      { intros k Hk. apply access_order_exact_iff in Hex as [_ Hin]. by apply Hin. }
      congruence.
  - rewrite store_new_key_below_capacity by lia.
    eexists. split; [reflexivity|]. simpl.
    apply access_order_exact_iff in Hex as [Hnd Hin].
    assert (cache_key ∉ access_order c) as Hk.
    { intros Hk. apply Hin, elem_of_dom in Hk as [? ?]. congruence. }
    split_and!; [| | apply lookup_insert_eq | done].
    + apply access_order_exact_iff. simpl. split.
      * apply NoDup_app. split_and!; [done | | apply NoDup_singleton].
        intros k Hk1 Hk2. apply list_elem_of_singleton in Hk2 as ->. done.
      * intros k. rewrite dom_insert_L, elem_of_app, list_elem_of_singleton,
          elem_of_union, elem_of_singleton, Hin. tauto.
    + rewrite map_size_insert_None by done. lia.
Qed.

Lemma memory_hit_moves_key_to_end_aux gcs_cache video_id timestamp quality data c :
  access_order_exact c →
  memory_cache c !! screenshot_key video_id timestamp quality = Some data →
  ∃ c',
    get_screenshot gcs_cache video_id timestamp quality c = (Returns (Some data), c')
    ∧ memory_cache c' = memory_cache c
    ∧ access_order c'
      = filter (λ k, k ≠ screenshot_key video_id timestamp quality) (access_order c)
        ++ [screenshot_key video_id timestamp quality]
    ∧ access_order_exact c'.
Proof.
  intros Hex Hlk. apply access_order_exact_iff in Hex as [Hnd Hin].
  assert (screenshot_key video_id timestamp quality ∈ access_order c) as Hk.
  { apply Hin, elem_of_dom. eauto. }
  unfold get_screenshot, get_screenshot_memory. rewrite Hlk. simpl.
  rewrite (deque_remove_NoDup _ _ Hnd Hk).
  eexists. split; [reflexivity|]. simpl. split_and!; [done | done |].
  apply access_order_exact_iff. simpl. split.
  - apply NoDup_app. split_and!; [by apply NoDup_filter | | apply NoDup_singleton].
    intros k Hk1 Hk2. apply list_elem_of_singleton in Hk2 as ->.
    apply list_elem_of_filter in Hk1 as [Hne _]. done.
  - intros k. rewrite elem_of_app, list_elem_of_filter, list_elem_of_singleton, <- Hin.
    destruct (decide (k = screenshot_key video_id timestamp quality)) as [->|Hne]; tauto.
Qed.

(** [deque.remove] takes out the first occurrence and keeps the rest in
    order. *)
Lemma deque_remove_first (x : string) (d : list string) :
  x ∈ d →
  ∃ before after,
    d = before ++ (x :: after)
    ∧ (x ∉ before)
    ∧ deque_remove x d = Returns (before ++ after).
Proof.
  induction d as [|y d IH]; intros Hx.
  - by apply elem_of_nil in Hx.
  - cbn [deque_remove]. destruct (decide (x = y)) as [->|Hne].
    + exists [], d. split_and!; [done | apply not_elem_of_nil | done].
    + apply elem_of_cons in Hx as [?|Hx]; [done|].
      destruct (IH Hx) as (before & after & -> & Hnot & ->).
      exists (y :: before), after. split_and!; [done | | done].
      apply not_elem_of_cons. by split.
Qed.

(** X3: in a state in which every key of the blob dict occurs in the
    access order (as in every state the server reaches), a lookup whose key
    is in the blob dict returns the blob, counts a memory hit, leaves the
    dict as it is, takes the first occurrence of the key out of the access
    order and appends the key, keeping the order of everything else; when
    the access order holds no key twice, the key then stands at the most
    recently used end only, behind the other keys in their old order. *)
Theorem memory_hit_moves_key_to_end gcs_cache video_id timestamp quality data c :
  memory_ok c →
  memory_cache c !! screenshot_key video_id timestamp quality = Some data →
  ∃ before after c',
    access_order c = before ++ (screenshot_key video_id timestamp quality :: after)
    ∧ (screenshot_key video_id timestamp quality ∉ before)
    ∧ get_screenshot gcs_cache video_id timestamp quality c = (Returns (Some data), c')
    ∧ memory_cache c' = memory_cache c
    ∧ cache_stats c' = count_memory_hit (cache_stats c)
    ∧ access_order c' = before ++ after ++ [screenshot_key video_id timestamp quality]
    ∧ (NoDup (access_order c) →
       access_order c'
       = filter (λ k, k ≠ screenshot_key video_id timestamp quality) (access_order c)
         ++ [screenshot_key video_id timestamp quality]).
Proof.
  intros [_ Htr] Hlk.
  set (key := screenshot_key video_id timestamp quality) in *.
  assert (key ∈ access_order c) as Hin by (apply Htr, elem_of_dom; eauto).
  destruct (deque_remove_first key (access_order c) Hin)
    as (before & after & Hao & Hnot & Hrem).
  exists before, after. eexists. split_and!; [done | done | | | | |].
  - unfold get_screenshot, get_screenshot_memory. fold key. rewrite Hlk.
    cbn [access_order with_stats]. rewrite Hrem. reflexivity.
  - done.
  - done.
  - cbn [access_order with_memory]. by rewrite app_assoc.
  - intros Hnd. cbn [access_order with_memory].
    rewrite (deque_remove_NoDup key (access_order c) Hnd Hin) in Hrem.
    injection Hrem as <-. done.
Qed.

Lemma get_screenshot_exact gcs_cache video_id timestamp quality c :
  access_order_exact c →
  (size (memory_cache c) ≤ max_memory_items)%nat →
  ∃ r c',
    get_screenshot gcs_cache video_id timestamp quality c = (Returns r, c')
    ∧ access_order_exact c'
    ∧ (size (memory_cache c') ≤ max_memory_items)%nat.
Proof.
  intros Hex Hsz.
  destruct (memory_cache c !! screenshot_key video_id timestamp quality) as [data|] eqn:Hlk.
  - destruct (memory_hit_moves_key_to_end_aux gcs_cache video_id timestamp quality data c Hex Hlk)
      as (c' & He & Hmc & _ & Hex').
    exists (Some data), c'. split_and!; [done | done | by rewrite Hmc].
  - unfold get_screenshot, get_screenshot_memory. rewrite Hlk.
    unfold get_screenshot_gcs.
    destruct (cached_screenshot gcs_cache video_id timestamp quality) as [[|b data]|].
    + eexists _, _. split; [reflexivity|]. by split.
    + destruct (store_new_key_exact (screenshot_key video_id timestamp quality)
                  (b :: data) c Hex Hsz Hlk) as (c' & -> & Hex' & Hsz' & _).
      eexists _, _. split; [reflexivity|]. by split.
    + eexists _, _. split; [reflexivity|]. by split.
Qed.

End LruOrder.

(** ** Calls that overlap

    [get_screenshot] and [get_cached_metadata] suspend once, while the
    executor asks the durable tier; whatever else is ready runs on the
    event loop in between.  A history lists the pieces that run, each
    without interruption: a store, the part of a lookup up to its
    suspension, and the part of a lookup from the answer of the durable
    tier on.  The part of [get_cached_metadata] before its suspension
    changes nothing.  Every interleaving of calls is such a history; the
    histories also include sequences that no execution produces, such as a
    resumption without its start, and the theorems cover them as well. *)
Inductive piece :=
  | StoreRuns (video_id : string) (timestamp : Z) (quality : string) (image_data : bytes)
  | LookupStarts (video_id : string) (timestamp : Z) (quality : string)
  | LookupResumes (video_id : string) (timestamp : Z) (quality : string)
      (image_data : option bytes)
  | StoreMetadataRuns (video_id : string) (timestamp : Z) (metadata : Metadata)
  | MetadataLookupResumes (video_id : string) (timestamp : Z) (metadata : option Metadata).

(** [get_cached_metadata] from the answer of the durable tier on. *)
Definition get_cached_metadata_gcs (video_id : string) (timestamp : Z)
    (metadata : option Metadata) (c : FastCache) : option Metadata * FastCache :=
  let key := FastCache.metadata_key video_id timestamp in
  if truthy metadata then
    let md := PyDict.set key (default [] metadata) (metadata_cache c) in
    let md' :=
      if bool_decide (max_metadata_items < length md)%nat
      then match PyDict.first_key md with
           | Some oldest_key => PyDict.del oldest_key md
           | None => md
           end
      else md in
    (metadata, FastCache.with_metadata md' c)
  else (metadata, c).

Definition play_piece (p : piece) (c : FastCache) : FastCache :=
  match p with
  | StoreRuns v t q data => (FastCache.store_screenshot v t q data c).2
  | LookupStarts v t q =>
      match FastCache.get_screenshot_memory (FastCache.screenshot_key v t q) c with
      | Some r => r.2
      | None => c
      end
  | LookupResumes v t q image_data =>
      (FastCache.get_screenshot_gcs (FastCache.screenshot_key v t q) image_data c).2
  | StoreMetadataRuns v t md => FastCache.store_metadata v t md c
  | MetadataLookupResumes v t metadata => (get_cached_metadata_gcs v t metadata c).2
  end.

Definition play (h : list piece) (c : FastCache) : FastCache :=
  foldl (λ c p, play_piece p c) c h.

(** Each store of the history, by [store_screenshot] or by a lookup that
    got a blob from the durable tier, finds its key absent from the blob
    dict. *)
Fixpoint stores_new_keys (h : list piece) (c : FastCache) : Prop :=
  match h with
  | [] => True
  | p :: h' =>
      match p with
      | StoreRuns v t q _ | LookupResumes v t q (Some (_ :: _)) =>
          memory_cache c !! FastCache.screenshot_key v t q = None
      | _ => True
      end
      ∧ stores_new_keys h' (play_piece p c)
  end.

Section Overlap.
Import FastCache.

(** The two parts of a metadata lookup make up the call. *)
Lemma get_cached_metadata_parts gcs_cache video_id timestamp c :
  get_cached_metadata gcs_cache video_id timestamp c
  = match PyDict.get (metadata_key video_id timestamp) (metadata_cache c) with
    | Some metadata => (Some metadata, c)
    | None =>
        get_cached_metadata_gcs video_id timestamp
          (cached_metadata gcs_cache video_id timestamp) c
    end.
Proof. reflexivity. Qed.

(** A call that runs without another in between is a history of one or
    two pieces. *)
Lemma exec_is_history (op : call) (c : FastCache) :
  ∃ h, play h c = (exec op c).2.
Proof.
  destruct op as [v t q data|gcs v t q|v t md|gcs v t].
  - by exists [StoreRuns v t q data].
  - destruct (get_screenshot_memory (screenshot_key v t q) c) as [r|] eqn:Hm.
    + exists [LookupStarts v t q]. cbn [play foldl play_piece exec].
      unfold get_screenshot. rewrite Hm. by destruct r as [[?|?] ?].
    + exists [LookupStarts v t q; LookupResumes v t q (cached_screenshot gcs v t q)].
      cbn [play foldl play_piece exec]. unfold get_screenshot. rewrite Hm.
      by destruct (get_screenshot_gcs _ _ _) as [[?|?] ?].
  - by exists [StoreMetadataRuns v t md].
  - cbn [exec snd]. rewrite get_cached_metadata_parts.
    destruct (PyDict.get _ _) as [m|].
    + by exists [].
    + by exists [MetadataLookupResumes v t (cached_metadata gcs v t)].
Qed.

Lemma play_app h1 h2 c : play (h1 ++ h2) c = play h2 (play h1 c).
Proof. apply foldl_app. Qed.

Lemma run_is_history (ops : list call) : ∀ c, ∃ h, play h c = run ops c.
Proof.
  induction ops as [|op ops IH]; intros c; [by exists []|].
  destruct (exec_is_history op c) as [h1 H1].
  destruct (IH (exec op c).2) as [h2 H2].
  exists (h1 ++ h2). rewrite play_app, H1. exact H2.
Qed.

(** Overlapping calls keep the blob dict within its capacity and every key
    of it in the access order. *)
Lemma play_piece_memory_ok (p : piece) (c : FastCache) :
  memory_ok c → memory_ok (play_piece p c).
Proof.
  intros Hok.
  destruct p as [v t q data|v t q|v t q image_data|v t md|v t md]; cbn [play_piece].
  - unfold store_screenshot.
    by destruct (store_in_memory_ok (screenshot_key v t q) data c (proj2 Hok))
      as (c' & -> & Hok' & _).
  - destruct (memory_cache c !! screenshot_key v t q) as [data|] eqn:Hlk.
    + by destruct (get_screenshot_memory_hit v t q data c Hok Hlk) as (c' & -> & Hok' & _).
    + unfold get_screenshot_memory. by rewrite Hlk.
  - destruct Hok as [Hsz Htr]. unfold get_screenshot_gcs.
    destruct image_data as [[|b data]|]; [by split| |by split].
    by destruct (store_in_memory_ok (screenshot_key v t q) (b :: data) c Htr)
      as (c' & -> & Hok' & _).
  - exact Hok.
  - unfold get_cached_metadata_gcs. by destruct (truthy md).
Qed.

Lemma play_memory_ok (h : list piece) : ∀ c, memory_ok c → memory_ok (play h c).
Proof.
  induction h as [|p h IH]; intros c Hok; [done|].
  cbn [play foldl]. by apply IH, play_piece_memory_ok.
Qed.

Lemma play_piece_exact (p : piece) (c : FastCache) :
  access_order_exact c →
  (size (memory_cache c) ≤ max_memory_items)%nat →
  match p with
  | StoreRuns v t q _ | LookupResumes v t q (Some (_ :: _)) =>
      memory_cache c !! screenshot_key v t q = None
  | _ => True
  end →
  access_order_exact (play_piece p c)
  ∧ (size (memory_cache (play_piece p c)) ≤ max_memory_items)%nat.
Proof.
  intros Hex Hsz Hnew.
  destruct p as [v t q data|v t q|v t q [[|b data]|]|v t md|v t md]; cbn [play_piece].
  - unfold store_screenshot.
    destruct (store_new_key_exact (screenshot_key v t q) data c Hex Hsz Hnew)
      as (c' & -> & Hex' & Hsz' & _). by split.
  - destruct (memory_cache c !! screenshot_key v t q) as [data|] eqn:Hlk.
    + destruct (memory_hit_moves_key_to_end_aux empty_tier v t q data c Hex Hlk)
        as (c' & Hget & Hmc & _ & Hex').
      unfold get_screenshot in Hget.
      destruct (get_screenshot_memory (screenshot_key v t q) c) as [r|] eqn:Hm.
      * subst r. cbn [snd]. split; [done | by rewrite Hmc].
      * unfold get_screenshot_memory in Hm. by rewrite Hlk in Hm.
    + unfold get_screenshot_memory. rewrite Hlk. by split.
  - by split.
  - unfold get_screenshot_gcs.
    destruct (store_new_key_exact (screenshot_key v t q) (b :: data) c Hex Hsz Hnew)
      as (c' & -> & Hex' & Hsz' & _). by split.
  - by split.
  - by split.
  - unfold get_cached_metadata_gcs. destruct (truthy md); by split.
Qed.

(** X1: on every history from a fresh cache, with lookups that overlap in
    any way, in which each store (by [store_screenshot] or by a lookup that
    got a blob from the durable tier) finds its key absent from the blob
    dict, the access order holds each key of the blob dict exactly once and
    no other key, and the dict is within its capacity. *)
Theorem access_order_exact_without_restore (h : list piece) :
  stores_new_keys h init →
  access_order_exact (play h init)
  ∧ (size (memory_cache (play h init)) ≤ max_memory_items)%nat.
Proof.
  assert (∀ c, access_order_exact c →
               (size (memory_cache c) ≤ max_memory_items)%nat →
               stores_new_keys h c →
               access_order_exact (play h c)
               ∧ (size (memory_cache (play h c)) ≤ max_memory_items)%nat) as Hgen.
  { induction h as [|p h IH]; intros c Hex Hsz Hnew; [by split|].
    destruct Hnew as [Hnew Hrest]. cbn [play foldl].
    destruct (play_piece_exact p c Hex Hsz Hnew) as [Hex' Hsz'].
    by apply IH. }
  intros Hnew. apply Hgen; [| |done].
  - unfold access_order_exact. simpl. by rewrite dom_empty_L, elements_empty.
  - simpl. rewrite map_size_empty. lia.
Qed.

(** A blob stored, then two lookups of other keys that overlap and resume
    in the opposite order, with a memory hit in between. *)
Definition overlapping_lookups : list piece :=
  [ StoreRuns "abc12345678" 90 "high" png_magic;
    LookupStarts "abc12345678" 90 "medium";
    LookupStarts "abc12345678" 90 "low";
    LookupResumes "abc12345678" 90 "low" (Some png_magic);
    LookupStarts "abc12345678" 90 "high";
    LookupResumes "abc12345678" 90 "medium" (Some png_magic) ].

Lemma access_order_exact_without_restore_witness :
  stores_new_keys overlapping_lookups init
  ∧ access_order_exact (play overlapping_lookups init)
  ∧ (size (memory_cache (play overlapping_lookups init)) ≤ max_memory_items)%nat.
Proof.
  assert (stores_new_keys overlapping_lookups init) as Hnew.
  { simpl. split_and!; try done; by vm_compute. }
  split; [exact Hnew|].
  exact (access_order_exact_without_restore overlapping_lookups Hnew).
Defined.

(** Two lookups of one key that overlap: both miss the memory, both store
    the answer of the durable tier, and the key stands twice in the access
    order.  The second store finds its key in the dict. *)
Example overlapping_lookups_of_one_key :
  let h := [ LookupStarts "abc12345678" 90 "high";
             LookupStarts "abc12345678" 90 "high";
             LookupResumes "abc12345678" 90 "high" (Some png_magic);
             LookupResumes "abc12345678" 90 "high" (Some png_magic) ] in
  access_order (play h init) = ["abc12345678_90_high"; "abc12345678_90_high"]
  ∧ size (memory_cache (play h init)) = 1%nat
  ∧ ¬ stores_new_keys h init.
Proof.
  cbv zeta. split_and!; [by vm_compute | by vm_compute |].
  simpl. intros (_ & _ & _ & Hlast & _). vm_compute in Hlast. discriminate.
Qed.

End Overlap.

Section LruUse.
Import FastCache.

(** A blob dict filled to capacity by a hundred stores under different
    keys, with the access order in the order of the stores. *)
Definition hundred_keys : list string :=
  (λ i : nat, screenshot_key "abc12345678" (Z.of_nat i) "high") <$> seq 0 100.

Definition full_cache : FastCache :=
  {| memory_cache := list_to_map ((λ k, (k, png_magic)) <$> hundred_keys);
     metadata_cache := [];
     cache_stats := {| hits := 0; misses := 0; memory_hits := 0; gcs_hits := 0 |};
     access_order := hundred_keys |}.

Lemma full_cache_exact :
  access_order_exact full_cache ∧ size (memory_cache full_cache) = max_memory_items.
Proof.
  split; [|by vm_compute].
  apply access_order_exact_iff. unfold full_cache. cbn [access_order memory_cache]. split.
  - apply (bool_decide_unpack _). by vm_compute.
  - intros k. rewrite dom_list_to_map_L, elem_of_list_to_set.
    rewrite <- list_fmap_compose. by rewrite list_fmap_id.
Qed.

Lemma store_evicts_least_recently_used_witness :
  ∃ oldest rest c',
    access_order full_cache = oldest :: rest
    ∧ _store_in_memory "abc12345678_100_high" png_magic full_cache = (Returns (), c')
    ∧ memory_cache c'
      = <["abc12345678_100_high" := png_magic]> (delete oldest (memory_cache full_cache))
    ∧ access_order c' = rest ++ ["abc12345678_100_high"]
    ∧ size (memory_cache c') = max_memory_items
    ∧ access_order_exact c'.
Proof.
  apply (store_evicts_least_recently_used "abc12345678_100_high" png_magic full_cache).
  - exact (proj1 full_cache_exact).
  - exact (proj2 full_cache_exact).
  - by vm_compute.
Defined.

Lemma memory_hit_moves_key_to_end_witness :
  ∃ before after c',
    access_order (run store_twice init)
    = before ++ (screenshot_key "abc12345678" 90 "high" :: after)
    ∧ (screenshot_key "abc12345678" 90 "high" ∉ before)
    ∧ get_screenshot empty_tier "abc12345678" 90 "high" (run store_twice init)
      = (Returns (Some png_magic), c')
    ∧ memory_cache c' = memory_cache (run store_twice init)
    ∧ cache_stats c' = count_memory_hit (cache_stats (run store_twice init))
    ∧ access_order c' = before ++ after ++ [screenshot_key "abc12345678" 90 "high"]
    ∧ (NoDup (access_order (run store_twice init)) →
       access_order c'
       = filter (λ k, k ≠ screenshot_key "abc12345678" 90 "high")
           (access_order (run store_twice init))
         ++ [screenshot_key "abc12345678" 90 "high"]).
Proof.
  apply (memory_hit_moves_key_to_end empty_tier "abc12345678" 90 "high" png_magic
           (run store_twice init)).
  - apply run_memory_ok, init_memory_ok.
  - by vm_compute.
Defined.

(** After the two stores of [store_twice] the key stands twice in the
    access order, and a memory hit leaves it twice. *)
Example memory_hit_on_repeated_key :
  access_order (run store_twice init) = ["abc12345678_90_high"; "abc12345678_90_high"]
  ∧ access_order
      (get_screenshot empty_tier "abc12345678" 90 "high" (run store_twice init)).2
    = ["abc12345678_90_high"; "abc12345678_90_high"].
Proof. split; by vm_compute. Qed.

Lemma access_order_length (c : FastCache) :
  access_order_exact c → length (access_order c) = size (memory_cache c).
Proof.
  intros Hex. unfold access_order_exact in Hex.
  rewrite (Permutation_length Hex). rewrite <- size_dom. reflexivity.
Qed.

(** X4: a blob that has just been read from memory survives the next store
    of a new key, also when that store finds the dict full: the lookup has
    moved its key away from the end that is evicted. *)
Theorem read_blob_survives_next_store
    gcs_cache video_id timestamp quality data new_key new_data c :
  access_order_exact c →
  (2 ≤ size (memory_cache c) ≤ max_memory_items)%nat →
  memory_cache c !! screenshot_key video_id timestamp quality = Some data →
  memory_cache c !! new_key = None →
  ∃ c1 c2,
    get_screenshot gcs_cache video_id timestamp quality c = (Returns (Some data), c1)
    ∧ _store_in_memory new_key new_data c1 = (Returns (), c2)
    ∧ memory_cache c2 !! screenshot_key video_id timestamp quality = Some data
    ∧ memory_cache c2 !! new_key = Some new_data.
Proof.
  intros Hex [Hsz2 Hsz] Hlk Hnew.
  set (key := screenshot_key video_id timestamp quality) in *.
  destruct (memory_hit_moves_key_to_end_aux gcs_cache video_id timestamp quality data c Hex Hlk)
    as (c1 & Hget & Hmc1 & Hao1 & Hex1).
  fold key in Hget, Hao1.
  assert (key ≠ new_key) as Hne by (intros ->; congruence).
  exists c1.
  destruct (decide (size (memory_cache c1) = max_memory_items)) as [Hfull|Hnf].
  - destruct (store_evicts_least_recently_used_aux new_key new_data c1 Hex1 Hfull)
      as (oldest & rest & c2 & Hao & Hst & Hmc2 & _); [by rewrite Hmc1|].
    exists c2. split_and!; [done | done | |].
    + rewrite Hmc2, lookup_insert_ne by done.
      assert (oldest ≠ key) as Hok.
      { intros ->. rewrite Hao1 in Hao.
        destruct (filter (λ k, k ≠ key) (access_order c)) as [|k0 l] eqn:Hf.
        - pose proof (access_order_length c1 Hex1) as Hlen.
          rewrite Hao1, Hmc1 in Hlen. simpl in Hlen. lia.
        - simpl in Hao. injection Hao as Hk0 _.
          assert (k0 ∈ filter (λ k, k ≠ key) (access_order c)) as Hin.
          { rewrite Hf. apply elem_of_cons. by left. }
          apply list_elem_of_filter in Hin as [Hk0ne _]. done. }
      rewrite lookup_delete_ne by done. by rewrite Hmc1.
    + rewrite Hmc2. apply lookup_insert_eq.
  - rewrite store_new_key_below_capacity by (rewrite Hmc1 in *; lia).
    eexists. split_and!; [done | reflexivity | |]; simpl.
    + rewrite lookup_insert_ne by done. by rewrite Hmc1.
    + apply lookup_insert_eq.
Qed.

Lemma read_blob_survives_next_store_witness :
  ∃ c1 c2,
    get_screenshot empty_tier "abc12345678" 0 "high" full_cache
      = (Returns (Some png_magic), c1)
    ∧ _store_in_memory "abc12345678_100_high" png_magic c1 = (Returns (), c2)
    ∧ memory_cache c2 !! screenshot_key "abc12345678" 0 "high" = Some png_magic
    ∧ memory_cache c2 !! "abc12345678_100_high" = Some png_magic.
Proof.
  apply (read_blob_survives_next_store empty_tier "abc12345678" 0 "high" png_magic
           "abc12345678_100_high" png_magic full_cache).
  - exact (proj1 full_cache_exact).
  - rewrite (proj2 full_cache_exact). unfold max_memory_items. lia.
  - by vm_compute.
  - by vm_compute.
Defined.

End LruUse.

(** ** Counters, fall-through and the metadata tier *)
Section CountersAndFallThrough.
Import FastCache.

(** The number of [get_screenshot] calls of a run. *)
Fixpoint lookups (ops : list call) : Z :=
  match ops with
  | [] => 0
  | GetScreenshot _ _ _ _ :: ops' => 1 + lookups ops'
  | _ :: ops' => lookups ops'
  end.

(** A lookup in a state that is in order returns and moves exactly one of
    the three outcome counters. *)
Lemma get_screenshot_counts gcs v t q c :
  memory_ok c →
  ∃ r c',
    get_screenshot gcs v t q c = (Returns r, c')
    ∧ memory_ok c'
    ∧ (cache_stats c' = count_memory_hit (cache_stats c)
       ∨ cache_stats c' = count_gcs_hit (cache_stats c)
       ∨ cache_stats c' = count_miss (cache_stats c)).
Proof.
  intros [Hsz Htr]. unfold get_screenshot, get_screenshot_memory.
  destruct (memory_cache c !! screenshot_key v t q) as [data|] eqn:Hlk.
  - assert (screenshot_key v t q ∈ access_order c) as Hin.
    { apply Htr, elem_of_dom. eauto. }
    simpl. destruct (deque_remove_ok _ _ Hin) as (d' & -> & Hd').
    eexists _, _. split; [reflexivity|]. split; [|by left].
    split; simpl; [done|]. intros k Hk. apply Hd'. by apply Htr.
  - unfold get_screenshot_gcs.
    destruct (cached_screenshot gcs v t q) as [[|b data]|].
    + eexists _, _. split; [reflexivity|]. split; [by split | by right; right].
    + destruct (store_in_memory_ok (screenshot_key v t q) (b :: data) c Htr)
        as (c' & -> & [Hsz' Htr'] & _ & _ & Hst).
      eexists _, _. split; [reflexivity|]. split; [by split|].
      right; left. simpl. by rewrite Hst.
    + eexists _, _. split; [reflexivity|]. split; [by split | by right; right].
Qed.

Lemma lookups_snoc ops op :
  lookups (ops ++ [op])
  = lookups ops + match op with GetScreenshot _ _ _ _ => 1 | _ => 0 end.
Proof.
  induction ops as [|o ops IH].
  - destruct op; simpl; lia.
  - destruct o; simpl; rewrite IH; lia.
Qed.

(** X5: on every run from a fresh cache each [get_screenshot] call is
    counted exactly once, as a hit or as a miss, and every hit is counted
    exactly once as a memory hit or as a durable hit: [hits + misses] is the
    number of lookups made and [hits = memory_hits + gcs_hits]; stores and
    metadata calls leave the counters alone. *)
Theorem counters_account_for_every_lookup (ops : list call) :
  let st := cache_stats (run ops init) in
  hits st + misses st = lookups ops
  ∧ hits st = memory_hits st + gcs_hits st
  ∧ 0 ≤ misses st ∧ 0 ≤ memory_hits st ∧ 0 ≤ gcs_hits st.
Proof.
  cbv zeta. induction ops as [|op ops IH] using rev_ind.
  - by vm_compute.
  - rewrite run_app, lookups_snoc. cbn [run foldl].
    pose proof (run_memory_ok ops init init_memory_ok) as Hok.
    set (c := run ops init) in *.
    destruct IH as (Hsum & Hhits & Hm & Hmh & Hgh).
    destruct op as [v t q data|gcs v t q|v t md|gcs v t]; cbn [exec].
    + unfold store_screenshot.
      destruct (store_in_memory_ok (screenshot_key v t q) data c (proj2 Hok))
        as (c' & -> & _ & _ & _ & Hst).
      cbn [snd]. rewrite Hst. split_and!; [lia | done..].
    + destruct (get_screenshot_counts gcs v t q c Hok) as (r & c' & -> & _ & Hst).
      cbn [snd]. destruct Hst as [-> | [-> | ->]]; simpl; split_and!; lia.
    + simpl. split_and!; [lia | done..].
    + cbn [snd].
      assert (cache_stats (get_cached_metadata gcs v t c).2 = cache_stats c) as ->.
      { unfold get_cached_metadata. destruct (PyDict.get _ _); [done|].
        by destruct (truthy _). }
      split_and!; [lia | done..].
Qed.

Lemma durable_hit_fills_memory_aux gcs_cache later_tier video_id timestamp quality b data c :
  memory_ok c →
  memory_cache c !! screenshot_key video_id timestamp quality = None →
  cached_screenshot gcs_cache video_id timestamp quality = Some (b :: data) →
  ∃ c1 c2,
    get_screenshot gcs_cache video_id timestamp quality c = (Returns (Some (b :: data)), c1)
    ∧ cache_stats c1 = count_gcs_hit (cache_stats c)
    ∧ memory_cache c1 !! screenshot_key video_id timestamp quality = Some (b :: data)
    ∧ get_screenshot later_tier video_id timestamp quality c1
      = (Returns (Some (b :: data)), c2)
    ∧ cache_stats c2 = count_memory_hit (cache_stats c1).
Proof.
  intros [Hsz Htr] Hmiss Hgcs.
  unfold get_screenshot at 1. unfold get_screenshot_memory, get_screenshot_gcs.
  rewrite Hmiss, Hgcs.
  destruct (store_in_memory_ok (screenshot_key video_id timestamp quality) (b :: data) c Htr)
    as (c' & -> & [Hsz' Htr'] & Hlk & _ & Hst).
  assert (screenshot_key video_id timestamp quality ∈ access_order c') as Hin.
  { apply Htr', elem_of_dom. eauto. }
  destruct (deque_remove_ok _ _ Hin) as (d' & Hrem & _).
  eexists _, _. split; [reflexivity|]. simpl. split_and!.
  - by rewrite Hst.
  - done.
  - unfold get_screenshot, get_screenshot_memory. simpl. rewrite Hlk. simpl.
    rewrite Hrem. reflexivity.
  - done.
Qed.

(** X6: a lookup that misses memory and gets a non-empty blob from the
    durable tier returns that blob, counts a durable hit and keeps the blob
    in memory: the next lookup of the key returns the same bytes as a
    memory hit, whatever the durable tier then holds. *)
Theorem durable_hit_fills_memory gcs_cache later_tier video_id timestamp quality b data c :
  memory_ok c →
  memory_cache c !! screenshot_key video_id timestamp quality = None →
  cached_screenshot gcs_cache video_id timestamp quality = Some (b :: data) →
  ∃ c1 c2,
    get_screenshot gcs_cache video_id timestamp quality c = (Returns (Some (b :: data)), c1)
    ∧ cache_stats c1 = count_gcs_hit (cache_stats c)
    ∧ memory_cache c1 !! screenshot_key video_id timestamp quality = Some (b :: data)
    ∧ get_screenshot later_tier video_id timestamp quality c1
      = (Returns (Some (b :: data)), c2)
    ∧ cache_stats c2 = count_memory_hit (cache_stats c1).
Proof. exact (durable_hit_fills_memory_aux gcs_cache later_tier video_id timestamp quality b data c). Qed.

Lemma durable_hit_fills_memory_witness :
  ∃ c1 c2,
    get_screenshot (GCSCache.tier JsonRead.loads reliable 3600000000 day_old_bucket)
      "abc12345678" 90 "high" init = (Returns (Some png_magic), c1)
    ∧ cache_stats c1 = count_gcs_hit (cache_stats init)
    ∧ memory_cache c1 !! screenshot_key "abc12345678" 90 "high" = Some png_magic
    ∧ get_screenshot empty_tier "abc12345678" 90 "high" c1
      = (Returns (Some png_magic), c2)
    ∧ cache_stats c2 = count_memory_hit (cache_stats c1).
Proof.
  apply (durable_hit_fills_memory
           (GCSCache.tier JsonRead.loads reliable 3600000000 day_old_bucket) empty_tier
           "abc12345678" 90 "high" Byte.x89 [Byte.x50; Byte.x4e; Byte.x47] init).
  - exact init_memory_ok.
  - reflexivity.
  - by vm_compute.
Defined.

(** X7: metadata stored with [store_metadata] is what the next
    [get_cached_metadata] of the same video and timestamp returns, also
    when it is the empty list and whatever the durable tier holds; the
    lookup changes nothing. *)
Theorem store_then_get_metadata gcs_cache video_id timestamp metadata c :
  get_cached_metadata gcs_cache video_id timestamp
    (store_metadata video_id timestamp metadata c)
  = (Some metadata, store_metadata video_id timestamp metadata c).
Proof.
  unfold get_cached_metadata, store_metadata. simpl.
  by rewrite pydict_get_set_eq.
Qed.

Lemma get_cached_metadata_miss gcs_cache video_id timestamp c :
  PyDict.get (metadata_key video_id timestamp) (metadata_cache c) = None →
  (get_cached_metadata gcs_cache video_id timestamp c).1
    = cached_metadata gcs_cache video_id timestamp
  ∧ (truthy (cached_metadata gcs_cache video_id timestamp) = true →
     PyDict.get (metadata_key video_id timestamp)
       (metadata_cache (get_cached_metadata gcs_cache video_id timestamp c).2)
     = cached_metadata gcs_cache video_id timestamp)
  ∧ (truthy (cached_metadata gcs_cache video_id timestamp) = false →
     (get_cached_metadata gcs_cache video_id timestamp c).2 = c).
Proof.
  intros Hmiss. unfold get_cached_metadata. rewrite Hmiss.
  destruct (cached_metadata gcs_cache video_id timestamp) as [[|d ds]|];
    [by split_and! | | by split_and!].
  cbn [truthy default fst snd]. split_and!; [done | | done]. intros _.
  set (key := metadata_key video_id timestamp) in *.
  case_bool_decide as Hover; cbn [metadata_cache with_metadata].
  - destruct (metadata_cache c) as [|[k0 v0] md] eqn:Hmd.
    { simpl in Hover. unfold max_metadata_items in Hover. lia. }
    simpl in Hmiss. destruct (decide (key = k0)) as [|Hne]; [done|].
    cbn [PyDict.set]. rewrite decide_False by done.
    cbn [PyDict.first_key PyDict.keys fmap list_fmap head fst].
    rewrite pydict_get_del_ne by (intros Heq; by apply Hne).
    cbn [PyDict.get]. rewrite decide_False by done.
    apply pydict_get_set_eq.
  - apply pydict_get_set_eq.
Qed.

(** X8: on a memory miss [get_cached_metadata] passes on the answer of the
    durable tier; a non-empty answer is kept in memory and returned by the
    next lookup without the durable tier, while [None] and the empty list
    leave the cache as it was. *)
Theorem durable_metadata_fall_through gcs_cache later_tier video_id timestamp c :
  PyDict.get (metadata_key video_id timestamp) (metadata_cache c) = None →
  let r := get_cached_metadata gcs_cache video_id timestamp c in
  r.1 = cached_metadata gcs_cache video_id timestamp
  ∧ (truthy r.1 = true →
     get_cached_metadata later_tier video_id timestamp r.2 = (r.1, r.2))
  ∧ (truthy r.1 = false → r.2 = c).
Proof.
  intros Hmiss. cbv zeta.
  destruct (get_cached_metadata_miss gcs_cache video_id timestamp c Hmiss)
    as (Hr & Hkept & Hsame).
  rewrite Hr. split_and!; [done | | done].
  intros Htruthy. specialize (Hkept Htruthy).
  unfold get_cached_metadata at 1. rewrite Hkept.
  destruct (cached_metadata gcs_cache video_id timestamp); done.
Qed.

(** A durable tier that holds the metadata of the sample video. *)
Definition metadata_tier : DurableTier :=
  {| cached_screenshot := λ _ _ _, None; cached_metadata := λ _ _, Some sample_metadata |}.

Lemma durable_metadata_fall_through_witness :
  let r := get_cached_metadata metadata_tier "abc12345678" 90 init in
  r.1 = Some sample_metadata
  ∧ (truthy r.1 = true →
     get_cached_metadata empty_tier "abc12345678" 90 r.2 = (r.1, r.2))
  ∧ (truthy r.1 = false → r.2 = init).
Proof.
  apply (durable_metadata_fall_through metadata_tier empty_tier "abc12345678" 90 init).
  reflexivity.
Defined.

End CountersAndFallThrough.

(** ** The stream cache under any sequence of calls *)

(** A call on the shared [stream_cache], with the reading of the clock it
    makes. *)
Inductive stream_call :=
  | CacheStreams (video_id : string) (new_streams : Streams) (now : Z)
  | GetStreams (video_id : string) (now : Z).

Definition stream_exec (op : stream_call) (cache : list (string * StreamEntry))
    : list (string * StreamEntry) :=
  match op with
  | CacheStreams v s now => (StreamCache.cache_streams v s now cache).2
  | GetStreams v now => (StreamCache.get_streams v now cache).2
  end.

Definition stream_run (ops : list stream_call) (cache : list (string * StreamEntry))
    : list (string * StreamEntry) :=
  foldl (λ c op, stream_exec op c) cache ops.

(** [get_multiple_quality_streams_cached] (src/app.py).  The extraction of
    the video id from the URL and the resolver that runs the external tool
    are parameters; the clock is read once by [get_streams] and once by
    [cache_streams]. *)
Definition get_multiple_quality_streams_cached
    (extract_video_id : string → option string)
    (get_multiple_quality_streams : string → outcome Streams)
    (now_get now_put : Z) (video_url : string) (cache : list (string * StreamEntry))
    : outcome Streams * list (string * StreamEntry) :=
  match extract_video_id video_url with
  | None => (Raises ValueError, cache)
  | Some video_id =>
      let r := StreamCache.get_streams video_id now_get cache in
      if truthy r.1 then (Returns (default [] r.1), r.2)
      else
        match get_multiple_quality_streams video_url with
        | Raises e => (Raises e, r.2)
        | Returns new_streams =>
            if bool_decide (video_id ≠ "") && truthy (Some new_streams) then
              match StreamCache.cache_streams video_id new_streams now_put r.2 with
              | (Returns _, cache') => (Returns new_streams, cache')
              | (Raises e, cache') => (Raises e, cache')
              end
            else (Returns new_streams, r.2)
        end
  end.

(** The calls that do not cache [video_id] again. *)
Definition not_recached (video_id : string) (op : stream_call) : Prop :=
  match op with
  | CacheStreams v _ _ => v ≠ video_id
  | GetStreams _ _ => True
  end.

(** The lookups of [video_id] come less than 30 minutes after
    [cached_at]. *)
Definition looked_up_in_time (video_id : string) (cached_at : Z) (op : stream_call) : Prop :=
  match op with
  | CacheStreams _ _ _ => True
  | GetStreams v now => v = video_id → now - cached_at < StreamCache.cache_duration
  end.

(** The number of [cache_streams] calls. *)
Fixpoint insertions (ops : list stream_call) : nat :=
  match ops with
  | [] => 0
  | CacheStreams _ _ _ :: ops' => S (insertions ops')
  | GetStreams _ _ :: ops' => insertions ops'
  end.

Section StreamCacheRuns.
Import StreamCache.

Lemma pydict_keys_set {V : Type} (k : string) (v : V) (d : list (string * V)) :
  PyDict.keys (PyDict.set k v d)
  = if PyDict.contains k d then PyDict.keys d else PyDict.keys d ++ [k].
Proof.
  unfold PyDict.contains, PyDict.keys. induction d as [|[k' v'] d IH]; [done|].
  cbn [PyDict.set PyDict.get]. destruct (decide (k = k')) as [->|Hne]; [done|].
  rewrite !fmap_cons, IH. by destruct (PyDict.get k d).
Qed.

Lemma pydict_set_NoDup {V : Type} (k : string) (v : V) (d : list (string * V)) :
  NoDup (PyDict.keys d) → NoDup (PyDict.keys (PyDict.set k v d)).
Proof.
  intros Hnd. rewrite pydict_keys_set. unfold PyDict.contains.
  destruct (PyDict.get k d) eqn:Hg; [done|].
  apply NoDup_app. split_and!; [done | | apply NoDup_singleton].
  intros x Hx Hx'. apply list_elem_of_singleton in Hx' as ->.
  by apply pydict_get_None_keys in Hg.
Qed.

Lemma pydict_keys_del_sublist {V : Type} (k : string) (d : list (string * V)) :
  sublist (PyDict.keys (PyDict.del k d)) (PyDict.keys d).
Proof.
  unfold PyDict.keys. induction d as [|[k' v'] d IH]; [done|].
  cbn [PyDict.del]. destruct (decide (k = k')).
  - rewrite fmap_cons. by apply sublist_cons.
  - rewrite !fmap_cons. by apply sublist_skip.
Qed.

Lemma pydict_del_NoDup {V : Type} (k : string) (d : list (string * V)) :
  NoDup (PyDict.keys d) → NoDup (PyDict.keys (PyDict.del k d)).
Proof. intros Hnd. eapply sublist_NoDup; [done | apply pydict_keys_del_sublist]. Qed.

(** [cache_streams] never raises: the scan for the oldest entry runs on a
    cache of at least [max_items] entries. *)
Lemma cache_streams_returns video_id new_streams now cache :
  (cache_streams video_id new_streams now cache).1 = Returns ().
Proof.
  unfold cache_streams. case_bool_decide as Hfull; [|done].
  destruct cache as [|[k0 e0] cache']; [|done].
  simpl in Hfull. unfold max_items in Hfull. lia.
Qed.

Lemma cache_streams_invariant video_id new_streams now cache :
  NoDup (PyDict.keys cache) →
  (length cache ≤ max_items)%nat →
  NoDup (PyDict.keys (cache_streams video_id new_streams now cache).2)
  ∧ (length (cache_streams video_id new_streams now cache).2 ≤ max_items)%nat.
Proof.
  intros Hnd Hlen.
  destruct (decide (max_items ≤ length cache)%nat) as [Hfull|Hnf].
  - destruct (cache_streams_at_capacity video_id new_streams now cache Hfull)
      as (oldest_key & oldest & Hold & _ & ->).
    cbn [snd]. split.
    + by apply pydict_set_NoDup, pydict_del_NoDup.
    + assert (length (PyDict.del oldest_key cache) = pred (length cache)) as Hdel.
      { rewrite pydict_del_length. unfold PyDict.contains. by rewrite Hold. }
      rewrite pydict_set_length, Hdel.
      unfold max_items in *. destruct (PyDict.contains _ _); lia.
  - unfold cache_streams. rewrite bool_decide_eq_false_2 by done. cbn [snd]. split.
    + by apply pydict_set_NoDup.
    + rewrite pydict_set_length. destruct (PyDict.contains _ _); lia.
Qed.

Lemma get_streams_invariant video_id now cache :
  NoDup (PyDict.keys cache) →
  (length cache ≤ max_items)%nat →
  NoDup (PyDict.keys (get_streams video_id now cache).2)
  ∧ (length (get_streams video_id now cache).2 ≤ max_items)%nat.
Proof.
  intros Hnd Hlen. unfold get_streams.
  destruct (PyDict.get video_id cache) as [e|]; [|by split].
  case_bool_decide; [by split|]. cbn [snd]. split.
  - by apply pydict_del_NoDup.
  - rewrite pydict_del_length. destruct (PyDict.contains _ _); lia.
Qed.

(** X9: whatever calls are made on a stream cache that starts empty, it
    never holds more than 50 videos, never holds a video id twice, and
    [cache_streams] never raises. *)
Theorem stream_cache_bounded (ops : list stream_call) :
  (length (stream_run ops []) ≤ max_items)%nat
  ∧ NoDup (PyDict.keys (stream_run ops []))
  ∧ ∀ video_id new_streams now,
      (cache_streams video_id new_streams now (stream_run ops [])).1 = Returns ().
Proof.
  assert (NoDup (PyDict.keys (stream_run ops []))
          ∧ (length (stream_run ops []) ≤ max_items)%nat) as [Hnd Hlen].
  { induction ops as [|op ops IH] using rev_ind.
    - split; [apply NoDup_nil_2 | simpl; unfold max_items; lia].
    - unfold stream_run in *. rewrite foldl_app. cbn [foldl].
      destruct IH as [Hnd Hlen]. destruct op as [v s now|v now]; cbn [stream_exec].
      + by apply cache_streams_invariant.
      + by apply get_streams_invariant. }
  split_and!; [done | done |]. intros. apply cache_streams_returns.
Qed.

Lemma cache_streams_state video_id new_streams now cache :
  (cache_streams video_id new_streams now cache).2
  = PyDict.set video_id {| streams := new_streams; timestamp := now |} cache
  ∨ ∃ oldest_key,
      (max_items ≤ length cache)%nat
      ∧ (cache_streams video_id new_streams now cache).2
        = PyDict.set video_id {| streams := new_streams; timestamp := now |}
            (PyDict.del oldest_key cache).
Proof.
  destruct (decide (max_items ≤ length cache)%nat) as [Hfull|Hnf].
  - right. destruct (cache_streams_at_capacity video_id new_streams now cache Hfull)
      as (oldest_key & _ & _ & _ & ->). by exists oldest_key.
  - left. unfold cache_streams. by rewrite bool_decide_eq_false_2.
Qed.

Lemma cache_streams_NoDup video_id new_streams now cache :
  NoDup (PyDict.keys cache) →
  NoDup (PyDict.keys (cache_streams video_id new_streams now cache).2).
Proof.
  intros Hnd.
  destruct (cache_streams_state video_id new_streams now cache) as [->|(k & _ & ->)].
  - by apply pydict_set_NoDup.
  - by apply pydict_set_NoDup, pydict_del_NoDup.
Qed.

(** Calls that do not cache the video again leave its entry as it is or
    remove it. *)
Lemma entry_same_or_gone (video_id : string) (o : option StreamEntry)
    (ops : list stream_call) : ∀ cache,
  NoDup (PyDict.keys cache) →
  PyDict.get video_id cache = None ∨ PyDict.get video_id cache = o →
  Forall (not_recached video_id) ops →
  NoDup (PyDict.keys (stream_run ops cache))
  ∧ (PyDict.get video_id (stream_run ops cache) = None
     ∨ PyDict.get video_id (stream_run ops cache) = o).
Proof.
  induction ops as [|op ops IH]; intros cache Hnd Hget Hops; [by split|].
  apply Forall_cons in Hops as [Hop Hops]. cbn [stream_run foldl].
  apply IH; [| |done].
  - destruct op as [v s t|v t]; cbn [stream_exec].
    + by apply cache_streams_NoDup.
    + unfold get_streams. destruct (PyDict.get v cache); [|done].
      case_bool_decide; [done|]. by apply pydict_del_NoDup.
  - destruct op as [v s t|v t]; cbn [stream_exec].
    + simpl in Hop.
      destruct (cache_streams_state v s t cache) as [->|(oldest_key & _ & ->)].
      * by rewrite pydict_get_set_ne.
      * rewrite pydict_get_set_ne by done.
        destruct (decide (oldest_key = video_id)) as [->|Hne].
        -- left. by apply pydict_get_del_eq.
        -- by rewrite pydict_get_del_ne.
    + unfold get_streams. destruct (PyDict.get v cache) as [e|] eqn:He; [|done].
      case_bool_decide; [done|]. cbn [snd].
      destruct (decide (v = video_id)) as [->|Hne].
      * left. by apply pydict_get_del_eq.
      * by rewrite pydict_get_del_ne.
Qed.

(** As long as the cache does not fill up and the video is not looked up
    after its expiry, its entry stays. *)
Lemma entry_kept (video_id : string) (e : StreamEntry) (ops : list stream_call) :
  ∀ cache,
    PyDict.get video_id cache = Some e →
    Forall (not_recached video_id) ops →
    Forall (looked_up_in_time video_id (timestamp e)) ops →
    (length cache + insertions ops ≤ max_items)%nat →
    PyDict.get video_id (stream_run ops cache) = Some e.
Proof.
  induction ops as [|op ops IH]; intros cache Hget Hnot Hlook Hroom; [done|].
  apply Forall_cons in Hnot as [Hop Hnot]. apply Forall_cons in Hlook as [Hl Hlook].
  cbn [stream_run foldl]. destruct op as [v s t|v t]; cbn [stream_exec insertions] in *.
  - apply IH; [| done | done |].
    + unfold cache_streams. rewrite bool_decide_eq_false_2 by lia. cbn [snd].
      by rewrite pydict_get_set_ne.
    + unfold cache_streams. rewrite bool_decide_eq_false_2 by lia. cbn [snd].
      rewrite pydict_set_length. destruct (PyDict.contains _ _); lia.
  - apply IH; [| done | done |].
    + unfold get_streams. destruct (PyDict.get v cache) as [e'|] eqn:He'; [|done].
      case_bool_decide as Hfresh; [done|]. cbn [snd].
      destruct (decide (v = video_id)) as [->|Hne].
      * exfalso. rewrite Hget in He'. injection He' as <-. by apply Hfresh, Hl.
      * by rewrite pydict_get_del_ne.
    + unfold get_streams. destruct (PyDict.get v cache) as [e'|]; [|done].
      case_bool_decide; [done|]. cbn [snd].
      rewrite pydict_del_length. destruct (PyDict.contains _ _); lia.
Qed.

(** X10: streams cached for a video at time [now] and not cached again
    are returned by a [get_streams] made less than 30 minutes after [now],
    which leaves the cache as it is, whatever other calls came in between,
    provided none of them looked the video up 30 minutes or more after [now]
    and the cache did not fill up (its entries after the insertion and the
    insertions in between number at most 50, so that nothing was evicted).
    A [get_streams] made 30 minutes or more after [now] answers [None],
    whether the entry was evicted or is removed by this lookup, and so does
    every later lookup until the video is cached again. *)
Theorem cached_streams_live_thirty_minutes
    video_id new_streams now now' cache (ops : list stream_call) :
  NoDup (PyDict.keys cache) →
  Forall (not_recached video_id) ops →
  let cache1 := (cache_streams video_id new_streams now cache).2 in
  let cache2 := stream_run ops cache1 in
  (now' - now < cache_duration →
   Forall (looked_up_in_time video_id now) ops →
   (length cache1 + insertions ops ≤ max_items)%nat →
   get_streams video_id now' cache2 = (Some new_streams, cache2))
  ∧ (cache_duration ≤ now' - now →
     (get_streams video_id now' cache2).1 = None
     ∧ ∀ (ops' : list stream_call) later,
         Forall (not_recached video_id) ops' →
         get_streams video_id later (stream_run ops' (get_streams video_id now' cache2).2)
         = (None, stream_run ops' (get_streams video_id now' cache2).2)).
Proof.
  intros Hnd Hnot. cbv zeta.
  set (entry := {| streams := new_streams; timestamp := now |}).
  set (cache1 := (cache_streams video_id new_streams now cache).2).
  assert (NoDup (PyDict.keys cache1)) as Hnd1 by (by apply cache_streams_NoDup).
  assert (PyDict.get video_id cache1 = Some entry) as Hget1.
  { unfold cache1.
    destruct (cache_streams_state video_id new_streams now cache) as [->|(k & _ & ->)];
      apply pydict_get_set_eq. }
  split.
  - intros Hfresh Hlook Hroom.
    pose proof (entry_kept video_id entry ops cache1 Hget1 Hnot Hlook Hroom) as Hget2.
    unfold get_streams. rewrite Hget2. cbn [timestamp streams entry].
    by rewrite bool_decide_eq_true_2.
  - intros Hold.
    destruct (entry_same_or_gone video_id (Some entry) ops cache1 Hnd1 (or_intror Hget1) Hnot)
      as [Hnd2 Hget2].
    set (cache2 := stream_run ops cache1) in *.
    assert (NoDup (PyDict.keys (get_streams video_id now' cache2).2)
            ∧ (get_streams video_id now' cache2).1 = None
            ∧ PyDict.get video_id (get_streams video_id now' cache2).2 = None)
      as (Hnd3 & Hnone & Hget3).
    { unfold get_streams. destruct Hget2 as [Hg|Hg]; rewrite Hg; [by split_and!|].
      cbn [timestamp entry]. rewrite bool_decide_eq_false_2 by lia. cbn [fst snd].
      split_and!; [by apply pydict_del_NoDup | done | by apply pydict_get_del_eq]. }
    split; [done|]. intros ops' later Hnot'.
    destruct (entry_same_or_gone video_id None ops' _ Hnd3 (or_introl Hget3) Hnot')
      as [_ Hget4].
    unfold get_streams at 1. by destruct Hget4 as [->| ->].
Qed.

(** Another video cached, the first looked up, a video that is not cached
    looked up. *)
Definition calls_in_between : list stream_call :=
  [ CacheStreams "video_00001" sample_streams 5000000;
    GetStreams "abc12345678" 10000000;
    GetStreams "video_00002" 20000000 ].

Lemma cached_streams_live_thirty_minutes_witness :
  let cache1 := (cache_streams "abc12345678" sample_streams 0 []).2 in
  let cache2 := stream_run calls_in_between cache1 in
  get_streams "abc12345678" 1799999999 cache2 = (Some sample_streams, cache2)
  ∧ (get_streams "abc12345678" 1800000000 cache2).1 = None
  ∧ ∀ (ops' : list stream_call) later,
      Forall (not_recached "abc12345678") ops' →
      get_streams "abc12345678" later
        (stream_run ops' (get_streams "abc12345678" 1800000000 cache2).2)
      = (None, stream_run ops' (get_streams "abc12345678" 1800000000 cache2).2).
Proof.
  assert (Forall (not_recached "abc12345678") calls_in_between) as Hnot.
  { repeat first [apply Forall_nil | apply Forall_cons; split]; simpl; done. }
  cbv zeta. split.
  - apply (proj1 (cached_streams_live_thirty_minutes "abc12345678" sample_streams 0
                    1799999999 [] calls_in_between NoDup_nil_2 Hnot)).
    + unfold cache_duration. lia.
    + repeat first [apply Forall_nil | apply Forall_cons; split]; simpl; try done;
        intros _; unfold cache_duration; lia.
    + vm_compute. lia.
  - apply (proj2 (cached_streams_live_thirty_minutes "abc12345678" sample_streams 0
                    1800000000 [] calls_in_between NoDup_nil_2 Hnot)).
    unfold cache_duration. lia.
Defined.

(** Fifty other videos cached within a minute fill the cache and evict the
    entry: the lookup answers [None] long before the 30 minutes are over. *)
Example fifty_other_videos_evict :
  let cache1 := (cache_streams "abc12345678" sample_streams 0 []).2 in
  let ops := (λ x : string * Streams * Z, CacheStreams x.1.1 x.1.2 x.2) <$> sample_inserts in
  Forall (not_recached "abc12345678") ops
  ∧ insertions ops = 50%nat
  ∧ get_streams "abc12345678" 60000000 (stream_run ops cache1)
    = (None, stream_run ops cache1).
Proof.
  cbv zeta. split_and!.
  - apply Forall_fmap, Forall_forall. intros x Hx. simpl.
    apply list_elem_of_fmap in Hx as (i & -> & _). simpl.
    unfold sample_video_id. discriminate.
  - by vm_compute.
  - by vm_compute.
Qed.

Lemma get_multiple_quality_streams_cached_miss
    (extract_video_id : string → option string) (resolve : string → outcome Streams)
    (now_get now_put : Z) (video_url video_id : string) (new_streams : Streams)
    (cache : list (string * StreamEntry)) :
  extract_video_id video_url = Some video_id →
  video_id ≠ "" →
  truthy (get_streams video_id now_get cache).1 = false →
  resolve video_url = Returns new_streams →
  get_multiple_quality_streams_cached extract_video_id resolve
    now_get now_put video_url cache
  = (Returns new_streams,
     match new_streams with
     | [] => (get_streams video_id now_get cache).2
     | _ :: _ =>
         (cache_streams video_id new_streams now_put (get_streams video_id now_get cache).2).2
     end).
Proof.
  intros Hid Hne Hmiss Hres. unfold get_multiple_quality_streams_cached.
  rewrite Hid, Hmiss, Hres. rewrite bool_decide_eq_true_2 by done.
  destruct new_streams as [|s0 ss]; cbn [truthy andb]; [done|].
  pose proof (cache_streams_returns video_id (s0 :: ss) now_put
                (get_streams video_id now_get cache).2) as Hret.
  destruct (cache_streams video_id (s0 :: ss) now_put (get_streams video_id now_get cache).2)
    as [o cache'].
  simpl in Hret. by subst o.
Qed.

Lemma get_multiple_quality_streams_cached_hit
    (extract_video_id : string → option string) (resolve : string → outcome Streams)
    (now_get now_put : Z) (video_url video_id : string) (s0 : string * list (string * json))
    (ss : Streams) (cache : list (string * StreamEntry)) :
  extract_video_id video_url = Some video_id →
  get_streams video_id now_get cache = (Some (s0 :: ss), cache) →
  get_multiple_quality_streams_cached extract_video_id resolve
    now_get now_put video_url cache
  = (Returns (s0 :: ss), cache).
Proof.
  intros Hid Hget. unfold get_multiple_quality_streams_cached. by rewrite Hid, Hget.
Qed.

(** X11: when no streams of the video are cached and the resolver
    returns some, they are returned; when they are not empty they are
    cached, and a later call for that URL made less than 30 minutes after
    the caching returns them without the resolver, whatever the resolver
    would answer or raise and whatever other calls on the stream cache came
    in between, provided these did not cache the video again, did not look
    it up 30 minutes or more after the caching, and did not fill the cache
    (its entries after the caching and the insertions in between number at
    most 50).  An empty result is returned but not cached. *)
Theorem resolved_streams_are_reused
    (extract_video_id : string → option string)
    (resolve later_resolve : string → outcome Streams)
    (now_get now_put later_get later_put : Z)
    (video_url video_id : string) (new_streams : Streams)
    (cache : list (string * StreamEntry)) (ops : list stream_call) :
  extract_video_id video_url = Some video_id →
  video_id ≠ "" →
  truthy (get_streams video_id now_get cache).1 = false →
  resolve video_url = Returns new_streams →
  NoDup (PyDict.keys cache) →
  let r := get_multiple_quality_streams_cached extract_video_id resolve
             now_get now_put video_url cache in
  r.1 = Returns new_streams
  ∧ (new_streams ≠ [] →
     later_get - now_put < cache_duration →
     Forall (not_recached video_id) ops →
     Forall (looked_up_in_time video_id now_put) ops →
     (length r.2 + insertions ops ≤ max_items)%nat →
     get_multiple_quality_streams_cached extract_video_id later_resolve
       later_get later_put video_url (stream_run ops r.2)
     = (Returns new_streams, stream_run ops r.2))
  ∧ (new_streams = [] → r.2 = (get_streams video_id now_get cache).2).
Proof.
  intros Hid Hne Hmiss Hres Hnd. cbv zeta.
  rewrite (get_multiple_quality_streams_cached_miss extract_video_id resolve
             now_get now_put video_url video_id new_streams cache) by done.
  cbn [fst snd]. split_and!; [done | | by intros ->].
  intros Hnonempty Hfresh Hnot Hlook Hroom.
  destruct new_streams as [|s0 ss]; [done|].
  set (cache0 := (get_streams video_id now_get cache).2) in *.
  set (entry := {| streams := s0 :: ss; timestamp := now_put |}).
  assert (PyDict.get video_id (cache_streams video_id (s0 :: ss) now_put cache0).2
          = Some entry) as Hget1.
  { destruct (cache_streams_state video_id (s0 :: ss) now_put cache0) as [->|(k & _ & ->)];
      apply pydict_get_set_eq. }
  pose proof (entry_kept video_id entry ops _ Hget1 Hnot Hlook Hroom) as Hget2.
  eapply get_multiple_quality_streams_cached_hit; [exact Hid|].
  unfold get_streams. rewrite Hget2. cbn [timestamp streams entry].
  by rewrite bool_decide_eq_true_2.
Qed.

(** The URL of the sample video and an extraction that knows it. *)
Definition sample_url : string := "https://youtu.be/abc12345678".

Definition sample_extract (url : string) : option string :=
  if decide (url = sample_url) then Some "abc12345678" else None.

Lemma resolved_streams_are_reused_witness :
  let r := get_multiple_quality_streams_cached sample_extract
             (λ _, Returns sample_streams) 0 1 sample_url [] in
  r.1 = Returns sample_streams
  ∧ get_multiple_quality_streams_cached sample_extract (λ _, Raises BackendError)
      30000000 30000001 sample_url (stream_run calls_in_between r.2)
    = (Returns sample_streams, stream_run calls_in_between r.2).
Proof.
  destruct (resolved_streams_are_reused sample_extract (λ _, Returns sample_streams)
              (λ _, Raises BackendError) 0 1 30000000 30000001 sample_url "abc12345678"
              sample_streams [] calls_in_between) as (H1 & H2 & _);
    [reflexivity | done | reflexivity | reflexivity | apply NoDup_nil_2 |].
  cbv zeta. split; [exact H1|]. apply H2.
  - done.
  - unfold cache_duration. lia.
  - repeat first [apply Forall_nil | apply Forall_cons; split]; simpl; done.
  - repeat first [apply Forall_nil | apply Forall_cons; split]; simpl; try done;
      intros _; unfold cache_duration; lia.
  - vm_compute. lia.
Defined.

End StreamCacheRuns.

(** ** Purge, clearing and restart on the durable tier *)

(** [LocalCache.clear_all_cache]: every listed file that is still there is
    removed and counted, first in [screenshots_dir], then in
    [metadata_dir]. *)
Definition clear_step (acc : gmap string File * Z) (filename : string)
    : gmap string File * Z :=
  match acc.1 !! filename with
  | Some _ => (delete filename acc.1, acc.2 + 1)
  | None => acc
  end.

Definition clear_dir (dir : gmap string File) (deleted_count : Z) : gmap string File * Z :=
  foldl clear_step (dir, deleted_count) (map_to_list dir).*1.

Definition clear_all_cache (lc : LocalCache) : Z * LocalCache :=
  let r1 := clear_dir (screenshots_dir lc) 0 in
  let r2 := clear_dir (metadata_dir lc) r1.2 in
  (r2.2, {| screenshots_dir := r1.1; metadata_dir := r2.1 |}).

(** [FastCache._store_gcs_background]: the write-through of a blob, run as
    a task of its own; the backend call logs its own failures, so nothing
    is raised. *)
Definition _store_gcs_background (net : Network) (now : Z) (video_id : string)
    (timestamp : Z) (quality : string) (image_data : bytes) (bucket : gmap string Blob)
    : gmap string Blob :=
  GCSCache.cache_screenshot net now video_id timestamp quality image_data bucket.

(** [FastCache._store_metadata_gcs_background] *)
Definition _store_metadata_gcs_background (net : Network) (now : Z) (video_id : string)
    (timestamp : Z) (metadata : Metadata) (bucket : gmap string Blob) : gmap string Blob :=
  GCSCache.cache_metadata net now video_id timestamp metadata bucket.

Section PurgeAndRestart.

(** X12: on the filesystem backend a purge changes no answer: every read
    of a blob or of metadata made at the time of the purge or later returns
    what it would have returned without the purge; and the purge returns
    the number of files it removed. *)
Theorem local_purge_invisible_to_reads
    (json_loads : bytes → outcome Metadata) (now now' : Z) (lc : LocalCache) :
  now ≤ now' →
  let r := LocalCache.cleanup_expired_cache now lc in
  (∀ v t q,
     (LocalCache.get_cached_screenshot now' v t q r.2).1
     = (LocalCache.get_cached_screenshot now' v t q lc).1)
  ∧ (∀ v t,
       (LocalCache.get_cached_metadata json_loads now' v t r.2).1
       = (LocalCache.get_cached_metadata json_loads now' v t lc).1)
  ∧ r.1 = Z.of_nat (size (screenshots_dir lc)) - Z.of_nat (size (screenshots_dir r.2))
          + (Z.of_nat (size (metadata_dir lc)) - Z.of_nat (size (metadata_dir r.2))).
Proof.
  intros Hle. cbv zeta.
  destruct (local_cleanup_spec now lc) as (Hs & Hm & Hc).
  split_and!; [| |exact Hc].
  - intros v t q. unfold LocalCache.get_cached_screenshot, LocalCache._is_file_expired.
    rewrite Hs. destruct (screenshots_dir lc !! _) as [f|] eqn:Hf; [|done].
    simpl. unfold survives. case_bool_decide as Hold; simpl.
    + by rewrite bool_decide_eq_true_2 by lia.
    + by case_bool_decide.
  - intros v t. unfold LocalCache.get_cached_metadata, LocalCache._is_file_expired.
    rewrite Hm. destruct (metadata_dir lc !! _) as [f|] eqn:Hf; [|done].
    simpl. unfold survives. case_bool_decide as Hold; simpl.
    + by rewrite bool_decide_eq_true_2 by lia.
    + case_bool_decide; [done|]. by destruct (json_loads _).
Qed.

Lemma local_purge_invisible_to_reads_witness :
  let r := LocalCache.cleanup_expired_cache (cache_duration + 1) day_old_local in
  (∀ v t q,
     (LocalCache.get_cached_screenshot (cache_duration + 2) v t q r.2).1
     = (LocalCache.get_cached_screenshot (cache_duration + 2) v t q day_old_local).1)
  ∧ (∀ v t,
       (LocalCache.get_cached_metadata JsonRead.loads (cache_duration + 2) v t r.2).1
       = (LocalCache.get_cached_metadata JsonRead.loads (cache_duration + 2) v t
            day_old_local).1)
  ∧ r.1 = Z.of_nat (size (screenshots_dir day_old_local))
          - Z.of_nat (size (screenshots_dir r.2))
          + (Z.of_nat (size (metadata_dir day_old_local))
             - Z.of_nat (size (metadata_dir r.2))).
Proof.
  apply (local_purge_invisible_to_reads JsonRead.loads (cache_duration + 1)
           (cache_duration + 2) day_old_local).
  lia.
Defined.

Lemma clear_fold_lookup (l : list string) : ∀ (acc : gmap string File * Z) (k : string),
  (foldl clear_step acc l).1 !! k = if decide (k ∈ l) then None else acc.1 !! k.
Proof.
  induction l as [|k0 l IH]; intros acc k.
  - cbn [foldl]. rewrite decide_False; [done | apply not_elem_of_nil].
  - cbn [foldl]. rewrite IH.
    assert ((clear_step acc k0).1 !! k = if decide (k = k0) then None else acc.1 !! k) as Hstep.
    { unfold clear_step. destruct (decide (k = k0)) as [->|Hne].
      - destruct (acc.1 !! k0) eqn:Hk0; simpl; [apply lookup_delete_eq | done].
      - destruct (acc.1 !! k0); simpl; [by rewrite lookup_delete_ne | done]. }
    rewrite Hstep. destruct (decide (k ∈ l)) as [Hin|Hnin].
    + rewrite decide_True; [done | apply elem_of_cons; by right].
    + destruct (decide (k = k0)) as [->|Hne].
      * rewrite decide_True; [done | apply elem_of_cons; by left].
      * rewrite decide_False; [done|].
        intros Hin. apply elem_of_cons in Hin as [?|?]; done.
Qed.

Lemma clear_fold_count (l : list string) : ∀ (acc : gmap string File * Z),
  (foldl clear_step acc l).2 + Z.of_nat (size (foldl clear_step acc l).1)
  = acc.2 + Z.of_nat (size acc.1).
Proof.
  induction l as [|k0 l IH]; intros acc; [done|].
  cbn [foldl]. rewrite IH. unfold clear_step.
  destruct (acc.1 !! k0) as [f|] eqn:Hf; [|done]. simpl.
  rewrite map_size_delete, Hf. simpl.
  assert (size acc.1 ≠ 0%nat) as Hne.
  { intros Hz. apply map_size_empty_iff in Hz. rewrite Hz in Hf.
    by rewrite lookup_empty in Hf. }
  lia.
Qed.

Lemma clear_dir_spec (dir : gmap string File) (deleted_count : Z) :
  clear_dir dir deleted_count = (∅, deleted_count + Z.of_nat (size dir)).
Proof.
  unfold clear_dir.
  pose proof (clear_fold_count (map_to_list dir).*1 (dir, deleted_count)) as Hc.
  assert ((foldl clear_step (dir, deleted_count) (map_to_list dir).*1).1 = ∅) as He.
  { apply map_empty. intros k. rewrite clear_fold_lookup. simpl.
    destruct (decide (k ∈ (map_to_list dir).*1)) as [|Hnin]; [done|].
    destruct (dir !! k) as [f|] eqn:Hf; [|done].
    exfalso. apply Hnin. apply list_elem_of_fmap. exists (k, f).
    split; [done|]. by apply elem_of_map_to_list. }
  destruct (foldl clear_step (dir, deleted_count) (map_to_list dir).*1) as [d n].
  simpl in *. subst d. rewrite map_size_empty in Hc. f_equal. lia.
Qed.

(** X13: [clear_all_cache] leaves both cache directories empty and returns
    the number of files they held, so that every read after it answers
    [None]. *)
Theorem clear_all_cache_empties (json_loads : bytes → outcome Metadata) (lc : LocalCache) :
  clear_all_cache lc
  = (Z.of_nat (size (screenshots_dir lc)) + Z.of_nat (size (metadata_dir lc)), empty_local)
  ∧ ∀ now v t q,
      (LocalCache.get_cached_screenshot now v t q (clear_all_cache lc).2).1 = None
      ∧ (LocalCache.get_cached_metadata json_loads now v t (clear_all_cache lc).2).1 = None.
Proof.
  assert (clear_all_cache lc
          = (Z.of_nat (size (screenshots_dir lc)) + Z.of_nat (size (metadata_dir lc)),
             empty_local)) as Heq.
  { unfold clear_all_cache. rewrite !clear_dir_spec. simpl.
    unfold empty_local. f_equal. }
  split; [exact Heq|]. rewrite Heq. intros now v t q. split; reflexivity.
Qed.

(** X14: a blob whose write-through has reached the bucket is served to a
    process that starts with an empty memory tier: within 24 hours of the
    write, the lookup returns the bytes stored, from the durable tier, and
    counts one durable hit. *)
Theorem blob_survives_restart (json_loads : bytes → outcome Metadata)
    (now now' : Z) (video_id : string) (timestamp : Z) (quality : string)
    (b : Byte.byte) (data : bytes) (bucket : gmap string Blob) :
  fresh now' now →
  let bucket' :=
    _store_gcs_background reliable now video_id timestamp quality (b :: data) bucket in
  ∃ c',
    FastCache.get_screenshot (GCSCache.tier json_loads reliable now' bucket')
      video_id timestamp quality FastCache.init
    = (Returns (Some (b :: data)), c')
    ∧ cache_stats c' = {| hits := 1; misses := 0; memory_hits := 0; gcs_hits := 1 |}
    ∧ memory_cache c' !! FastCache.screenshot_key video_id timestamp quality
      = Some (b :: data).
Proof.
  intros Hfresh. cbv zeta.
  destruct (durable_hit_fills_memory_aux
              (GCSCache.tier json_loads reliable now'
                 (_store_gcs_background reliable now video_id timestamp quality
                    (b :: data) bucket))
              empty_tier video_id timestamp quality b data FastCache.init)
    as (c1 & c2 & Hget & Hst & Hlk & _).
  - exact init_memory_ok.
  - reflexivity.
  - simpl. unfold _store_gcs_background. by apply gcs_screenshot_restore.
  - exists c1. split_and!; [done | by rewrite Hst | done].
Qed.

Lemma blob_survives_restart_witness :
  ∃ c',
    FastCache.get_screenshot
      (GCSCache.tier JsonRead.loads reliable 3600000000
         (_store_gcs_background reliable 0 "abc12345678" 90 "high" png_magic ∅))
      "abc12345678" 90 "high" FastCache.init
    = (Returns (Some png_magic), c')
    ∧ cache_stats c' = {| hits := 1; misses := 0; memory_hits := 0; gcs_hits := 1 |}
    ∧ memory_cache c' !! FastCache.screenshot_key "abc12345678" 90 "high"
      = Some png_magic.
Proof.
  apply (blob_survives_restart JsonRead.loads 0 3600000000 "abc12345678" 90 "high"
           Byte.x89 [Byte.x50; Byte.x4e; Byte.x47] ∅).
  by vm_compute.
Defined.

End PurgeAndRestart.

(** ** The purge of the cloud backend on a working network *)
Section GcsPurge.

Variable cutoff_time : Z.

(** What a pass of the purge over the names under [prefix] does to the
    object called [name]. *)
Definition purge_keep (prefix name : string) (b : Blob) : option Blob :=
  if String.prefix prefix name && bool_decide (time_created b < cutoff_time)
  then None else Some b.

Lemma prefix_empty (s : string) : String.prefix "" s = true.
Proof. by destruct s. Qed.

Lemma NoDup_fst_filter {A B : Type} (P : A * B → Prop) `{!∀ x, Decision (P x)}
    (l : list (A * B)) :
  NoDup l.*1 → NoDup (filter P l).*1.
Proof.
  induction l as [|x l IH]; [done|].
  rewrite fmap_cons, NoDup_cons. intros [Hx Hnd]. rewrite filter_cons.
  destruct (decide (P x)); [|by apply IH].
  rewrite fmap_cons, NoDup_cons. split; [|by apply IH].
  intros Hin. apply Hx. apply list_elem_of_fmap in Hin as (y & -> & Hy).
  apply list_elem_of_filter in Hy as [_ Hy].
  apply list_elem_of_fmap. by exists y.
Qed.

Lemma elem_of_list_blobs (bucket : gmap string Blob) (prefix name : string)
    (created : option Z) :
  (name, created) ∈ GCSCache.list_blobs reliable bucket prefix ↔
  ∃ b, bucket !! name = Some b ∧ String.prefix prefix name = true
       ∧ created = Some (time_created b).
Proof.
  unfold GCSCache.list_blobs. cbn [time_created_unset reliable].
  rewrite list_elem_of_fmap. split.
  - intros ([n b] & [= -> ->] & Hin).
    apply list_elem_of_filter in Hin as [Hp Hin].
    apply elem_of_map_to_list in Hin. by exists b.
  - intros (b & Hb & Hp & ->). exists (name, b). split; [done|].
    apply list_elem_of_filter. split; [done|]. by apply elem_of_map_to_list.
Qed.

Lemma list_blobs_names_NoDup (bucket : gmap string Blob) (prefix : string) :
  NoDup (GCSCache.list_blobs reliable bucket prefix).*1.
Proof.
  unfold GCSCache.list_blobs. rewrite <- list_fmap_compose.
  rewrite (list_fmap_ext _ fst); [|by intros ? [? ?] ?].
  apply NoDup_fst_filter, NoDup_fst_map_to_list.
Qed.

Lemma cleanup_blobs_reliable (l : list (string * option Z)) :
  ∀ (bucket : gmap string Blob) (n : Z),
    NoDup l.*1 →
    (∀ name created, (name, created) ∈ l →
       ∃ b, bucket !! name = Some b ∧ created = Some (time_created b)) →
    ∃ n' bucket',
      GCSCache.cleanup_blobs reliable cutoff_time l bucket n = (Returns n', bucket')
      ∧ (∀ k, bucket' !! k
              = if decide (k ∈ l.*1)
                then (bucket !! k) ≫= purge_keep "" k
                else bucket !! k)
      ∧ n' + Z.of_nat (size bucket') = n + Z.of_nat (size bucket).
Proof.
  induction l as [|[name created] l IH]; intros bucket n Hnd Hl.
  - exists n, bucket. split_and!; [done | | done].
    intros k. rewrite decide_False; [done | apply not_elem_of_nil].
  - rewrite fmap_cons in Hnd. apply NoDup_cons in Hnd as [Hname Hnd].
    destruct (Hl name created) as (b & Hb & ->); [apply elem_of_cons; by left|].
    cbn [GCSCache.cleanup_blobs delete_raises reliable].
    assert (∀ k, k ∈ l.*1 → k ≠ name) as Hother.
    { intros k Hk ->. done. }
    case_bool_decide as Hold.
    + destruct (IH (delete name bucket) (n + 1) Hnd) as (n' & bucket' & -> & Hlk & Hcount).
      { intros name' created' Hin.
        destruct (Hl name' created') as (b' & Hb' & ->); [apply elem_of_cons; by right|].
        exists b'. split; [|done]. rewrite lookup_delete_ne; [done|].
        intros ->. apply Hname. apply list_elem_of_fmap. by exists (name', Some (time_created b')). }
      exists n', bucket'. split_and!; [done | |].
      * intros k. rewrite Hlk. rewrite fmap_cons. cbn [fst].
        destruct (decide (k ∈ l.*1)) as [Hk|Hk].
        -- rewrite decide_True by (apply elem_of_cons; by right).
           assert (name ≠ k) as Hnk by (intros Heq; by apply (Hother k Hk)).
           by rewrite lookup_delete_ne by done.
        -- destruct (decide (k = name)) as [->|Hne].
           ++ rewrite decide_True by (apply elem_of_cons; by left).
              rewrite lookup_delete_eq, Hb. simpl. unfold purge_keep.
              rewrite prefix_empty. simpl. by rewrite bool_decide_eq_true_2.
           ++ rewrite decide_False.
              ** by rewrite lookup_delete_ne.
              ** intros Hin. apply elem_of_cons in Hin as [?|?]; done.
      * rewrite Hcount. rewrite map_size_delete, Hb. simpl.
        assert (size bucket ≠ 0%nat) as Hne.
        { intros Hz. apply map_size_empty_iff in Hz. rewrite Hz in Hb.
          by rewrite lookup_empty in Hb. }
        lia.
    + destruct (IH bucket n Hnd) as (n' & bucket' & -> & Hlk & Hcount).
      { intros name' created' Hin. apply Hl. apply elem_of_cons. by right. }
      exists n', bucket'. split_and!; [done | | done].
      intros k. rewrite Hlk. rewrite fmap_cons. cbn [fst].
      destruct (decide (k ∈ l.*1)) as [Hk|Hk].
      * by rewrite decide_True by (apply elem_of_cons; by right).
      * destruct (decide (k = name)) as [->|Hne].
        -- rewrite decide_True by (apply elem_of_cons; by left).
           rewrite Hb. simpl. unfold purge_keep.
           rewrite prefix_empty. simpl. by rewrite bool_decide_eq_false_2.
        -- rewrite decide_False; [done|].
           intros Hin. apply elem_of_cons in Hin as [?|?]; done.
Qed.

(** A pass over the names under a prefix. *)
Lemma gcs_pass_spec (prefix : string) (bucket : gmap string Blob) (n : Z) :
  ∃ n' bucket',
    GCSCache.cleanup_blobs reliable cutoff_time
      (GCSCache.list_blobs reliable bucket prefix) bucket n = (Returns n', bucket')
    ∧ (∀ k, bucket' !! k = (bucket !! k) ≫= purge_keep prefix k)
    ∧ n' + Z.of_nat (size bucket') = n + Z.of_nat (size bucket).
Proof.
  destruct (cleanup_blobs_reliable (GCSCache.list_blobs reliable bucket prefix) bucket n)
    as (n' & bucket' & He & Hlk & Hcount).
  { apply list_blobs_names_NoDup. }
  { intros name created Hin. apply elem_of_list_blobs in Hin as (b & Hb & _ & ->).
    by exists b. }
  exists n', bucket'. split_and!; [done | | done].
  intros k. rewrite Hlk. destruct (bucket !! k) as [b|] eqn:Hb.
  - destruct (String.prefix prefix k) eqn:Hp.
    + rewrite decide_True.
      * simpl. unfold purge_keep. by rewrite prefix_empty, Hp.
      * apply list_elem_of_fmap. exists (k, Some (time_created b)). split; [done|].
        apply elem_of_list_blobs. by exists b.
    + rewrite decide_False.
      * simpl. unfold purge_keep. by rewrite Hp.
      * intros Hin. apply list_elem_of_fmap in Hin as ([k' created] & -> & Hin).
        apply elem_of_list_blobs in Hin as (b' & _ & Hp' & _). simpl in Hp. congruence.
  - by destruct (decide _).
Qed.

End GcsPurge.

Section GcsPurgeClaims.

Lemma gcs_purge_removes_old_objects_aux (now : Z) (bucket : gmap string Blob) :
  let r := GCSCache.cleanup_expired_cache reliable now bucket in
  (∀ k, r.2 !! k
        = (bucket !! k) ≫= λ b,
            if (String.prefix "screenshots/" k || String.prefix "metadata/" k)
               && bool_decide (time_created b < now - cache_duration)
            then None else Some b)
  ∧ r.1 = Z.of_nat (size bucket) - Z.of_nat (size r.2).
Proof.
  cbv zeta. unfold GCSCache.cleanup_expired_cache. cbn [list_raises reliable].
  destruct (gcs_pass_spec (now - cache_duration) "screenshots/" bucket 0)
    as (n1 & bucket1 & -> & Hlk1 & Hc1).
  destruct (gcs_pass_spec (now - cache_duration) "metadata/" bucket1 n1)
    as (n2 & bucket2 & -> & Hlk2 & Hc2).
  cbn [fst snd]. split; [|lia].
  intros k. rewrite Hlk2, Hlk1. destruct (bucket !! k) as [b|]; [|done].
  simpl. unfold purge_keep.
  destruct (String.prefix "screenshots/" k), (String.prefix "metadata/" k);
    simpl; repeat (case_bool_decide; simpl); done.
Qed.

(** X15: on a working network the purge of the cloud backend removes the
    objects under [screenshots/] and [metadata/] that were created more than
    24 hours ago, leaves every other object as it is, and returns the number
    of objects removed. *)
Theorem gcs_purge_removes_old_objects (now : Z) (bucket : gmap string Blob) :
  let r := GCSCache.cleanup_expired_cache reliable now bucket in
  (∀ k, r.2 !! k
        = (bucket !! k) ≫= λ b,
            if (String.prefix "screenshots/" k || String.prefix "metadata/" k)
               && bool_decide (time_created b < now - cache_duration)
            then None else Some b)
  ∧ r.1 = Z.of_nat (size bucket) - Z.of_nat (size r.2).
Proof. exact (gcs_purge_removes_old_objects_aux now bucket). Qed.

(** X16: on a working network a purge of the cloud backend changes no
    answer: every read of a blob or of metadata made at the time of the purge
    or later returns what it would have returned without the purge. *)
Theorem gcs_purge_invisible_to_reads
    (json_loads : bytes → outcome Metadata) (now now' : Z) (bucket : gmap string Blob) :
  now ≤ now' →
  let r := GCSCache.cleanup_expired_cache reliable now bucket in
  (∀ v t q,
     GCSCache.get_cached_screenshot reliable now' r.2 v t q
     = GCSCache.get_cached_screenshot reliable now' bucket v t q)
  ∧ (∀ v t,
       GCSCache.get_cached_metadata json_loads reliable now' r.2 v t
       = GCSCache.get_cached_metadata json_loads reliable now' bucket v t).
Proof.
  intros Hle. cbv zeta.
  destruct (gcs_purge_removes_old_objects_aux now bucket) as [Hlk _].
  split.
  - intros v t q.
    unfold GCSCache.get_cached_screenshot, GCSCache.blob_exists, GCSCache.blob_reload,
      GCSCache.blob_download, GCSCache.fallback_download.
    cbn [exists_raises reload_raises time_created_unset download_raises reliable].
    rewrite Hlk. destruct (bucket !! GCSCache._get_cache_key v t q) as [b|]; [|done].
    simpl. destruct (_ && _) eqn:Hpurged; [|done].
    apply andb_true_iff in Hpurged as [_ Hold]. apply bool_decide_eq_true_1 in Hold.
    rewrite bool_decide_eq_false_2 by (by intros [? ?]).
    by rewrite bool_decide_eq_true_2 by lia.
  - intros v t.
    unfold GCSCache.get_cached_metadata, GCSCache.blob_exists, GCSCache.blob_reload,
      GCSCache.blob_download.
    cbn [exists_raises reload_raises time_created_unset download_raises reliable].
    rewrite Hlk. destruct (bucket !! GCSCache._get_metadata_key v t) as [b|]; [|done].
    simpl. destruct (_ && _) eqn:Hpurged; [|done].
    apply andb_true_iff in Hpurged as [_ Hold]. apply bool_decide_eq_true_1 in Hold.
    rewrite bool_decide_eq_false_2 by (by intros [? ?]).
    by rewrite bool_decide_eq_true_2 by lia.
Qed.

Lemma gcs_purge_invisible_to_reads_witness :
  let r := GCSCache.cleanup_expired_cache reliable (cache_duration + 1) day_old_bucket in
  (∀ v t q,
     GCSCache.get_cached_screenshot reliable (cache_duration + 2) r.2 v t q
     = GCSCache.get_cached_screenshot reliable (cache_duration + 2) day_old_bucket v t q)
  ∧ (∀ v t,
       GCSCache.get_cached_metadata JsonRead.loads reliable (cache_duration + 2) r.2 v t
       = GCSCache.get_cached_metadata JsonRead.loads reliable (cache_duration + 2)
           day_old_bucket v t).
Proof.
  apply (gcs_purge_invisible_to_reads JsonRead.loads (cache_duration + 1)
           (cache_duration + 2) day_old_bucket).
  lia.
Defined.

End GcsPurgeClaims.

(** ** Names of cache entries *)

(** ['_' in s] *)
Fixpoint contains_underscore (s : string) : bool :=
  match s with
  | EmptyString => false
  | String c s' => bool_decide (c = "_"%char) || contains_underscore s'
  end.

Section EntryNames.

Lemma string_app_assoc (a b c : string) : (a +:+ b) +:+ c = a +:+ (b +:+ c).
Proof.
  induction a as [|x a IH]; [done|].
  change ((String x a +:+ b) +:+ c) with (String x ((a +:+ b) +:+ c)).
  change (String x a +:+ (b +:+ c)) with (String x (a +:+ (b +:+ c))).
  by rewrite IH.
Qed.

Lemma string_length_app (a b : string) :
  String.length (a +:+ b) = (String.length a + String.length b)%nat.
Proof.
  induction a as [|x a IH]; [done|].
  change (String x a +:+ b) with (String x (a +:+ b)). simpl. by rewrite IH.
Qed.

Lemma string_app_inj_r (t a a' : string) : a +:+ t = a' +:+ t → a = a'.
Proof.
  revert a'. induction a as [|x a IH]; intros [|x' a'] Heq; [done| | |].
  - apply (f_equal String.length) in Heq.
    change (String x' a' +:+ t) with (String x' (a' +:+ t)) in Heq.
    change (EmptyString +:+ t) with t in Heq.
    simpl in Heq. rewrite string_length_app in Heq. lia.
  - apply (f_equal String.length) in Heq.
    change (String x a +:+ t) with (String x (a +:+ t)) in Heq.
    change (EmptyString +:+ t) with t in Heq.
    simpl in Heq. rewrite string_length_app in Heq. lia.
  - change (String x a +:+ t) with (String x (a +:+ t)) in Heq.
    change (String x' a' +:+ t) with (String x' (a' +:+ t)) in Heq.
    injection Heq as -> Heq. f_equal. by apply IH.
Qed.

Lemma contains_underscore_app (a b : string) :
  contains_underscore (a +:+ b) = contains_underscore a || contains_underscore b.
Proof.
  induction a as [|x a IH]; [done|].
  change (String x a +:+ b) with (String x (a +:+ b)). simpl.
  by rewrite IH, orb_assoc.
Qed.

Lemma pretty_N_go_no_underscore (x : N) : ∀ s,
  contains_underscore s = false → contains_underscore (pretty_N_go x s) = false.
Proof.
  induction (N.lt_wf_0 x) as [x _ IH]; intros s Hs.
  assert (x = 0 ∨ 0 < x)%N as [->|Hpos] by lia.
  - by rewrite pretty_N_go_0.
  - rewrite pretty_N_go_step by done. apply IH.
    + by apply N.div_lt.
    + simpl. rewrite Hs. unfold pretty_N_char. by repeat case_match.
Qed.

Lemma pretty_Z_no_underscore (t : Z) : contains_underscore (pretty t) = false.
Proof.
  assert (∀ p : positive, contains_underscore (pretty p) = false) as Hpos.
  { intros p. unfold pretty, pretty_positive, pretty, pretty_N.
    rewrite decide_False by done. by apply pretty_N_go_no_underscore. }
  destruct t as [|p|p]; [done | apply Hpos |].
  change (pretty (Z.neg p)) with (String "-" (pretty p)). simpl. apply Hpos.
Qed.

(** Two names that end in an underscore followed by a part without
    underscore agree part by part. *)
Lemma split_last_underscore (a : string) : ∀ a' b b',
  contains_underscore b = false → contains_underscore b' = false →
  a +:+ String "_" b = a' +:+ String "_" b' → a = a' ∧ b = b'.
Proof.
  induction a as [|x a IH]; intros [|x' a'] b b' Hb Hb' Heq.
  - by injection Heq as ->.
  - change (String x' a' +:+ String "_" b') with (String x' (a' +:+ String "_" b')) in Heq.
    injection Heq as <- ->.
    rewrite contains_underscore_app in Hb. simpl in Hb.
    by destruct (contains_underscore a').
  - change (String x a +:+ String "_" b) with (String x (a +:+ String "_" b)) in Heq.
    injection Heq as -> <-.
    rewrite contains_underscore_app in Hb'. simpl in Hb'.
    by destruct (contains_underscore a).
  - change (String x a +:+ String "_" b) with (String x (a +:+ String "_" b)) in Heq.
    change (String x' a' +:+ String "_" b') with (String x' (a' +:+ String "_" b')) in Heq.
    injection Heq as -> Heq.
    destruct (IH a' b b' Hb Hb' Heq) as [-> ->]. done.
Qed.

Lemma stem_split (v : string) (t : Z) (rest : string) :
  v +:+ "_" +:+ pretty t +:+ "_" +:+ rest = (v +:+ String "_" (pretty t)) +:+ String "_" rest.
Proof. by rewrite string_app_assoc. Qed.

Lemma stem_inj (v : string) (t : Z) (q v' : string) (t' : Z) (q' : string) :
  contains_underscore q = false → contains_underscore q' = false →
  v +:+ "_" +:+ pretty t +:+ "_" +:+ q = v' +:+ "_" +:+ pretty t' +:+ "_" +:+ q' →
  v = v' ∧ t = t' ∧ q = q'.
Proof.
  intros Hq Hq'. rewrite !stem_split. intros Heq.
  apply split_last_underscore in Heq as [Heq ->]; [|done..].
  apply split_last_underscore in Heq as [-> Heq]; [|apply pretty_Z_no_underscore..].
  by apply (inj pretty) in Heq as ->.
Qed.

Lemma short_stem_inj (v : string) (t : Z) (v' : string) (t' : Z) (ext : string) :
  contains_underscore ext = false →
  v +:+ "_" +:+ pretty t +:+ ext = v' +:+ "_" +:+ pretty t' +:+ ext →
  v = v' ∧ t = t'.
Proof.
  intros Hext Heq.
  change (v +:+ String "_" (pretty t +:+ ext) = v' +:+ String "_" (pretty t' +:+ ext)) in Heq.
  apply split_last_underscore in Heq as [-> Heq].
  - apply string_app_inj_r in Heq. by apply (inj pretty) in Heq as ->.
  - by rewrite contains_underscore_app, pretty_Z_no_underscore.
  - by rewrite contains_underscore_app, pretty_Z_no_underscore.
Qed.

Lemma screenshot_names_injective_aux v t q v' t' q' :
  contains_underscore q = false → contains_underscore q' = false →
  FastCache.screenshot_key v t q = FastCache.screenshot_key v' t' q'
  ∨ LocalCache._get_cache_path v t q = LocalCache._get_cache_path v' t' q'
  ∨ GCSCache._get_cache_key v t q = GCSCache._get_cache_key v' t' q' →
  v = v' ∧ t = t' ∧ q = q'.
Proof.
  intros Hq Hq'.
  assert (∀ q0, contains_underscore q0 = false → contains_underscore (q0 +:+ ".png") = false)
    as Hpng.
  { intros q0 H0. by rewrite contains_underscore_app, H0. }
  intros [Heq|[Heq|Heq]].
  - by apply stem_inj.
  - unfold LocalCache._get_cache_path in Heq.
    apply stem_inj in Heq as (-> & -> & Heq); [|by apply Hpng..].
    by apply string_app_inj_r in Heq as ->.
  - unfold GCSCache._get_cache_key in Heq. apply (inj (String.app _)) in Heq.
    apply stem_inj in Heq as (-> & -> & Heq); [|by apply Hpng..].
    by apply string_app_inj_r in Heq as ->.
Qed.

Lemma metadata_names_injective_aux v t v' t' :
  FastCache.metadata_key v t = FastCache.metadata_key v' t'
  ∨ LocalCache._get_metadata_path v t = LocalCache._get_metadata_path v' t'
  ∨ GCSCache._get_metadata_key v t = GCSCache._get_metadata_key v' t' →
  v = v' ∧ t = t'.
Proof.
  intros [Heq|[Heq|Heq]].
  - unfold FastCache.metadata_key in Heq.
    apply stem_inj in Heq as (-> & -> & _); done.
  - by apply short_stem_inj in Heq.
  - unfold GCSCache._get_metadata_key in Heq. apply (inj (String.app _)) in Heq.
    by apply short_stem_inj in Heq.
Qed.

(** X17: two screenshot entries share a memory key, a file name or an
    object name only if they are the same entry, provided the quality names
    contain no underscore (as the four the service uses). *)
Theorem screenshot_names_injective v t q v' t' q' :
  contains_underscore q = false → contains_underscore q' = false →
  FastCache.screenshot_key v t q = FastCache.screenshot_key v' t' q'
  ∨ LocalCache._get_cache_path v t q = LocalCache._get_cache_path v' t' q'
  ∨ GCSCache._get_cache_key v t q = GCSCache._get_cache_key v' t' q' →
  v = v' ∧ t = t' ∧ q = q'.
Proof. apply screenshot_names_injective_aux. Qed.

Lemma screenshot_names_injective_witness :
  "abc12345678" = "abc12345678" ∧ 90 = 90 ∧ "high" = "high".
Proof.
  apply (screenshot_names_injective "abc12345678" 90 "high" "abc12345678" 90 "high").
  - reflexivity.
  - reflexivity.
  - left. reflexivity.
Defined.

(** X18: two metadata entries share a memory key, a file name or an object
    name only if they are for the same video and timestamp, whatever the
    video ids are. *)
Theorem metadata_names_injective v t v' t' :
  FastCache.metadata_key v t = FastCache.metadata_key v' t'
  ∨ LocalCache._get_metadata_path v t = LocalCache._get_metadata_path v' t'
  ∨ GCSCache._get_metadata_key v t = GCSCache._get_metadata_key v' t' →
  v = v' ∧ t = t'.
Proof. apply metadata_names_injective_aux. Qed.

Lemma metadata_names_injective_witness : "abc12345678" = "abc12345678" ∧ 90 = 90.
Proof.
  apply (metadata_names_injective "abc12345678" 90 "abc12345678" 90).
  right. left. reflexivity.
Defined.

Lemma gcs_screenshot_read_lookup net now (bucket bucket' : gmap string Blob) v t q :
  bucket' !! GCSCache._get_cache_key v t q = bucket !! GCSCache._get_cache_key v t q →
  GCSCache.get_cached_screenshot net now bucket' v t q
  = GCSCache.get_cached_screenshot net now bucket v t q.
Proof.
  intros Heq.
  unfold GCSCache.get_cached_screenshot, GCSCache.blob_exists, GCSCache.blob_reload,
    GCSCache.fallback_download, GCSCache.blob_download.
  by rewrite Heq.
Qed.

Lemma gcs_metadata_read_lookup json_loads net now (bucket bucket' : gmap string Blob) v t :
  bucket' !! GCSCache._get_metadata_key v t = bucket !! GCSCache._get_metadata_key v t →
  GCSCache.get_cached_metadata json_loads net now bucket' v t
  = GCSCache.get_cached_metadata json_loads net now bucket v t.
Proof.
  intros Heq.
  unfold GCSCache.get_cached_metadata, GCSCache.blob_exists, GCSCache.blob_reload,
    GCSCache.blob_download.
  by rewrite Heq.
Qed.

Lemma gcs_upload_lookup_ne net now name data (bucket : gmap string Blob) k :
  k ≠ name → GCSCache.upload net now name data bucket !! k = bucket !! k.
Proof.
  intros Hne. unfold GCSCache.upload. destruct (upload_raises net); [done|].
  by rewrite lookup_insert_ne.
Qed.

Lemma gcs_names_disjoint v t q v' t' :
  GCSCache._get_cache_key v t q ≠ GCSCache._get_metadata_key v' t'.
Proof. unfold GCSCache._get_cache_key, GCSCache._get_metadata_key. discriminate. Qed.

(** X19: storing a blob for one entry changes no answer for another: on
    either backend, a read of a different (video, timestamp, quality) and a
    read of any metadata return after the write what they returned before
    it, provided the quality names contain no underscore. *)
Theorem screenshot_write_leaves_other_entries
    (json_loads : bytes → outcome Metadata) (net net' : Network) (now now' : Z)
    (v : string) (t : Z) (q : string) (data : bytes)
    (v' : string) (t' : Z) (q' : string) (bucket : gmap string Blob) (lc : LocalCache) :
  contains_underscore q = false → contains_underscore q' = false →
  (v', t', q') ≠ (v, t, q) →
  GCSCache.get_cached_screenshot net' now'
    (GCSCache.cache_screenshot net now v t q data bucket) v' t' q'
  = GCSCache.get_cached_screenshot net' now' bucket v' t' q'
  ∧ (∀ v0 t0,
       GCSCache.get_cached_metadata json_loads net' now'
         (GCSCache.cache_screenshot net now v t q data bucket) v0 t0
       = GCSCache.get_cached_metadata json_loads net' now' bucket v0 t0)
  ∧ (LocalCache.get_cached_screenshot now' v' t' q'
       (LocalCache.cache_screenshot now v t q data lc)).1
    = (LocalCache.get_cached_screenshot now' v' t' q' lc).1
  ∧ (∀ v0 t0,
       (LocalCache.get_cached_metadata json_loads now' v0 t0
          (LocalCache.cache_screenshot now v t q data lc)).1
       = (LocalCache.get_cached_metadata json_loads now' v0 t0 lc).1).
Proof.
  intros Hq Hq' Hne.
  assert (GCSCache._get_cache_key v' t' q' ≠ GCSCache._get_cache_key v t q) as Hkey.
  { intros Heq. apply Hne.
    destruct (screenshot_names_injective_aux v' t' q' v t q Hq' Hq) as (-> & -> & ->); auto. }
  assert (LocalCache._get_cache_path v' t' q' ≠ LocalCache._get_cache_path v t q) as Hpath.
  { intros Heq. apply Hne.
    destruct (screenshot_names_injective_aux v' t' q' v t q Hq' Hq) as (-> & -> & ->); auto. }
  split_and!.
  - apply gcs_screenshot_read_lookup. unfold GCSCache.cache_screenshot.
    by apply gcs_upload_lookup_ne.
  - intros v0 t0. apply gcs_metadata_read_lookup. unfold GCSCache.cache_screenshot.
    apply gcs_upload_lookup_ne. intros Heq. by apply (gcs_names_disjoint v t q v0 t0).
  - unfold LocalCache.get_cached_screenshot, LocalCache._is_file_expired,
      LocalCache.cache_screenshot. cbn [screenshots_dir metadata_dir].
    rewrite lookup_insert_ne by done.
    destruct (screenshots_dir lc !! _) as [f|]; [|done].
    by destruct (bool_decide _).
  - intros v0 t0.
    unfold LocalCache.get_cached_metadata, LocalCache._is_file_expired,
      LocalCache.cache_screenshot. cbn [screenshots_dir metadata_dir].
    destruct (metadata_dir lc !! _) as [f|]; [|done].
    destruct (bool_decide _); [done|]. by destruct (json_loads _).
Qed.

Lemma screenshot_write_leaves_other_entries_witness :
  GCSCache.get_cached_screenshot reliable 1
    (GCSCache.cache_screenshot reliable 0 "abc12345678" 90 "high" png_magic day_old_bucket)
    "abc12345678" 90 "low"
  = GCSCache.get_cached_screenshot reliable 1 day_old_bucket "abc12345678" 90 "low"
  ∧ (∀ v0 t0,
       GCSCache.get_cached_metadata JsonRead.loads reliable 1
         (GCSCache.cache_screenshot reliable 0 "abc12345678" 90 "high" png_magic
            day_old_bucket) v0 t0
       = GCSCache.get_cached_metadata JsonRead.loads reliable 1 day_old_bucket v0 t0)
  ∧ (LocalCache.get_cached_screenshot 1 "abc12345678" 90 "low"
       (LocalCache.cache_screenshot 0 "abc12345678" 90 "high" png_magic day_old_local)).1
    = (LocalCache.get_cached_screenshot 1 "abc12345678" 90 "low" day_old_local).1
  ∧ (∀ v0 t0,
       (LocalCache.get_cached_metadata JsonRead.loads 1 v0 t0
          (LocalCache.cache_screenshot 0 "abc12345678" 90 "high" png_magic
             day_old_local)).1
       = (LocalCache.get_cached_metadata JsonRead.loads 1 v0 t0 day_old_local).1).
Proof.
  apply (screenshot_write_leaves_other_entries JsonRead.loads reliable reliable 0 1
           "abc12345678" 90 "high" png_magic "abc12345678" 90 "low"
           day_old_bucket day_old_local).
  - reflexivity.
  - reflexivity.
  - discriminate.
Defined.

(** X20: storing metadata for one (video, timestamp) changes no answer for
    another: on either backend, a read of the metadata of a different
    (video, timestamp) and a read of any blob return after the write what
    they returned before it. *)
Theorem metadata_write_leaves_other_entries
    (json_loads : bytes → outcome Metadata) (net net' : Network) (now now' : Z)
    (v : string) (t : Z) (metadata : Metadata)
    (v' : string) (t' : Z) (bucket : gmap string Blob) (lc : LocalCache) :
  (v', t') ≠ (v, t) →
  GCSCache.get_cached_metadata json_loads net' now'
    (GCSCache.cache_metadata net now v t metadata bucket) v' t'
  = GCSCache.get_cached_metadata json_loads net' now' bucket v' t'
  ∧ (∀ v0 t0 q0,
       GCSCache.get_cached_screenshot net' now'
         (GCSCache.cache_metadata net now v t metadata bucket) v0 t0 q0
       = GCSCache.get_cached_screenshot net' now' bucket v0 t0 q0)
  ∧ (LocalCache.get_cached_metadata json_loads now' v' t'
       (LocalCache.cache_metadata now v t metadata lc)).1
    = (LocalCache.get_cached_metadata json_loads now' v' t' lc).1
  ∧ (∀ v0 t0 q0,
       (LocalCache.get_cached_screenshot now' v0 t0 q0
          (LocalCache.cache_metadata now v t metadata lc)).1
       = (LocalCache.get_cached_screenshot now' v0 t0 q0 lc).1).
Proof.
  intros Hne.
  assert (GCSCache._get_metadata_key v' t' ≠ GCSCache._get_metadata_key v t) as Hkey.
  { intros Heq. apply Hne.
    destruct (metadata_names_injective_aux v' t' v t) as (-> & ->); auto. }
  assert (LocalCache._get_metadata_path v' t' ≠ LocalCache._get_metadata_path v t) as Hpath.
  { intros Heq. apply Hne.
    destruct (metadata_names_injective_aux v' t' v t) as (-> & ->); auto. }
  split_and!.
  - apply gcs_metadata_read_lookup. unfold GCSCache.cache_metadata.
    by apply gcs_upload_lookup_ne.
  - intros v0 t0 q0. apply gcs_screenshot_read_lookup. unfold GCSCache.cache_metadata.
    apply gcs_upload_lookup_ne. apply gcs_names_disjoint.
  - unfold LocalCache.get_cached_metadata, LocalCache._is_file_expired,
      LocalCache.cache_metadata. cbn [screenshots_dir metadata_dir].
    rewrite lookup_insert_ne by done.
    destruct (metadata_dir lc !! _) as [f|]; [|done].
    destruct (bool_decide _); [done|]. by destruct (json_loads _).
  - intros v0 t0 q0.
    unfold LocalCache.get_cached_screenshot, LocalCache._is_file_expired,
      LocalCache.cache_metadata. cbn [screenshots_dir metadata_dir].
    destruct (screenshots_dir lc !! _) as [f|]; [|done].
    by destruct (bool_decide _).
Qed.

Lemma metadata_write_leaves_other_entries_witness :
  GCSCache.get_cached_metadata JsonRead.loads reliable 1
    (GCSCache.cache_metadata reliable 0 "abc12345678" 90 sample_metadata day_old_bucket)
    "abc12345678" 91
  = GCSCache.get_cached_metadata JsonRead.loads reliable 1 day_old_bucket "abc12345678" 91
  ∧ (∀ v0 t0 q0,
       GCSCache.get_cached_screenshot reliable 1
         (GCSCache.cache_metadata reliable 0 "abc12345678" 90 sample_metadata
            day_old_bucket) v0 t0 q0
       = GCSCache.get_cached_screenshot reliable 1 day_old_bucket v0 t0 q0)
  ∧ (LocalCache.get_cached_metadata JsonRead.loads 1 "abc12345678" 91
       (LocalCache.cache_metadata 0 "abc12345678" 90 sample_metadata day_old_local)).1
    = (LocalCache.get_cached_metadata JsonRead.loads 1 "abc12345678" 91 day_old_local).1
  ∧ (∀ v0 t0 q0,
       (LocalCache.get_cached_screenshot 1 v0 t0 q0
          (LocalCache.cache_metadata 0 "abc12345678" 90 sample_metadata
             day_old_local)).1
       = (LocalCache.get_cached_screenshot 1 v0 t0 q0 day_old_local).1).
Proof.
  apply (metadata_write_leaves_other_entries JsonRead.loads reliable reliable 0 1
           "abc12345678" 90 sample_metadata "abc12345678" 91
           day_old_bucket day_old_local).
  discriminate.
Defined.

End EntryNames.

From stdpp Require Import sorting.
Local Open Scope Z_scope.

(** ** Rate limiting (src/app.py)

    [request_counts] is a [defaultdict(deque)]: looking a client up gives
    its deque, an empty one if the client is new.  [time.time()] is the
    argument [now], in microseconds as elsewhere. *)
Definition RATE_LIMIT : Z := 10.

Definition RATE_WINDOW : Z := 60 * 1000000.

(** The [while] loop of [rate_limit_check]: [popleft] as long as the deque
    is not empty and its first timestamp is before [minute_ago]. *)
Fixpoint popleft_expired (minute_ago : Z) (d : list Z) : list Z :=
  match d with
  | [] => []
  | first :: rest =>
      if bool_decide (first < minute_ago) then popleft_expired minute_ago rest else d
  end.

Definition rate_limit_check (now : Z) (client_ip : string)
    (request_counts : gmap string (list Z)) : bool * gmap string (list Z) :=
  let minute_ago := now - RATE_WINDOW in
  let d := popleft_expired minute_ago (default [] (request_counts !! client_ip)) in
  if bool_decide (RATE_LIMIT ≤ Z.of_nat (length d))
  then (false, <[client_ip := d]> request_counts)
  else (true, <[client_ip := d ++ [now]]> request_counts).

Record Request := {
  req_time : Z;
  client_host : string;
  url_path : string
}.

(** [rate_limit_middleware]: [true] when the request is passed on to its
    handler, [false] when it is answered with status 429; the check runs for
    paths under [/api/] only. *)
Definition rate_limit_middleware (request : Request)
    (request_counts : gmap string (list Z)) : bool * gmap string (list Z) :=
  if String.prefix "/api/" (url_path request)
  then rate_limit_check (req_time request) (client_host request) request_counts
  else (true, request_counts).

(** The requests passed on so far, oldest first, and the state. *)
Definition serve (acc : list Request * gmap string (list Z)) (request : Request)
    : list Request * gmap string (list Z) :=
  let r := rate_limit_middleware request acc.2 in
  (if r.1 then acc.1 ++ [request] else acc.1, r.2).

Definition served (requests : list Request) : list Request * gmap string (list Z) :=
  foldl serve ([], ∅) requests.

(** The API requests of one client. *)
Definition api_request_of (ip : string) (request : Request) : bool :=
  bool_decide (client_host request = ip) && String.prefix "/api/" (url_path request).

Definition api_times (ip : string) (log : list Request) : list Z :=
  req_time <$> filter (λ r, api_request_of ip r = true) log.

Definition in_window (t x : Z) : Prop := t - RATE_WINDOW ≤ x ≤ t.

Section RateLimit.

Lemma popleft_expired_split (minute_ago : Z) (d : list Z) :
  ∃ popped, d = popped ++ popleft_expired minute_ago d
            ∧ Forall (λ x, x < minute_ago) popped.
Proof.
  induction d as [|first rest IH].
  - by exists [].
  - simpl. case_bool_decide as Hold.
    + destruct IH as (popped & Heq & Hall). exists (first :: popped).
      split; [by rewrite Heq at 1 | by constructor].
    + by exists [].
Qed.

Lemma popleft_expired_length (minute_ago : Z) (d : list Z) :
  (length (popleft_expired minute_ago d) ≤ length d)%nat.
Proof.
  destruct (popleft_expired_split minute_ago d) as (popped & Heq & _).
  rewrite Heq at 2. rewrite length_app. lia.
Qed.

Lemma filter_none {A : Type} (P : A → Prop) `{!∀ x, Decision (P x)} (l : list A) :
  Forall (λ x, ¬ P x) l → filter P l = [].
Proof.
  induction 1 as [|x l Hx _ IH]; [done|].
  by rewrite filter_cons, decide_False.
Qed.

Lemma api_times_snoc (ip : string) (log : list Request) (r : Request) :
  api_times ip (log ++ [r])
  = api_times ip log ++ (if api_request_of ip r then [req_time r] else []).
Proof.
  unfold api_times. rewrite filter_app, fmap_app. f_equal.
  rewrite filter_cons, filter_nil. destruct (api_request_of ip r); [|done].
  by rewrite decide_True.
Qed.

(** What a run keeps true: the passed API requests of a client are the
    timestamps already dropped from its deque, all older than the window at
    the time [T] of the last request, followed by the deque. *)
Definition rate_inv (T : Z) (acc : list Request * gmap string (list Z)) : Prop :=
  (∀ ip, ∃ dropped,
     api_times ip acc.1 = dropped ++ default [] (acc.2 !! ip)
     ∧ Forall (λ x, x < T - RATE_WINDOW) dropped
     ∧ Z.of_nat (length (default [] (acc.2 !! ip))) ≤ RATE_LIMIT)
  ∧ ∀ ip t, Z.of_nat (length (filter (in_window t) (api_times ip acc.1))) ≤ RATE_LIMIT.

Lemma rate_inv_weaken (T T' : Z) acc : T ≤ T' → rate_inv T acc → rate_inv T' acc.
Proof.
  intros Hle [Hd Hw]. split; [|done]. intros ip.
  destruct (Hd ip) as (dropped & Heq & Hall & Hlen). exists dropped.
  split_and!; [done | | done].
  eapply Forall_impl; [exact Hall|]. simpl. intros x Hx. lia.
Qed.

Lemma api_request_of_other (ip : string) (r : Request) :
  ip ≠ client_host r → api_request_of ip r = false.
Proof. intros Hne. unfold api_request_of. by rewrite bool_decide_eq_false_2. Qed.

Lemma serve_rate_inv acc (r : Request) :
  rate_inv (req_time r) acc → rate_inv (req_time r) (serve acc r).
Proof.
  intros Hinv.
  destruct acc as [log rc]. destruct Hinv as [Hd Hw]. simpl in Hd, Hw.
  unfold serve, rate_limit_middleware. cbn [fst snd].
  destruct (String.prefix "/api/" (url_path r)) eqn:Hapi.
  - unfold rate_limit_check. cbv zeta.
    destruct (popleft_expired_split (req_time r - RATE_WINDOW)
                (default [] (rc !! client_host r))) as (popped & Hsplit & Hpopped).
    pose proof (popleft_expired_length (req_time r - RATE_WINDOW)
                  (default [] (rc !! client_host r))) as Hshort.
    set (d := popleft_expired (req_time r - RATE_WINDOW)
                (default [] (rc !! client_host r))) in *.
    unfold rate_inv. case_bool_decide as Hfull; cbn [fst snd].
    + split; [|done]. intros ip. destruct (decide (ip = client_host r)) as [->|Hne].
      * destruct (Hd (client_host r)) as (dropped & Heq & Hall & Hlen).
        exists (dropped ++ popped). rewrite lookup_insert_eq. simpl.
        split_and!.
        -- by rewrite Heq, Hsplit at 1; rewrite app_assoc.
        -- by apply Forall_app.
        -- lia.
      * rewrite lookup_insert_ne by done. apply Hd.
    + assert (api_request_of (client_host r) r = true) as Hself.
      { unfold api_request_of. by rewrite bool_decide_eq_true_2, Hapi. }
      destruct (Hd (client_host r)) as (dropped & Heq & Hall & Hlen).
      split.
      * intros ip. destruct (decide (ip = client_host r)) as [->|Hne].
        -- exists (dropped ++ popped). rewrite lookup_insert_eq. simpl.
           rewrite api_times_snoc, Hself. split_and!.
           ++ rewrite Heq. rewrite Hsplit at 1. by rewrite !app_assoc.
           ++ by apply Forall_app.
           ++ rewrite length_app. simpl. lia.
        -- rewrite lookup_insert_ne by done.
           rewrite api_times_snoc, api_request_of_other by done.
           rewrite app_nil_r. apply Hd.
      * intros ip t. destruct (decide (ip = client_host r)) as [->|Hne].
        -- rewrite api_times_snoc, Hself.
           destruct (decide (req_time r ≤ t)) as [Hin|Hout].
           ++ rewrite Heq. rewrite Hsplit at 1. rewrite !filter_app.
              rewrite (filter_none _ dropped), (filter_none _ popped).
              ** simpl. rewrite length_app.
                 pose proof (length_filter (in_window t) d).
                 pose proof (length_filter (in_window t) [req_time r]).
                 simpl in *. lia.
              ** eapply Forall_impl; [exact Hpopped|]. unfold in_window. simpl. lia.
              ** eapply Forall_impl; [exact Hall|]. unfold in_window. simpl. lia.
           ++ rewrite filter_app, (filter_none _ [req_time r]).
              ** rewrite app_nil_r. apply Hw.
              ** constructor; [|done]. unfold in_window. lia.
        -- rewrite api_times_snoc, api_request_of_other by done.
           rewrite app_nil_r. apply Hw.
  - unfold rate_inv. cbn [fst snd]. split.
    + intros ip. rewrite api_times_snoc.
      unfold api_request_of. rewrite Hapi, andb_false_r, app_nil_r. apply Hd.
    + intros ip t. rewrite api_times_snoc.
      unfold api_request_of. rewrite Hapi, andb_false_r, app_nil_r. apply Hw.
Qed.

Lemma served_snoc (requests : list Request) (r : Request) :
  served (requests ++ [r]) = serve (served requests) r.
Proof. unfold served. by rewrite foldl_app. Qed.

Lemma served_rate_inv (requests : list Request) : ∀ T,
  StronglySorted Z.le (req_time <$> requests) →
  Forall (λ x, x ≤ T) (req_time <$> requests) →
  rate_inv T (served requests).
Proof.
  induction requests as [|r requests IH] using rev_ind; intros T Hsorted Hbound.
  - split.
    + intros ip. exists []. cbn [served foldl fst snd]. rewrite lookup_empty. by split_and!.
    + intros ip t. done.
  - rewrite fmap_app in Hsorted, Hbound. simpl in Hsorted, Hbound.
    apply Forall_app in Hbound as [_ Hr]. apply Forall_cons in Hr as [Hr _].
    rewrite served_snoc. apply (rate_inv_weaken (req_time r)); [done|].
    apply serve_rate_inv. apply IH.
    + by apply StronglySorted_app_1_l in Hsorted.
    + apply Forall_forall. intros x Hx.
      apply (StronglySorted_app_1_elem_of _ _ _ x (req_time r) Hsorted);
        [done | by apply list_elem_of_singleton].
Qed.

Lemma Forall_le_max (l : list Z) : ∃ T, Forall (λ x, x ≤ T) l.
Proof.
  induction l as [|x l [T HT]]; [by exists 0|].
  exists (Z.max x T). constructor; [lia|].
  eapply Forall_impl; [exact HT|]. simpl. lia.
Qed.

(** The deques of a run with a clock that does not go back are in
    ascending order and hold no time after the last request. *)
Definition deques_sorted (T : Z) (rc : gmap string (list Z)) : Prop :=
  ∀ ip, StronglySorted Z.le (default [] (rc !! ip))
        ∧ Forall (λ x, x ≤ T) (default [] (rc !! ip)).

Lemma popleft_expired_sorted (minute_ago T : Z) (d : list Z) :
  StronglySorted Z.le d → Forall (λ x, x ≤ T) d →
  StronglySorted Z.le (popleft_expired minute_ago d)
  ∧ Forall (λ x, minute_ago ≤ x ≤ T) (popleft_expired minute_ago d).
Proof.
  induction d as [|first rest IH]; intros Hsorted Hbound; [by split; constructor|].
  simpl. apply StronglySorted_inv in Hsorted as [Hrest Hfirst].
  apply Forall_cons in Hbound as [HfT HrT].
  case_bool_decide as Hold; [by apply IH|].
  split; [by constructor|]. constructor; [lia|].
  apply Forall_forall. intros x Hx.
  rewrite Forall_forall in Hfirst. rewrite Forall_forall in HrT.
  specialize (Hfirst x Hx). specialize (HrT x Hx). simpl in *. lia.
Qed.

Lemma serve_deques_sorted acc (r : Request) :
  deques_sorted (req_time r) acc.2 → deques_sorted (req_time r) (serve acc r).2.
Proof.
  destruct acc as [log rc]. intros Hinv. simpl in Hinv.
  unfold serve, rate_limit_middleware. cbn [fst snd].
  destruct (String.prefix "/api/" (url_path r)); [|done].
  unfold rate_limit_check. cbv zeta.
  destruct (Hinv (client_host r)) as [Hs Hb].
  destruct (popleft_expired_sorted (req_time r - RATE_WINDOW) (req_time r) _ Hs Hb)
    as [Hs' Hb'].
  set (d := popleft_expired (req_time r - RATE_WINDOW)
              (default [] (rc !! client_host r))) in *.
  case_bool_decide as Hfull; cbn [fst snd]; intros ip;
    (destruct (decide (ip = client_host r)) as [->|Hne];
     [rewrite lookup_insert_eq; simpl | by rewrite lookup_insert_ne by done]).
  - split; [done|]. eapply Forall_impl; [exact Hb'|]. simpl. lia.
  - split.
    + apply StronglySorted_app_2; [|done|repeat constructor].
      intros x1 x2 Hx1 Hx2. apply list_elem_of_singleton in Hx2 as ->.
      rewrite Forall_forall in Hb'. specialize (Hb' x1 Hx1). simpl in Hb'. lia.
    + apply Forall_app. split; [|by repeat constructor].
      eapply Forall_impl; [exact Hb'|]. simpl. lia.
Qed.

Lemma deques_sorted_weaken (T T' : Z) rc :
  T ≤ T' → deques_sorted T rc → deques_sorted T' rc.
Proof.
  intros Hle Hinv ip. destruct (Hinv ip) as [Hs Hb]. split; [done|].
  eapply Forall_impl; [exact Hb|]. simpl. lia.
Qed.

Lemma served_deques_sorted (requests : list Request) : ∀ T,
  StronglySorted Z.le (req_time <$> requests) →
  Forall (λ x, x ≤ T) (req_time <$> requests) →
  deques_sorted T (served requests).2.
Proof.
  induction requests as [|r requests IH] using rev_ind; intros T Hsorted Hbound.
  - intros ip. cbn [served foldl fst snd]. rewrite lookup_empty. simpl.
    split; constructor.
  - rewrite fmap_app in Hsorted, Hbound. simpl in Hsorted, Hbound.
    apply Forall_app in Hbound as [_ Hr]. apply Forall_cons in Hr as [Hr _].
    rewrite served_snoc. apply (deques_sorted_weaken (req_time r)); [done|].
    apply serve_deques_sorted. apply IH.
    + by apply StronglySorted_app_1_l in Hsorted.
    + apply Forall_forall. intros x Hx.
      apply (StronglySorted_app_1_elem_of _ _ _ x (req_time r) Hsorted);
        [done | by apply list_elem_of_singleton].
Qed.

(** X21: with a clock that does not go back, no client has more than ten
    requests under [/api/] passed on within any 60 seconds: for every
    client and every instant [t], at most [RATE_LIMIT] of its passed API
    requests carry a time between [t - RATE_WINDOW] and [t]. *)
Theorem rate_limit_window (requests : list Request) (ip : string) (t : Z) :
  Sorted Z.le (req_time <$> requests) →
  Z.of_nat (length (filter (in_window t) (api_times ip (served requests).1))) ≤ RATE_LIMIT.
Proof.
  intros Hsorted. apply Sorted_StronglySorted in Hsorted; [|intros ???; lia].
  destruct (Forall_le_max (req_time <$> requests)) as [T HT].
  destruct (served_rate_inv requests T Hsorted HT) as [_ Hw]. apply Hw.
Qed.

(** X22: with a clock that does not go back, a request under [/api/] is
    passed on exactly when fewer than ten of the client's API requests
    passed on before lie in the 60 seconds up to it. *)
Theorem rate_limit_decision (requests : list Request) (r : Request) :
  Sorted Z.le (req_time <$> requests ++ [r]) →
  String.prefix "/api/" (url_path r) = true →
  (rate_limit_middleware r (served requests).2).1
  = bool_decide
      (Z.of_nat (length (filter (in_window (req_time r))
                           (api_times (client_host r) (served requests).1)))
       < RATE_LIMIT).
Proof.
  intros Hsorted Hapi. apply Sorted_StronglySorted in Hsorted; [|intros ???; lia].
  rewrite fmap_app in Hsorted. simpl in Hsorted.
  assert (Forall (λ x, x ≤ req_time r) (req_time <$> requests)) as Hbound.
  { apply Forall_forall. intros x Hx.
    apply (StronglySorted_app_1_elem_of _ _ _ x (req_time r) Hsorted);
      [done | by apply list_elem_of_singleton]. }
  apply StronglySorted_app_1_l in Hsorted.
  destruct (served_rate_inv requests (req_time r) Hsorted Hbound) as [Hd _].
  pose proof (served_deques_sorted requests (req_time r) Hsorted Hbound) as Hinv.
  destruct (Hd (client_host r)) as (dropped & Heq & Hall & _).
  destruct (Hinv (client_host r)) as [Hs Hb].
  unfold rate_limit_middleware. rewrite Hapi. unfold rate_limit_check. cbv zeta.
  destruct (popleft_expired_split (req_time r - RATE_WINDOW)
              (default [] ((served requests).2 !! client_host r)))
    as (popped & Hsplit & Hpopped).
  destruct (popleft_expired_sorted (req_time r - RATE_WINDOW) (req_time r) _ Hs Hb)
    as [_ Hb'].
  set (d := popleft_expired (req_time r - RATE_WINDOW)
              (default [] ((served requests).2 !! client_host r))) in *.
  assert (filter (in_window (req_time r)) (api_times (client_host r) (served requests).1)
          = d) as ->.
  { rewrite Heq. rewrite Hsplit at 1. rewrite !filter_app.
    rewrite (filter_none _ dropped), (filter_none _ popped).
    - simpl. apply filter_all. exact Hb'.
    - eapply Forall_impl; [exact Hpopped|]. unfold in_window. simpl. lia.
    - eapply Forall_impl; [exact Hall|]. unfold in_window. simpl. lia. }
  case_bool_decide as Hfull; cbn [fst].
  - by rewrite bool_decide_eq_false_2 by lia.
  - by rewrite bool_decide_eq_true_2 by lia.
Qed.

(** X23: whatever the clock does, [request_counts] never holds more than
    ten timestamps for a client. *)
Theorem request_counts_bounded (requests : list Request) (ip : string) :
  Z.of_nat (length (default [] ((served requests).2 !! ip))) ≤ RATE_LIMIT.
Proof.
  induction requests as [|r requests IH] using rev_ind in ip |- *.
  - cbn [served foldl snd]. by rewrite lookup_empty.
  - rewrite served_snoc. unfold serve, rate_limit_middleware. cbn [snd].
    destruct (String.prefix "/api/" (url_path r)); [|apply IH].
    unfold rate_limit_check. cbv zeta.
    pose proof (popleft_expired_length (req_time r - RATE_WINDOW)
                  (default [] ((served requests).2 !! client_host r))) as Hshort.
    pose proof (IH (client_host r)) as Hlen.
    case_bool_decide as Hfull; cbn [snd];
      (destruct (decide (ip = client_host r)) as [->|Hne];
       [rewrite lookup_insert_eq; simpl | rewrite lookup_insert_ne by done; apply IH]).
    + lia.
    + rewrite length_app. simpl. lia.
Qed.

Definition sample_requests : list Request :=
  (λ i, {| req_time := Z.of_nat i * 1000000; client_host := "10.0.0.1";
           url_path := "/api/screenshots" |}) <$> seq 0 10.

Definition eleventh_request : Request :=
  {| req_time := 10 * 1000000; client_host := "10.0.0.1"; url_path := "/api/screenshots" |}.

Lemma rate_limit_window_witness :
  Z.of_nat (length (filter (in_window 10000000)
                      (api_times "10.0.0.1"
                         (served (sample_requests ++ [eleventh_request])).1)))
  ≤ RATE_LIMIT.
Proof.
  apply (rate_limit_window (sample_requests ++ [eleventh_request]) "10.0.0.1" 10000000).
  apply (bool_decide_unpack _). vm_compute. exact I.
Defined.

Lemma rate_limit_decision_witness :
  (rate_limit_middleware eleventh_request (served sample_requests).2).1
  = bool_decide
      (Z.of_nat (length (filter (in_window (req_time eleventh_request))
                           (api_times (client_host eleventh_request)
                              (served sample_requests).1)))
       < RATE_LIMIT).
Proof.
  apply (rate_limit_decision sample_requests eleventh_request).
  - apply (bool_decide_unpack _). vm_compute. exact I.
  - reflexivity.
Defined.

(** The eleventh request within ten seconds is answered with status 429. *)
Example eleventh_request_refused :
  (rate_limit_middleware eleventh_request (served sample_requests).2).1 = false.
Proof. vm_compute. reflexivity. Qed.

End RateLimit.
